(** * rocsolver-bench: benchmark harnesses for LAPACKE / rocSOLVER routines

    A shallow embedding of the six benchmark programs

      - [bench_openblas_ssyev]
      - [bench_openblas_sgesvdj_strided_batched]
      - [bench_rocsolver_sgesvdj_strided_batched]
      - [bench_rocsolver_ssyevj_strided_batched]
      - [bench_rocsolver_dgeqrf_strided_batched]
      - [bench_rocsolver_dgeqrf_batched]

    Each program parses its arguments, generates pseudo-random input matrices,
    derives buffer sizes, warms up, measures, and prints a report.  The
    external parts (command-line parser, random engine, clocks, LAPACKE and
    rocSOLVER) are parameters of the model, collected in [world]. *)

From Stdlib Require Import ZArith Lia String Ascii List Bool SpecFloat.
From stdpp Require Import gmap list strings pretty.

Open Scope Z_scope.

(* ===================================================================== *)
(** * Machine integers *)
(* ===================================================================== *)

(** [int], [lapack_int] and [rocblas_int] are 32-bit signed; [size_t] is
    64-bit unsigned; [rocblas_stride] is [int64_t].  Values are integers of
    [Z]; every arithmetic result is brought back into its type. *)
Module Machine.

Definition INT_MIN : Z := - 2 ^ 31.
Definition INT_MAX : Z := 2 ^ 31 - 1.
Definition SIZE_MAX : Z := 2 ^ 64 - 1.

Definition is_int (z : Z) : Prop := INT_MIN <= z <= INT_MAX.

(** result of an [int] operation, two's complement *)
Definition wrap_int (z : Z) : Z := (z + 2 ^ 31) mod 2 ^ 32 - 2 ^ 31.

(** result of an [int64_t] operation, two's complement *)
Definition wrap_int64 (z : Z) : Z := (z + 2 ^ 63) mod 2 ^ 64 - 2 ^ 63.

(** conversion to [size_t], and result of a [size_t] operation *)
Definition to_size_t (z : Z) : Z := z mod 2 ^ 64.

Definition int_mul (a b : Z) : Z := wrap_int (a * b).
Definition int_add (a b : Z) : Z := wrap_int (a + b).
Definition int64_mul (a b : Z) : Z := wrap_int64 (a * b).
Definition int64_add (a b : Z) : Z := wrap_int64 (a + b).
Definition size_mul (a b : Z) : Z := to_size_t (to_size_t a * to_size_t b).
Definition size_add (a b : Z) : Z := to_size_t (to_size_t a + to_size_t b).

Definition sizeof_float : Z := 4.
Definition sizeof_double : Z := 8.

End Machine.
Import Machine.

(* ===================================================================== *)
(** * Floating point *)
(* ===================================================================== *)

(** [float] is IEEE binary32 and [double] is IEEE binary64, both carried by
    [spec_float] with the operations of [SpecFloat] at the right precision. *)
Module Float.

Definition prec32 : Z := 24.
Definition emax32 : Z := 128.
Definition prec64 : Z := 53.
Definition emax64 : Z := 1024.

Definition zero : spec_float := S754_zero false.

(** integer to [float] conversion, round to nearest even *)
Definition of_Z (z : Z) : spec_float := binary_normalize prec32 emax32 z 0 false.

Definition add := SFadd prec32 emax32.
Definition sub := SFsub prec32 emax32.
Definition mul := SFmul prec32 emax32.
Definition div := SFdiv prec32 emax32.
Definition ltb := SFltb.
Definition leb := SFleb.

(** [float] to [double] (exact) and [double] to [float] (rounding) *)
Definition to_double (x : spec_float) : spec_float :=
  match x with
  | S754_finite s m e => binary_normalize prec64 emax64 (cond_Zopp s (Zpos m)) e s
  | _ => x
  end.

Definition of_double (x : spec_float) : spec_float :=
  match x with
  | S754_finite s m e => binary_normalize prec32 emax32 (cond_Zopp s (Zpos m)) e s
  | _ => x
  end.

(** [sqrt] of <cmath> applied to a [float]: the argument is promoted to
    [double], the root is taken there and the result is stored in a [float] *)
Definition sqrt (x : spec_float) : spec_float :=
  of_double (SFsqrt prec64 emax64 (to_double x)).

(** [x * 10.0] with [x] a [float]: the product is a [double] *)
Definition ten64 : spec_float := binary_normalize prec64 emax64 10 0 false.
Definition times_ten (x : spec_float) : spec_float :=
  of_double (SFmul prec64 emax64 (to_double x) ten64).

(** [0 <= x], false for NaN *)
Definition nonneg (x : spec_float) : bool := SFleb zero x.

Definition is_nan (x : spec_float) : bool :=
  match x with S754_nan => true | _ => false end.

End Float.

(* ===================================================================== *)
(** * Parsed command line *)
(* ===================================================================== *)

(** The values [program.get<..>] returns once [program.parse_args] has
    succeeded.  [stride] is [None] when [program.present("--stride")] is
    empty.  A program reads only the flags it declares: the square programs
    read [size], the others [rows] and [cols]. *)
Record cli : Type := Cli {
  size : Z;
  rows : Z;
  cols : Z;
  lda : Z;
  stride : option Z;
  batch_count : Z;
  random_seed : Z;
  iterations : Z;
  warmup_time : Z;
  tolerance : spec_float;
  max_sweeps : Z;
  left_svect : string;
  right_svect : string
}.

(** every [scan<'i', int>] value is an [int] *)
Definition cli_ints (a : cli) : Prop :=
  is_int (size a) /\ is_int (rows a) /\ is_int (cols a) /\ is_int (lda a) /\
  (forall s, stride a = Some s -> is_int s) /\ is_int (batch_count a) /\
  is_int (random_seed a) /\ is_int (iterations a) /\ is_int (warmup_time a) /\
  is_int (max_sweeps a).

(* ===================================================================== *)
(** * Buffer shapes *)
(* ===================================================================== *)

(** [if (lda < M) lda = M;] *)
Definition clamp_lda (lda M : Z) : Z := if lda <? M then M else lda.

(** Strided programs on the CPU: [size_t strideA]. *)
Definition strideA_size_t (a : cli) (lda N : Z) : Z :=
  match stride a with
  | Some s => to_size_t s
  | None => to_size_t (int_mul lda N)
  end.

(** Strided programs on the GPU: [rocblas_stride strideA]. *)
Definition strideA_int64 (a : cli) (lda N : Z) : Z :=
  match stride a with
  | Some s => s
  | None => int_mul lda N
  end.

(** [(M < N) ? M : N] *)
Definition min_mn (M N : Z) : Z := if M <? N then M else N.

Record shape : Type := Shape {
  sh_M : Z;
  sh_N : Z;
  sh_lda : Z;
  sh_strideA : Z;
  sh_batch_count : Z;
  sh_size_A : Z
}.

(** Shapes of the singular-vector outputs of the SVD programs. *)
Record svd_shape : Type := SvdShape {
  ldu : Z;
  ldv : Z;            (* [ldvt] on the CPU, [ldv] on the GPU *)
  strideU : Z;
  strideV : Z;        (* [strideVT] on the CPU *)
  size_U : Z;
  size_V : Z;         (* [size_VT] on the CPU *)
  strideS : Z;
  size_S : Z
}.

Inductive rocblas_svect : Type :=
  | rocblas_svect_all
  | rocblas_svect_singular
  | rocblas_svect_overwrite
  | rocblas_svect_none.

Definition rocblas_svect_eqb (x y : rocblas_svect) : bool :=
  match x, y with
  | rocblas_svect_all, rocblas_svect_all
  | rocblas_svect_singular, rocblas_svect_singular
  | rocblas_svect_overwrite, rocblas_svect_overwrite
  | rocblas_svect_none, rocblas_svect_none => true
  | _, _ => false
  end.

Module OpenblasSizes.

(** bench_openblas_ssyev.cpp, main, lines 94-116 *)
Definition ssyev_shape (a : cli) : shape :=
  let N := size a in
  let lda := clamp_lda (lda a) N in
  let strideA := strideA_size_t a lda N in
  Shape N N lda strideA (batch_count a) (size_mul strideA (batch_count a)).

(** bench_openblas_sgesvdj_strided_batched.cpp, main, lines 102-145 *)
Definition sgesvd_shape (a : cli) : shape :=
  let M := rows a in
  let N := cols a in
  let lda := clamp_lda (lda a) M in
  let strideA := strideA_size_t a lda N in
  Shape M N lda strideA (batch_count a) (size_mul strideA (batch_count a)).

(** lines 125-139: any string other than "none" and "singular" selects 'A' *)
Definition job_of (s : string) : ascii :=
  if String.eqb s "none" then "N"%char
  else if String.eqb s "singular" then "S"%char
  else "A"%char.

(** lines 146-158 *)
Definition sgesvd_svd_shape (a : cli) : svd_shape :=
  let M := rows a in
  let N := cols a in
  let batch_count := batch_count a in
  let jobu := job_of (left_svect a) in
  let jobvt := job_of (right_svect a) in
  let min_mn := min_mn M N in
  let strideS := to_size_t min_mn in
  let size_S := size_mul strideS batch_count in
  let ldu := if Ascii.eqb jobu "N" then 1 else M in
  let ldvt := if Ascii.eqb jobvt "N" then 1 else N in
  let strideU :=
    if Ascii.eqb jobu "N" then 1
    else to_size_t (int_mul ldu (if Ascii.eqb jobu "A" then M else min_mn)) in
  let strideVT := if Ascii.eqb jobvt "N" then 1 else to_size_t (int_mul ldvt N) in
  SvdShape ldu ldvt strideU strideVT
           (size_mul strideU batch_count) (size_mul strideVT batch_count)
           strideS size_S.

End OpenblasSizes.

Module RocsolverSizes.

(** bench_rocsolver_ssyevj_strided_batched.cpp, main, lines 102-129 *)
Definition ssyevj_shape (a : cli) : shape :=
  let N := size a in
  let lda := clamp_lda (lda a) N in
  let strideA := strideA_int64 a lda N in
  Shape N N lda strideA (batch_count a) (size_mul strideA (batch_count a)).

(** bench_rocsolver_sgesvdj_strided_batched.cpp, main, lines 110-159, and
    bench_rocsolver_dgeqrf_strided_batched.cpp, main, lines 92-122 *)
Definition strided_shape (a : cli) : shape :=
  let M := rows a in
  let N := cols a in
  let lda := clamp_lda (lda a) M in
  let strideA := strideA_int64 a lda N in
  Shape M N lda strideA (batch_count a) (size_mul strideA (batch_count a)).

(** bench_rocsolver_dgeqrf_batched.cpp, main, lines 90-111: no stride, one
    allocation of [size_A = lda * (size_t)N] elements per matrix *)
Definition batched_shape (a : cli) : shape :=
  let M := rows a in
  let N := cols a in
  let lda := clamp_lda (lda a) M in
  Shape M N lda 0 (batch_count a) (size_mul lda N).

(** sgesvdj, lines 135-149 *)
Definition svect_of (s : string) : rocblas_svect :=
  if String.eqb s "none" then rocblas_svect_none
  else if String.eqb s "singular" then rocblas_svect_singular
  else rocblas_svect_all.

(** sgesvdj, lines 160-175 *)
Definition sgesvdj_svd_shape (a : cli) : svd_shape :=
  let M := rows a in
  let N := cols a in
  let batch_count := batch_count a in
  let left_svect := svect_of (left_svect a) in
  let right_svect := svect_of (right_svect a) in
  let min_mn := min_mn M N in
  let strideS := min_mn in
  let size_S := size_mul strideS batch_count in
  let ldu := if rocblas_svect_eqb left_svect rocblas_svect_none then 1 else M in
  let ldv :=
    if rocblas_svect_eqb right_svect rocblas_svect_none then 1
    else if rocblas_svect_eqb right_svect rocblas_svect_singular then min_mn
    else N in
  let strideU :=
    if rocblas_svect_eqb left_svect rocblas_svect_none then 1
    else if rocblas_svect_eqb left_svect rocblas_svect_singular then int_mul ldu min_mn
    else int_mul ldu M in
  let strideV :=
    if rocblas_svect_eqb right_svect rocblas_svect_none then 1 else int_mul ldv N in
  SvdShape ldu ldv strideU strideV
           (size_mul strideU batch_count) (size_mul strideV batch_count)
           strideS size_S.

End RocsolverSizes.

(* ===================================================================== *)
(** * Matrix generators *)
(* ===================================================================== *)

(** Host memory is a finite map from locations to elements.  Its domain is
    what [malloc] handed out; a cell keeps whatever the allocator left there
    until the program stores to it.  A store outside the domain has no
    defined behaviour: the computation yields [None]. *)
Module Gen.

Record gstate (G L F : Type) `{Countable L} : Type := GState {
  engine : G;                 (* std::mt19937 gen *)
  mem : gmap L F              (* the memory behind hA *)
}.
Arguments GState {G L F _ _} engine mem.
Arguments engine {G L F _ _} _.
Arguments mem {G L F _ _} _.

Definition Gen (G L F : Type) `{Countable L} (A : Type) : Type :=
  gstate G L F -> option (A * gstate G L F).

Section Monad.
Context {G L F : Type} `{Countable L}.

Definition ret {A : Type} (a : A) : Gen G L F A := fun s => Some (a, s).

Definition bind {A B : Type} (m : Gen G L F A) (k : A -> Gen G L F B) : Gen G L F B :=
  fun s => match m s with
           | Some (a, s') => k a s'
           | None => None
           end.

(** [dis(gen)] *)
Definition draw (dis : G -> F * G) : Gen G L F F :=
  fun s => let '(v, g) := dis (engine s) in Some (v, GState g (mem s)).

(** [hA[l] = v] *)
Definition store (l : L) (v : F) : Gen G L F unit :=
  fun s => match mem s !! l with
           | Some _ => Some (tt, GState (engine s) (<[l := v]> (mem s)))
           | None => None
           end.

Fixpoint for_each (xs : list Z) (body : Z -> Gen G L F unit) : Gen G L F unit :=
  match xs with
  | [] => ret tt
  | x :: xs' => bind (body x) (fun _ => for_each xs' body)
  end.

(** [for (int x = lo; x < hi; ++x) body] *)
Definition for_int (lo hi : Z) (body : Z -> Gen G L F unit) : Gen G L F unit :=
  for_each (seqZ lo (hi - lo)) body.

End Monad.

Notation "x <~ m ;; k" := (bind m (fun x => k))
  (at level 100, m at next level, right associativity).
Notation "m ;;; k" := (bind m (fun _ => k))
  (at level 100, right associativity).

Section Fill.
Context {G L F : Type} `{Countable L}.
Variable dis : G -> F * G.
(** location of element (i, j) of batch member b *)
Variable index : Z -> Z -> Z -> L.

(** The loop nest of [create_matrices_for_sgesvdj_strided_batched] and of
    both [create_example_matrices]. *)
Definition fill_general (M N batch_count : Z) : Gen G L F unit :=
  for_int 0 batch_count (fun b =>
    for_int 0 M (fun i =>
      for_int 0 N (fun j =>
        v <~ draw dis ;;
        store (index i j b) v))).

(** The loop nest of [create_matrices] and [create_symmetric_matrices];
    [scale] is the [* 10.0] of the diagonal. *)
Variable scale : F -> F.

Definition fill_symmetric (N batch_count : Z) : Gen G L F unit :=
  for_int 0 batch_count (fun b =>
    for_int 0 N (fun i =>
      d <~ draw dis ;;
      store (index i i b) (scale d) ;;;
      for_int (i + 1) N (fun j =>
        value <~ draw dis ;;
        store (index i j b) value ;;;
        store (index j i b) value))).

End Fill.

(** ** Allocation *)

(** [malloc] of [n] elements: cells [0 .. n-1], holding what was there. *)
Definition malloc {F : Type} (stale : Z -> F) (n : Z) : gmap Z F :=
  list_to_map ((fun p => (p, stale p)) <$> seqZ 0 n).

(** an array of [batch] pointers, each to its own [malloc] of [n] elements *)
Definition malloc_each {F : Type} (stale : Z -> Z -> F) (batch n : Z) : gmap (Z * Z) F :=
  list_to_map (b ← seqZ 0 batch; (fun p => ((b, p), stale b p)) <$> seqZ 0 n).

(** ** Index expressions *)

(** [i + j * lda + b * strideA] with [size_t strideA] *)
Definition index_size_t (lda strideA : Z) (i j b : Z) : Z :=
  size_add (int_add i (int_mul j lda)) (size_mul b strideA).

(** [i + j * lda + b * strideA] with [rocblas_stride strideA] *)
Definition index_int64 (lda strideA : Z) (i j b : Z) : Z :=
  int64_add (int_add i (int_mul j lda)) (int64_mul b strideA).

(** [hA[b][i + j * lda]] *)
Definition index_batched (lda : Z) (i j b : Z) : Z * Z :=
  (b, int_add i (int_mul j lda)).

Definition run {G L F : Type} `{Countable L}
    (m : Gen G L F unit) (gen : G) (hA : gmap L F) : option (gmap L F) :=
  match m (GState gen hA) with
  | Some (_, s) => Some (mem s)
  | None => None
  end.

End Gen.

(* ===================================================================== *)
(** * The benchmark harness *)
(* ===================================================================== *)

Module Harness.

(** What a run does that can be seen from outside: calls into the
    numerical library and [printf]s. *)
Inductive arg : Type :=
  | ArgInt (z : Z)
  | ArgFloat (x : spec_float)
  | ArgStr (s : string).

Inductive event : Type :=
  | Printf (fmt : string) (args : list arg)
  | Call (routine : string).

Inductive phase : Type := WarmUp | Timed.

(** The surroundings of a run. *)
Record world (G : Type) : Type := World {
  (** [std::mt19937 gen(random_seed)] *)
  mt19937 : Z -> G;
  (** [std::uniform_real_distribution<float> dis(-10.0, 10.0)], [dis(gen)] *)
  dis_float : G -> spec_float * G;
  (** [std::uniform_real_distribution<double> dis(-100.0, 100.0)] *)
  dis_double : G -> spec_float * G;
  (** what [malloc] leaves in allocation [k] at offset [p] *)
  stale : Z -> Z -> spec_float;
  (** [warmup_elapsed] as read after the k-th warm-up repetition, k >= 1 *)
  warmup_clock : nat -> spec_float;
  (** [elapsed_time] of timed iteration [iter] *)
  timer : nat -> spec_float;
  (** status of matrix [b] in repetition [k] of a phase: the value
      LAPACKE returns, or what rocSOLVER leaves in [dInfo[b]] *)
  info : phase -> nat -> Z -> Z;
  (** [printf] of a floating-point argument under a conversion such as
      "%.3f" *)
  fmt_float : string -> spec_float -> string
}.
Arguments mt19937 {G} _ _.
Arguments dis_float {G} _ _.
Arguments dis_double {G} _ _.
Arguments stale {G} _ _ _.
Arguments warmup_clock {G} _ _.
Arguments timer {G} _ _.
Arguments info {G} _ _ _ _.
Arguments fmt_float {G} _ _ _.

Inductive result : Type :=
  | Exit (code : Z) (out : list event)     (* main returned *)
  | Hang (out : list event)                (* still warming up when the fuel ran out *)
  | Crash.                                 (* a store outside allocated memory *)

(** a run that comes after the events [pre] *)
Definition preceded_by (pre : list event) (r : result) : result :=
  match r with
  | Exit code out => Exit code (pre ++ out)
  | Hang out => Hang (pre ++ out)
  | Crash => Crash
  end.

(** ** printf *)

Definition nl : string := String (ascii_of_nat 10) EmptyString.

Definition is_conversion (c : ascii) : bool :=
  Ascii.eqb c "d" || Ascii.eqb c "f" || Ascii.eqb c "e" || Ascii.eqb c "s".

Definition render_arg (fmt_float : string -> spec_float -> string)
    (spec : string) (a : arg) : string :=
  match a with
  | ArgInt z => pretty z
  | ArgFloat x => fmt_float spec x
  | ArgStr s => s
  end.

(** [spec] is [Some sp] while inside a conversion specification, [sp]
    being the characters read since the percent sign *)
Fixpoint format (fmt_float : string -> spec_float -> string)
    (spec : option string) (fmt : string) (args : list arg) : string :=
  match fmt with
  | EmptyString => EmptyString
  | String c rest =>
      match spec with
      | None =>
          if Ascii.eqb c "%" then format fmt_float (Some "%"%string) rest args
          else String c (format fmt_float None rest args)
      | Some sp =>
          let sp' := (sp ++ String c EmptyString)%string in
          if is_conversion c then
            match args with
            | a :: args' =>
                (render_arg fmt_float sp' a ++ format fmt_float None rest args')%string
            | [] => format fmt_float None rest []
            end
          else format fmt_float (Some sp') rest args
      end
  end.

Definition render (fmt_float : string -> spec_float -> string) (e : event) : string :=
  match e with
  | Printf fmt args => format fmt_float None fmt args
  | Call _ => EmptyString
  end.

(** standard output of a run *)
Definition stdout (fmt_float : string -> spec_float -> string) (out : list event) : list string :=
  omap (fun e => match e with
                 | Printf _ _ => Some (render fmt_float e)
                 | Call _ => None
                 end) out.

Definition is_call (e : event) : bool :=
  match e with Call _ => true | Printf _ _ => false end.

(** ** Warm-up *)

Record warmup_state : Type := WarmupState {
  warmup_elapsed : spec_float;
  warmup_count : Z;
  repetitions : nat;          (* how often the body ran; indexes the world *)
  warmup_out : list event
}.

(** [float warmup_elapsed = 0.0f; int warmup_count = 0;] *)
Definition warmup_init : warmup_state := WarmupState Float.zero 0 0 [].

(** [warmup_elapsed < warmup_time || warmup_count == 0] *)
Definition warmup_cond (warmup_time : Z) (s : warmup_state) : bool :=
  Float.ltb (warmup_elapsed s) (Float.of_Z warmup_time) || (warmup_count s =? 0).

Definition warmup_step (action : nat -> list event) (clock : nat -> spec_float)
    (s : warmup_state) : warmup_state :=
  let k := S (repetitions s) in
  WarmupState (clock k) (int_add (warmup_count s) 1) k (warmup_out s ++ action k).

(** the [while] loop; the flag tells whether the loop was left *)
Fixpoint warmup_loop (fuel : nat) (action : nat -> list event)
    (clock : nat -> spec_float) (warmup_time : Z) (s : warmup_state)
    : warmup_state * bool :=
  if warmup_cond warmup_time s then
    match fuel with
    | O => (s, false)
    | S fuel' => warmup_loop fuel' action clock warmup_time (warmup_step action clock s)
    end
  else (s, true).

(** ** Measurement *)

Record timed_state : Type := TimedState {
  timings : list spec_float;    (* std::vector<float> timings *)
  timed_out : list event
}.

(** one iteration: the action, then [timings.push_back(elapsed_time)] *)
Definition timed_step (action : nat -> list event) (timer : nat -> spec_float)
    (s : timed_state) (iter : nat) : timed_state :=
  TimedState (timings s ++ [timer iter]) (timed_out s ++ action iter).

(** [for (int iter = 0; iter < iterations; ++iter)] *)
Definition timed_loop (action : nat -> list event) (timer : nat -> spec_float)
    (iterations : Z) : timed_state :=
  fold_left (timed_step action timer) (seq 0 (Z.to_nat iterations)) (TimedState [] []).

(** ** Statistics *)

(** [timings.size()] converted to [float] *)
Definition size_as_float (timings : list spec_float) : spec_float :=
  Float.of_Z (Z.of_nat (length timings)).

(** [avg_time = 0.0f; for (float t : timings) avg_time += t;
     avg_time /= timings.size();] *)
Definition avg_time (timings : list spec_float) : spec_float :=
  Float.div (fold_left (fun avg_time t => Float.add avg_time t) timings Float.zero)
            (size_as_float timings).

(** [std_dev = 0.0f;
     for (float t : timings) std_dev += (t - avg_time) * (t - avg_time);
     std_dev = sqrt(std_dev / timings.size());] *)
Definition std_dev (timings : list spec_float) : spec_float :=
  let avg_time := avg_time timings in
  Float.sqrt
    (Float.div
       (fold_left (fun std_dev t =>
                     Float.add std_dev (Float.mul (Float.sub t avg_time) (Float.sub t avg_time)))
                  timings Float.zero)
       (size_as_float timings)).

(** ** The common course of a run, after the input has been generated *)

Definition run_benchmark
    (warmup_action timed_action : nat -> list event)
    (clock timer : nat -> spec_float)
    (warmup_time iterations : Z)
    (report : Z -> spec_float -> spec_float -> list event)
    (fuel : nat) : result :=
  let out0 := [Printf ("Performing warm-up for %d ms..." ++ nl) [ArgInt warmup_time]] in
  let '(w, left_loop) := warmup_loop fuel warmup_action clock warmup_time warmup_init in
  if left_loop then
    let out1 := [Printf ("Completed %d warm-up iterations in %.2f ms" ++ nl)
                        [ArgInt (warmup_count w); ArgFloat (warmup_elapsed w)]] in
    let t := timed_loop timed_action timer iterations in
    let avg_time := avg_time (timings t) in
    let std_dev := std_dev (timings t) in
    Exit 0 (out0 ++ warmup_out w ++ out1 ++ timed_out t
                 ++ report (warmup_count w) avg_time std_dev)
  else Hang (out0 ++ warmup_out w).

End Harness.

(* ===================================================================== *)
(** * The six programs *)
(* ===================================================================== *)

Import Harness.

(** The batch loop of the CPU programs: one LAPACKE call per matrix, and,
    where the source has it, a message for a non-zero return value.  The
    OpenMP loop of the eigensolver is laid out in batch order. *)
Definition lapacke_batch {G : Type} (w : world G) (ph : phase)
    (routine failed : string) (report_failure : bool) (batch_count : Z) (k : nat)
    : list event :=
  b ← seqZ 0 batch_count;
  let info := info w ph k b in
  Call routine ::
    (if report_failure && negb (info =? 0)
     then [Printf failed [ArgInt b; ArgInt info]]
     else []).

(** One rocSOLVER call works on the whole batch; [dInfo] stays on the device. *)
Definition rocsolver_batch (routine : string) (k : nat) : list event :=
  [Call routine].

Module bench_openblas_ssyev.

(** [.default_value(..)] of the flags this program declares *)
Definition defaults : cli :=
  {| size := 10; rows := 0; cols := 0; lda := 10; stride := None; batch_count := 2;
     random_seed := 42; iterations := 10; warmup_time := 1000;
     tolerance := Float.zero; max_sweeps := 0; left_svect := ""; right_svect := "" |}.

(** lines 16-43 *)
Definition create_matrices {G : Type} (w : world G)
    (N lda strideA batch_count random_seed : Z) : option (gmap Z spec_float) :=
  let hA := Gen.malloc (stale w 0)
              (size_mul (size_mul sizeof_float strideA) batch_count / sizeof_float) in
  let gen := mt19937 w random_seed in
  Gen.run (Gen.fill_symmetric (dis_float w) (Gen.index_size_t lda strideA)
                              Float.times_ten N batch_count) gen hA.

Definition failed : string :=
  "LAPACKE_ssyev failed for matrix %d with error %d" ++ nl.

(** lines 144-187: the message is printed *)
Definition warmup_action {G : Type} (w : world G) (batch_count : Z) : nat -> list event :=
  lapacke_batch w WarmUp "LAPACKE_ssyev_work" failed true batch_count.

(** lines 192-229: the message is commented out *)
Definition timed_action {G : Type} (w : world G) (batch_count : Z) : nat -> list event :=
  lapacke_batch w Timed "LAPACKE_ssyev_work" failed false batch_count.

(** lines 241-248 *)
Definition report (N batch_count warmup_time iterations : Z)
    (warmup_count : Z) (avg_time std_dev : spec_float) : list event :=
  [ Printf (nl ++ "===== Performance Results (CPU - OpenBLAS) =====" ++ nl) [];
    Printf ("Matrix size: %d x %d" ++ nl) [ArgInt N; ArgInt N];
    Printf ("Batch count: %d" ++ nl) [ArgInt batch_count];
    Printf ("Warm-up time: %d ms (completed %d iterations)" ++ nl)
           [ArgInt warmup_time; ArgInt warmup_count];
    Printf ("Timing iterations: %d" ++ nl) [ArgInt iterations];
    Printf ("Average execution time: %.3f ms" ++ nl) [ArgFloat avg_time];
    Printf ("Standard deviation: %.3f ms" ++ nl) [ArgFloat std_dev];
    Printf ("==============================================" ++ nl ++ nl) [] ].

(** lines 124-131: the routine is first called with [lwork = -1], to learn
    the size of the workspace *)
Definition workspace_query : list event := [Call "LAPACKE_ssyev_work"].

(** lines 46-256, after [parse_args] *)
Definition main {G : Type} (w : world G) (a : cli) (fuel : nat) : result :=
  let sh := OpenblasSizes.ssyev_shape a in
  match create_matrices w (sh_N sh) (sh_lda sh) (sh_strideA sh)
                        (sh_batch_count sh) (random_seed a) with
  | None => Crash
  | Some hA =>
      preceded_by workspace_query
        (run_benchmark (warmup_action w (sh_batch_count sh))
                       (timed_action w (sh_batch_count sh))
                       (warmup_clock w) (timer w) (warmup_time a) (iterations a)
                       (report (sh_N sh) (sh_batch_count sh) (warmup_time a) (iterations a))
                       fuel)
  end.

End bench_openblas_ssyev.

Module bench_openblas_sgesvdj_strided_batched.

Definition defaults : cli :=
  {| size := 0; rows := 10; cols := 8; lda := 10; stride := None; batch_count := 2;
     random_seed := 42; iterations := 10; warmup_time := 1000;
     tolerance := Float.zero; max_sweeps := 0;
     left_svect := "all"; right_svect := "all" |}.

(** lines 16-38 *)
Definition create_matrices_for_sgesvdj_strided_batched {G : Type} (w : world G)
    (M N lda strideA batch_count random_seed : Z) : option (gmap Z spec_float) :=
  let hA := Gen.malloc (stale w 0)
              (size_mul (size_mul sizeof_float strideA) batch_count / sizeof_float) in
  let gen := mt19937 w random_seed in
  Gen.run (Gen.fill_general (dis_float w) (Gen.index_size_t lda strideA)
                            M N batch_count) gen hA.

Definition failed : string :=
  "LAPACKE_sgesvd failed for matrix %d with error %d" ++ nl.

(** lines 184-226 and 231-262: the message is printed in both loops *)
Definition action {G : Type} (w : world G) (ph : phase) (batch_count : Z)
    : nat -> list event :=
  lapacke_batch w ph "LAPACKE_sgesvd_work" failed true batch_count.

(** lines 274-283 *)
Definition report (a : cli) (M N batch_count : Z)
    (warmup_count : Z) (avg_time std_dev : spec_float) : list event :=
  [ Printf (nl ++ "===== Performance Results (CPU - OpenBLAS) =====" ++ nl) [];
    Printf ("Matrix size: %d x %d" ++ nl) [ArgInt M; ArgInt N];
    Printf ("Batch count: %d" ++ nl) [ArgInt batch_count];
    Printf ("Left singular vectors: %s" ++ nl) [ArgStr (left_svect a)];
    Printf ("Right singular vectors: %s" ++ nl) [ArgStr (right_svect a)];
    Printf ("Warm-up time: %d ms (completed %d iterations)" ++ nl)
           [ArgInt (warmup_time a); ArgInt warmup_count];
    Printf ("Timing iterations: %d" ++ nl) [ArgInt (iterations a)];
    Printf ("Average execution time: %.3f ms" ++ nl) [ArgFloat avg_time];
    Printf ("Standard deviation: %.3f ms" ++ nl) [ArgFloat std_dev];
    Printf ("==============================================" ++ nl ++ nl) [] ].

Definition main {G : Type} (w : world G) (a : cli) (fuel : nat) : result :=
  let sh := OpenblasSizes.sgesvd_shape a in
  match create_matrices_for_sgesvdj_strided_batched w (sh_M sh) (sh_N sh) (sh_lda sh)
          (sh_strideA sh) (sh_batch_count sh) (random_seed a) with
  | None => Crash
  | Some hA =>
      run_benchmark (action w WarmUp (sh_batch_count sh))
                    (action w Timed (sh_batch_count sh))
                    (warmup_clock w) (timer w) (warmup_time a) (iterations a)
                    (report a (sh_M sh) (sh_N sh) (sh_batch_count sh))
                    fuel
  end.

End bench_openblas_sgesvdj_strided_batched.

(** [1e-7f], the default of [--tolerance] *)
Definition tolerance_default : spec_float := S754_finite false 14073749 (-47).

Module bench_rocsolver_sgesvdj_strided_batched.

Definition defaults : cli :=
  {| size := 0; rows := 10; cols := 8; lda := 10; stride := None; batch_count := 2;
     random_seed := 42; iterations := 10; warmup_time := 1000;
     tolerance := tolerance_default; max_sweeps := 100;
     left_svect := "all"; right_svect := "all" |}.

(** lines 14-36 *)
Definition create_matrices_for_sgesvdj_strided_batched {G : Type} (w : world G)
    (M N lda strideA batch_count random_seed : Z) : option (gmap Z spec_float) :=
  let hA := Gen.malloc (stale w 0)
              (size_mul (size_mul sizeof_float strideA) batch_count / sizeof_float) in
  let gen := mt19937 w random_seed in
  Gen.run (Gen.fill_general (dis_float w) (Gen.index_int64 lda strideA)
                            M N batch_count) gen hA.

(** lines 210-223 and 230-251 *)
Definition action : nat -> list event :=
  rocsolver_batch "rocsolver_sgesvdj_strided_batched".

(** lines 263-274 *)
Definition report (a : cli) (M N batch_count : Z)
    (warmup_count : Z) (avg_time std_dev : spec_float) : list event :=
  [ Printf (nl ++ "===== Performance Results =====" ++ nl) [];
    Printf ("Matrix size: %d x %d" ++ nl) [ArgInt M; ArgInt N];
    Printf ("Batch count: %d" ++ nl) [ArgInt batch_count];
    Printf ("Left singular vectors: %s" ++ nl) [ArgStr (left_svect a)];
    Printf ("Right singular vectors: %s" ++ nl) [ArgStr (right_svect a)];
    Printf ("Tolerance: %e" ++ nl) [ArgFloat (tolerance a)];
    Printf ("Max sweeps: %d" ++ nl) [ArgInt (max_sweeps a)];
    Printf ("Warm-up time: %d ms (completed %d iterations)" ++ nl)
           [ArgInt (warmup_time a); ArgInt warmup_count];
    Printf ("Timing iterations: %d" ++ nl) [ArgInt (iterations a)];
    Printf ("Average execution time: %.3f ms" ++ nl) [ArgFloat avg_time];
    Printf ("Standard deviation: %.3f ms" ++ nl) [ArgFloat std_dev];
    Printf ("==============================" ++ nl ++ nl) [] ].

Definition main {G : Type} (w : world G) (a : cli) (fuel : nat) : result :=
  let sh := RocsolverSizes.strided_shape a in
  match create_matrices_for_sgesvdj_strided_batched w (sh_M sh) (sh_N sh) (sh_lda sh)
          (sh_strideA sh) (sh_batch_count sh) (random_seed a) with
  | None => Crash
  | Some hA =>
      run_benchmark action action
                    (warmup_clock w) (timer w) (warmup_time a) (iterations a)
                    (report a (sh_M sh) (sh_N sh) (sh_batch_count sh))
                    fuel
  end.

End bench_rocsolver_sgesvdj_strided_batched.

Module bench_rocsolver_ssyevj_strided_batched.

Definition defaults : cli :=
  {| size := 10; rows := 0; cols := 0; lda := 10; stride := None; batch_count := 2;
     random_seed := 42; iterations := 10; warmup_time := 1000;
     tolerance := tolerance_default; max_sweeps := 100;
     left_svect := ""; right_svect := "" |}.

(** lines 14-41 *)
Definition create_symmetric_matrices {G : Type} (w : world G)
    (n_out lda_out strideA_out batch_count_out random_seed : Z)
    : option (gmap Z spec_float) :=
  let hA := Gen.malloc (stale w 0)
              (size_mul (size_mul sizeof_float strideA_out) batch_count_out / sizeof_float) in
  let gen := mt19937 w random_seed in
  Gen.run (Gen.fill_symmetric (dis_float w) (Gen.index_int64 lda_out strideA_out)
                              Float.times_ten n_out batch_count_out) gen hA.

(** lines 170-182 and 189-206 *)
Definition action : nat -> list event :=
  rocsolver_batch "rocsolver_ssyevj_strided_batched".

(** lines 218-227 *)
Definition report (a : cli) (N batch_count : Z)
    (warmup_count : Z) (avg_time std_dev : spec_float) : list event :=
  [ Printf (nl ++ "===== Performance Results =====" ++ nl) [];
    Printf ("Matrix size: %d x %d" ++ nl) [ArgInt N; ArgInt N];
    Printf ("Batch count: %d" ++ nl) [ArgInt batch_count];
    Printf ("Tolerance: %e" ++ nl) [ArgFloat (tolerance a)];
    Printf ("Max sweeps: %d" ++ nl) [ArgInt (max_sweeps a)];
    Printf ("Warm-up time: %d ms (completed %d iterations)" ++ nl)
           [ArgInt (warmup_time a); ArgInt warmup_count];
    Printf ("Timing iterations: %d" ++ nl) [ArgInt (iterations a)];
    Printf ("Average execution time: %.3f ms" ++ nl) [ArgFloat avg_time];
    Printf ("Standard deviation: %.3f ms" ++ nl) [ArgFloat std_dev];
    Printf ("==============================" ++ nl ++ nl) [] ].

Definition main {G : Type} (w : world G) (a : cli) (fuel : nat) : result :=
  let sh := RocsolverSizes.ssyevj_shape a in
  match create_symmetric_matrices w (sh_N sh) (sh_lda sh) (sh_strideA sh)
          (sh_batch_count sh) (random_seed a) with
  | None => Crash
  | Some hA =>
      run_benchmark action action
                    (warmup_clock w) (timer w) (warmup_time a) (iterations a)
                    (report a (sh_N sh) (sh_batch_count sh))
                    fuel
  end.

End bench_rocsolver_ssyevj_strided_batched.

(** lines 197-203 of bench_rocsolver_dgeqrf_batched.cpp and 197-204 of
    bench_rocsolver_dgeqrf_strided_batched.cpp: the same report *)
Definition dgeqrf_report (a : cli) (M N batch_count : Z)
    (warmup_count : Z) (avg_time std_dev : spec_float) : list event :=
  [ Printf (nl ++ "===== Performance Results =====" ++ nl) [];
    Printf ("Matrix size: %d x %d" ++ nl) [ArgInt M; ArgInt N];
    Printf ("Batch count: %d" ++ nl) [ArgInt batch_count];
    Printf ("Warm-up time: %d ms (completed %d iterations)" ++ nl)
           [ArgInt (warmup_time a); ArgInt warmup_count];
    Printf ("Timing iterations: %d" ++ nl) [ArgInt (iterations a)];
    Printf ("Average execution time: %.3f ms" ++ nl) [ArgFloat avg_time];
    Printf ("Standard deviation: %.3f ms" ++ nl) [ArgFloat std_dev];
    Printf ("==============================" ++ nl ++ nl) [] ].

Definition dgeqrf_defaults : cli :=
  {| size := 0; rows := 10; cols := 10; lda := 10; stride := None; batch_count := 2;
     random_seed := 42; iterations := 10; warmup_time := 1000;
     tolerance := Float.zero; max_sweeps := 0; left_svect := ""; right_svect := "" |}.

Module bench_rocsolver_dgeqrf_strided_batched.

Definition defaults : cli := dgeqrf_defaults.

(** lines 14-36 *)
Definition create_example_matrices {G : Type} (w : world G)
    (M_out N_out lda_out strideA_out batch_count_out random_seed : Z)
    : option (gmap Z spec_float) :=
  let hA := Gen.malloc (stale w 0)
              (size_mul (size_mul sizeof_double strideA_out) batch_count_out / sizeof_double) in
  let gen := mt19937 w random_seed in
  Gen.run (Gen.fill_general (dis_double w) (Gen.index_int64 lda_out strideA_out)
                            M_out N_out batch_count_out) gen hA.

(** lines 153-163 and 170-185 *)
Definition action : nat -> list event :=
  rocsolver_batch "rocsolver_dgeqrf_strided_batched".

Definition main {G : Type} (w : world G) (a : cli) (fuel : nat) : result :=
  let sh := RocsolverSizes.strided_shape a in
  match create_example_matrices w (sh_M sh) (sh_N sh) (sh_lda sh)
          (sh_strideA sh) (sh_batch_count sh) (random_seed a) with
  | None => Crash
  | Some hA =>
      run_benchmark action action
                    (warmup_clock w) (timer w) (warmup_time a) (iterations a)
                    (dgeqrf_report a (sh_M sh) (sh_N sh) (sh_batch_count sh))
                    fuel
  end.

End bench_rocsolver_dgeqrf_strided_batched.

Module bench_rocsolver_dgeqrf_batched.

Definition defaults : cli := dgeqrf_defaults.

(** lines 14-38: [hA[b]] is allocation [b] *)
Definition create_example_matrices {G : Type} (w : world G)
    (M_out N_out lda_out batch_count_out random_seed : Z)
    : option (gmap (Z * Z) spec_float) :=
  let hA := Gen.malloc_each (stale w) batch_count_out
              (size_mul (size_mul sizeof_double lda_out) N_out / sizeof_double) in
  let gen := mt19937 w random_seed in
  Gen.run (Gen.fill_general (dis_double w) (Gen.index_batched lda_out)
                            M_out N_out batch_count_out) gen hA.

(** lines 152-162 and 169-184 *)
Definition action : nat -> list event :=
  rocsolver_batch "rocsolver_dgeqrf_batched".

Definition main {G : Type} (w : world G) (a : cli) (fuel : nat) : result :=
  let sh := RocsolverSizes.batched_shape a in
  match create_example_matrices w (sh_M sh) (sh_N sh) (sh_lda sh)
          (sh_batch_count sh) (random_seed a) with
  | None => Crash
  | Some hA =>
      run_benchmark action action
                    (warmup_clock w) (timer w) (warmup_time a) (iterations a)
                    (dgeqrf_report a (sh_M sh) (sh_N sh) (sh_batch_count sh))
                    fuel
  end.

End bench_rocsolver_dgeqrf_batched.

(** The programs by name. *)
Inductive program : Type :=
  | openblas_ssyev
  | openblas_sgesvdj_strided_batched
  | rocsolver_sgesvdj_strided_batched
  | rocsolver_ssyevj_strided_batched
  | rocsolver_dgeqrf_strided_batched
  | rocsolver_dgeqrf_batched.

Definition main_of {G : Type} (p : program) : world G -> cli -> nat -> result :=
  match p with
  | openblas_ssyev => bench_openblas_ssyev.main
  | openblas_sgesvdj_strided_batched => bench_openblas_sgesvdj_strided_batched.main
  | rocsolver_sgesvdj_strided_batched => bench_rocsolver_sgesvdj_strided_batched.main
  | rocsolver_ssyevj_strided_batched => bench_rocsolver_ssyevj_strided_batched.main
  | rocsolver_dgeqrf_strided_batched => bench_rocsolver_dgeqrf_strided_batched.main
  | rocsolver_dgeqrf_batched => bench_rocsolver_dgeqrf_batched.main
  end.

(** The parts of each [main] that differ from program to program. *)
Definition warmup_action_of {G : Type} (p : program) (w : world G) (a : cli)
    : nat -> list event :=
  match p with
  | openblas_ssyev => bench_openblas_ssyev.warmup_action w (batch_count a)
  | openblas_sgesvdj_strided_batched =>
      bench_openblas_sgesvdj_strided_batched.action w WarmUp (batch_count a)
  | rocsolver_sgesvdj_strided_batched => bench_rocsolver_sgesvdj_strided_batched.action
  | rocsolver_ssyevj_strided_batched => bench_rocsolver_ssyevj_strided_batched.action
  | rocsolver_dgeqrf_strided_batched => bench_rocsolver_dgeqrf_strided_batched.action
  | rocsolver_dgeqrf_batched => bench_rocsolver_dgeqrf_batched.action
  end.

Definition timed_action_of {G : Type} (p : program) (w : world G) (a : cli)
    : nat -> list event :=
  match p with
  | openblas_ssyev => bench_openblas_ssyev.timed_action w (batch_count a)
  | openblas_sgesvdj_strided_batched =>
      bench_openblas_sgesvdj_strided_batched.action w Timed (batch_count a)
  | rocsolver_sgesvdj_strided_batched => bench_rocsolver_sgesvdj_strided_batched.action
  | rocsolver_ssyevj_strided_batched => bench_rocsolver_ssyevj_strided_batched.action
  | rocsolver_dgeqrf_strided_batched => bench_rocsolver_dgeqrf_strided_batched.action
  | rocsolver_dgeqrf_batched => bench_rocsolver_dgeqrf_batched.action
  end.

Definition report_of (p : program) (a : cli)
    : Z -> spec_float -> spec_float -> list event :=
  match p with
  | openblas_ssyev =>
      bench_openblas_ssyev.report (size a) (batch_count a) (warmup_time a) (iterations a)
  | openblas_sgesvdj_strided_batched =>
      bench_openblas_sgesvdj_strided_batched.report a (rows a) (cols a) (batch_count a)
  | rocsolver_sgesvdj_strided_batched =>
      bench_rocsolver_sgesvdj_strided_batched.report a (rows a) (cols a) (batch_count a)
  | rocsolver_ssyevj_strided_batched =>
      bench_rocsolver_ssyevj_strided_batched.report a (size a) (batch_count a)
  | rocsolver_dgeqrf_strided_batched | rocsolver_dgeqrf_batched =>
      dgeqrf_report a (rows a) (cols a) (batch_count a)
  end.

(** library calls made before the warm-up *)
Definition setup_of (p : program) : list event :=
  match p with
  | openblas_ssyev => bench_openblas_ssyev.workspace_query
  | _ => []
  end.

(** the course of program [p] once its input matrices exist *)
Definition benchmark_of {G : Type} (p : program) (w : world G) (a : cli) (fuel : nat)
    : result :=
  preceded_by (setup_of p)
    (run_benchmark (warmup_action_of p w a) (timed_action_of p w a)
                   (warmup_clock w) (timer w) (warmup_time a) (iterations a)
                   (report_of p a) fuel).

(** ** Worlds to run the programs in *)

(** A linear congruential engine stands in for the Mersenne twister; the
    warm-up clock advances by one millisecond per repetition and every timed
    iteration takes a quarter of a millisecond.  The library succeeds on
    every matrix in [sample_world] and fails with status 7 on every matrix
    in [failing_world]. *)
Definition lcg (g : Z) : Z := (1103515245 * g + 12345) mod 2 ^ 31.

Definition quarter : spec_float := S754_finite false 8388608 (-25).

Definition sample_world : world Z :=
  {| mt19937 := fun seed => seed mod 2 ^ 32;
     dis_float := fun g => (Float.of_Z (g mod 21 - 10), lcg g);
     dis_double := fun g => (binary_normalize Float.prec64 Float.emax64 (g mod 201 - 100) 0 false,
                             lcg g);
     stale := fun _ _ => S754_nan;
     warmup_clock := fun k => Float.of_Z (Z.of_nat k);
     timer := fun _ => quarter;
     info := fun _ _ _ => 0;
     fmt_float := fun _ _ => "#"%string |}.

Definition with_info {G : Type} (w : world G) (i : phase -> nat -> Z -> Z) : world G :=
  {| mt19937 := mt19937 w; dis_float := dis_float w; dis_double := dis_double w;
     stale := stale w; warmup_clock := warmup_clock w; timer := timer w;
     info := i; fmt_float := fmt_float w |}.

Definition with_stale {G : Type} (w : world G) (st : Z -> Z -> spec_float) : world G :=
  {| mt19937 := mt19937 w; dis_float := dis_float w; dis_double := dis_double w;
     stale := st; warmup_clock := warmup_clock w; timer := timer w;
     info := info w; fmt_float := fmt_float w |}.

Definition failing_world : world Z := with_info sample_world (fun _ _ _ => 7).

(** The shape each program derives from its command line. *)
Definition shape_of (p : program) (a : cli) : shape :=
  match p with
  | openblas_ssyev => OpenblasSizes.ssyev_shape a
  | openblas_sgesvdj_strided_batched => OpenblasSizes.sgesvd_shape a
  | rocsolver_sgesvdj_strided_batched => RocsolverSizes.strided_shape a
  | rocsolver_ssyevj_strided_batched => RocsolverSizes.ssyevj_shape a
  | rocsolver_dgeqrf_strided_batched => RocsolverSizes.strided_shape a
  | rocsolver_dgeqrf_batched => RocsolverSizes.batched_shape a
  end.

(** The strided-batched convention: one buffer and a stride.  The remaining
    program passes an array of pointers. *)
Definition strided (p : program) : bool :=
  match p with
  | rocsolver_dgeqrf_batched => false
  | _ => true
  end.

(* ===================================================================== *)
(** * Inside the loops of the CPU programs and on the device *)
(* ===================================================================== *)

(** ** Pointers into the buffers *)

(** The batch loops of the CPU programs hand the library, for matrix [b],
    the pointers [buffer + b * stride]: [b] is a [lapack_int], the stride a
    [size_t].  The definitions give the offsets in elements. *)
Module BatchLoop.

(** bench_openblas_ssyev.cpp, lines 115-116 *)
Definition strideW (a : cli) : Z := to_size_t (size a).
Definition size_W (a : cli) : Z := size_mul (strideW a) (batch_count a).

(** lines 156-157 and 207-208 *)
Definition A_batch (sh : shape) (b : Z) : Z := size_mul b (sh_strideA sh).
Definition W_batch (a : cli) (b : Z) : Z := size_mul b (strideW a).

(** bench_openblas_sgesvdj_strided_batched.cpp, lines 190-193 and 240-243 *)
Definition S_batch (sv : svd_shape) (b : Z) : Z := size_mul b (strideS sv).
Definition U_batch (sv : svd_shape) (b : Z) : Z := size_mul b (strideU sv).
Definition VT_batch (sv : svd_shape) (b : Z) : Z := size_mul b (strideV sv).

End BatchLoop.

(** ** The buffer the library works on *)

(** The library overwrites the matrices it is given.  [solve] stands for
    what the calls of one repetition make of the buffer.  A repetition
    hands the library the buffer as the previous repetition left it, unless
    the program first copies the generated matrices [hA] over it. *)
Module Buffers.

Record working (B : Type) : Type := Working {
  contents : B;          (* hA_copy on the CPU, dA (or the A[b]) on the GPU *)
  given : list B         (* what the library was given, repetition by repetition *)
}.
Arguments Working {B} contents given.
Arguments contents {B} _.
Arguments given {B} _.

(** [memcpy(hA_copy, hA, sizeof(float) * size_A)] at the head of a
    repetition: bench_openblas_ssyev.cpp lines 146 and 194,
    bench_openblas_sgesvdj_strided_batched.cpp lines 186 and 233;
    [hipMemcpy(dA, hA, ...)] at the head of a timed iteration:
    bench_rocsolver_sgesvdj_strided_batched.cpp line 232 *)
Definition copies_input (p : program) (ph : phase) : bool :=
  match p, ph with
  | openblas_ssyev, _ | openblas_sgesvdj_strided_batched, _ => true
  | rocsolver_sgesvdj_strided_batched, Timed => true
  | _, _ => false
  end.

Definition repetition {B : Type} (solve : B -> B) (p : program) (ph : phase) (hA : B)
    (s : working B) : working B :=
  let input := if copies_input p ph then hA else contents s in
  Working (solve input) (given s ++ [input]).

(** Before the loops the GPU programs copy [hA] to the device; on the CPU
    [hA_copy] is as [malloc] left it. *)
Definition before_loops {B : Type} (p : program) (hA junk : B) : working B :=
  match p with
  | openblas_ssyev | openblas_sgesvdj_strided_batched => Working junk []
  | _ => Working hA []
  end.

(** [n] warm-up repetitions, then the timed iterations *)
Definition loops {B : Type} (solve : B -> B) (p : program) (hA junk : B)
    (n : nat) (iterations : Z) : working B :=
  let warm := Nat.iter n (repetition solve p WarmUp hA) (before_loops p hA junk) in
  fold_left (fun s (_ : nat) => repetition solve p Timed hA s)
            (seq 0 (Z.to_nat iterations)) warm.

End Buffers.

(** ** Allocations, handles and events *)

(** What a program acquires ([malloc], [hipMalloc], [rocblas_create_handle],
    [hipEventCreate]) and releases ([free], [hipFree],
    [rocblas_destroy_handle], [hipEventDestroy]), in the order of the
    source.  A resource is named by the variable that holds it, with the
    index [b] for the elements of an array of allocations.  Releasing what
    is not held, or acquiring into a variable that still holds a resource,
    is an error. *)
Module Resources.

Definition resource : Type := string * option Z.

Inductive op : Type :=
  | Acquire (r : resource)
  | Release (r : resource).

Definition one (name : string) : resource := (name, None).

Definition step (held : option (gset resource)) (o : op) : option (gset resource) :=
  match held with
  | None => None
  | Some l =>
      match o with
      | Acquire r => if decide (r ∈ l) then None else Some ({[ r ]} ∪ l)
      | Release r => if decide (r ∈ l) then Some (l ∖ {[ r ]}) else None
      end
  end.

(** what is held after a list of operations, from nothing *)
Definition after (ops : list op) : option (gset resource) :=
  fold_left step ops (Some ∅).

Definition acquire (rs : list resource) : list op := map Acquire rs.
Definition release (rs : list resource) : list op := map Release rs.

Definition ones (names : list string) : list resource := map one names.




End Resources.

(* ===================================================================== *)
(** * Notions used to state the properties *)
(* ===================================================================== *)

(** ** Shapes *)

(** A command line is well dimensioned for a program when the batch count
    and an explicit stride are not negative and the default stride
    [lda * N] is a non-negative [int]. *)
Definition well_dimensioned (p : program) (a : cli) : Prop :=
  0 <= batch_count a /\
  (forall s, stride a = Some s -> 0 <= s) /\
  0 <= sh_lda (shape_of p a) * sh_N (shape_of p a) <= INT_MAX.

Definition svd_shape_cpu := OpenblasSizes.sgesvd_svd_shape.
Definition svd_shape_gpu := RocsolverSizes.sgesvdj_svd_shape.

(** element (i, j) of batch member b, in exact arithmetic *)
Definition flat (lda strideA i j b : Z) : Z := i + j * lda + b * strideA.

(** A layout of [batch_count] column-major M x N matrices with leading
    dimension [lda], [strideA] apart, of elements of [elem] bytes: the
    leading dimension is at least M, a matrix ends before the next one
    starts, and the sizes stay within the integer types. *)
Definition layout (elem M N lda strideA batch_count : Z) : Prop :=
  0 <= M <= lda /\ 0 <= N /\ lda * N <= INT_MAX /\
  0 <= strideA /\ (N - 1) * lda + M <= strideA /\
  0 <= batch_count <= INT_MAX /\
  elem * strideA * batch_count < 2 ^ 63.

(** ** Statistics *)

(** The statistics in the words of the specification: the arithmetic mean,
    and the population standard deviation (squared deviations summed and
    divided by the number of samples). *)
Definition sum_of (xs : list spec_float) : spec_float :=
  fold_left Float.add xs Float.zero.

Definition sample_count (ts : list spec_float) : spec_float :=
  Float.of_Z (Z.of_nat (length ts)).

Definition arithmetic_mean (ts : list spec_float) : spec_float :=
  Float.div (sum_of ts) (sample_count ts).

Definition squared_deviation (mean t : spec_float) : spec_float :=
  Float.mul (Float.sub t mean) (Float.sub t mean).

Definition population_std_dev (ts : list spec_float) : spec_float :=
  Float.sqrt (Float.div (sum_of (map (squared_deviation (arithmetic_mean ts)) ts))
                        (sample_count ts)).

(** the other convention, dividing by N - 1 *)
Definition sample_std_dev (ts : list spec_float) : spec_float :=
  Float.sqrt (Float.div (sum_of (map (squared_deviation (arithmetic_mean ts)) ts))
                        (Float.of_Z (Z.of_nat (length ts) - 1))).

(** [x] is the binary32 number nearest to the square root of [p / q]: the
    rational lies strictly between the squares of the two midpoints around
    [x = m * 2^e], for [e < 0]. *)
Definition nearest_to_sqrt (p q : Z) (x : spec_float) : Prop :=
  match x with
  | S754_finite false m e =>
      e < 0 /\ valid_binary Float.prec32 Float.emax32 x = true /\
      q * (2 * Zpos m - 1) ^ 2 < p * 2 ^ (2 * (1 - e)) < q * (2 * Zpos m + 1) ^ 2
  | _ => False
  end.

(** a rounded result carries the sign it was given *)
Definition has_sign (s : bool) (x : spec_float) : Prop :=
  match x with
  | S754_zero s' | S754_infinity s' | S754_finite s' _ _ => s' = s
  | S754_nan => False
  end.

(** ** Traces *)

(** the warm-up state after [n] repetitions *)
Definition warmup_after (action : nat -> list event) (clock : nat -> spec_float)
    (n : nat) : warmup_state :=
  Nat.iter n (warmup_step action clock) warmup_init.

Definition count_calls (out : list event) : nat := length (List.filter is_call out).

(** library calls made by one repetition: one per matrix on the CPU, one
    for the whole batch on the GPU *)
Definition calls_per_repetition (p : program) (a : cli) : nat :=
  match p with
  | openblas_ssyev | openblas_sgesvdj_strided_batched => Z.to_nat (batch_count a)
  | _ => 1%nat
  end.

(** what a trace prints *)
Definition printed (out : list event) : list event :=
  List.filter (fun e => negb (is_call e)) out.

(** one message per matrix whose status is not zero, with its batch index
    and the status *)
Definition failure_reports {G : Type} (w : world G) (ph : phase) (failed : string)
    (batch_count : Z) (k : nat) : list event :=
  b ← seqZ 0 batch_count;
  if info w ph k b =? 0 then [] else [Printf failed [ArgInt b; ArgInt (info w ph k b)]].

(** What the loops print about statuses, program by program. *)
Definition warmup_reports {G : Type} (p : program) (w : world G) (a : cli) (k : nat)
    : list event :=
  match p with
  | openblas_ssyev =>
      failure_reports w WarmUp bench_openblas_ssyev.failed (batch_count a) k
  | openblas_sgesvdj_strided_batched =>
      failure_reports w WarmUp bench_openblas_sgesvdj_strided_batched.failed (batch_count a) k
  | _ => []
  end.

Definition timed_reports {G : Type} (p : program) (w : world G) (a : cli) (k : nat)
    : list event :=
  match p with
  | openblas_sgesvdj_strided_batched =>
      failure_reports w Timed bench_openblas_sgesvdj_strided_batched.failed (batch_count a) k
  | _ => []
  end.

Definition mentions_int (z : Z) (e : event) : bool :=
  match e with
  | Printf _ args =>
      existsb (fun x => match x with ArgInt z' => z' =? z | _ => false end) args
  | Call _ => false
  end.

Definition is_exit (r : result) : bool :=
  match r with Exit _ _ => true | _ => false end.

Definition is_average (e : event) : bool :=
  match e with
  | Printf fmt _ => String.prefix "Average execution time" fmt
  | Call _ => false
  end.

(** ** Command lines of the examples *)

Definition gpu_svd_args : cli :=
  {| size := 0; rows := 10; cols := 8; lda := 10; stride := None; batch_count := 2;
     random_seed := 42; iterations := 1; warmup_time := 1;
     tolerance := tolerance_default; max_sweeps := 100;
     left_svect := "all"; right_svect := "all" |}.

(** size 4 (4 rows, 4 columns), one matrix, one iteration, no warm-up time,
    seed 42; the leading dimension keeps its default *)
Definition scenario : cli :=
  {| size := 4; rows := 4; cols := 4; lda := 10; stride := None; batch_count := 1;
     random_seed := 42; iterations := 1; warmup_time := 0;
     tolerance := Float.zero; max_sweeps := 0; left_svect := ""; right_svect := "" |}.

Definition zero_iterations : cli :=
  {| size := 4; rows := 4; cols := 4; lda := 10; stride := None; batch_count := 1;
     random_seed := 42; iterations := 0; warmup_time := 0;
     tolerance := Float.zero; max_sweeps := 0; left_svect := ""; right_svect := "" |}.

(** ** Runs of a generator *)

(** One run, total correctness: from a state in [P] the computation
    returns, in a state in [Q]. *)
Definition triple {G L F : Type} `{Countable L} {A : Type}
    (P : Gen.gstate G L F -> Prop) (m : Gen.Gen G L F A)
    (Q : A -> Gen.gstate G L F -> Prop) : Prop :=
  forall s, P s -> exists a s', m s = Some (a, s') /\ Q a s'.

(** Two states with the same engine, the same allocated cells and the same
    contents on [W]. *)
Definition agree_on {G L F : Type} `{Countable L}
    (W : L -> Prop) (s1 s2 : Gen.gstate G L F) : Prop :=
  Gen.engine s1 = Gen.engine s2 /\
  (forall l, is_Some (Gen.mem s1 !! l) <-> is_Some (Gen.mem s2 !! l)) /\
  (forall l, W l -> Gen.mem s1 !! l = Gen.mem s2 !! l).

(** Two runs: from states that agree on [W], both fail or both succeed,
    with the same result and in states that agree on [W] and on [S]. *)
Definition adds {G L F : Type} `{Countable L} {A : Type}
    (m : Gen.Gen G L F A) (S : L -> Prop) : Prop :=
  forall (W : L -> Prop) s1 s2,
    agree_on W s1 s2 ->
    match m s1, m s2 with
    | Some (a1, s1'), Some (a2, s2') =>
        a1 = a2 /\ agree_on (fun l => W l \/ S l) s1' s2'
    | None, None => True
    | _, _ => False
    end.

Definition same_cells {L F : Type} `{Countable L} (m1 m2 : gmap L F) : Prop :=
  forall l, is_Some (m1 !! l) <-> is_Some (m2 !! l).

(** the cells of the M x N matrices of a batch *)
Definition element {L : Type} (index : Z -> Z -> Z -> L)
    (M N batch_count : Z) (l : L) : Prop :=
  exists i j b, 0 <= i < M /\ 0 <= j < N /\ 0 <= b < batch_count /\ l = index i j b.

(** every such cell has been allocated *)
Definition allocated {L F : Type} `{Countable L} (index : Z -> Z -> Z -> L)
    (M N batch_count : Z) (m : gmap L F) : Prop :=
  forall i j b, 0 <= i < M -> 0 <= j < N -> 0 <= b < batch_count ->
                is_Some (m !! index i j b).

(** same cells allocated, and untouched outside the matrices *)
Definition framed {L F : Type} `{Countable L} (index : Z -> Z -> Z -> L)
    (M N batch_count : Z) (m0 m : gmap L F) : Prop :=
  (forall l, is_Some (m !! l) <-> is_Some (m0 !! l)) /\
  (forall l, ~ element index M N batch_count l -> m !! l = m0 !! l).

(** no two elements share a cell *)
Definition one_cell_each {L : Type} (index : Z -> Z -> Z -> L) (N bc : Z) : Prop :=
  forall i j b i' j' b',
    0 <= i < N -> 0 <= j < N -> 0 <= b < bc ->
    0 <= i' < N -> 0 <= j' < N -> 0 <= b' < bc ->
    index i j b = index i' j' b' -> i = i' /\ j = j' /\ b = b'.

Definition symmetric {L F : Type} `{Countable L} (index : Z -> Z -> Z -> L)
    (N bc : Z) (m : gmap L F) : Prop :=
  forall i j b, 0 <= i < N -> 0 <= j < N -> 0 <= b < bc ->
                is_Some (m !! index i j b) /\ m !! index i j b = m !! index j i b.

(** ** What a generator returns *)

(** What a generator leaves in a strided buffer: it returns; cells that are
    no element (i, j, b) with i < M and j < N hold what [malloc] left
    there, in particular rows M .. lda-1 of every column and the cells from
    lda * N up to the stride of every batch slot; the buffer has its
    strideA * batch_count cells. *)
Definition frame_strided (stale : Z -> spec_float) (M N lda strideA batch_count : Z)
    (r : option (gmap Z spec_float)) : Prop :=
  exists hA, r = Some hA /\
    (forall p,
       (forall i j b, 0 <= i < M -> 0 <= j < N -> 0 <= b < batch_count ->
                      p <> flat lda strideA i j b) ->
       hA !! p = Gen.malloc stale (strideA * batch_count) !! p) /\
    (forall i j b, M <= i < lda -> 0 <= j < N -> 0 <= b < batch_count ->
       hA !! flat lda strideA i j b = Some (stale (flat lda strideA i j b))) /\
    (forall t b, lda * N <= t < strideA -> 0 <= b < batch_count ->
       hA !! (t + b * strideA) = Some (stale (t + b * strideA))) /\
    (forall p, is_Some (hA !! p) <-> 0 <= p < strideA * batch_count).

(** The same for an array of separately allocated matrices. *)
Definition frame_batched (stale : Z -> Z -> spec_float) (M N lda batch_count : Z)
    (r : option (gmap (Z * Z) spec_float)) : Prop :=
  exists hA, r = Some hA /\
    (forall b p,
       (forall i j, 0 <= i < M -> 0 <= j < N -> p <> i + j * lda) ->
       hA !! (b, p) = Gen.malloc_each stale batch_count (lda * N) !! (b, p)) /\
    (forall i j b, M <= i < lda -> 0 <= j < N -> 0 <= b < batch_count ->
       hA !! (b, i + j * lda) = Some (stale b (i + j * lda))) /\
    (forall b p, is_Some (hA !! (b, p)) <-> 0 <= b < batch_count /\ 0 <= p < lda * N).

(** element (i, j) mirrors element (j, i) in every batch member *)
Definition mirrored (N lda strideA batch_count : Z) (r : option (gmap Z spec_float)) : Prop :=
  exists hA, r = Some hA /\
    forall b i j, 0 <= b < batch_count -> 0 <= i < N -> 0 <= j < N -> i <> j ->
      exists value,
        hA !! (i + j * lda + b * strideA) = Some value /\
        hA !! (j + i * lda + b * strideA) = Some value.

(** two results of a generator: both undefined, or equal at the location of
    every element (i, j) of every batch member *)
Definition same_elements {L : Type} `{Countable L} (index : Z -> Z -> Z -> L)
    (M N batch_count : Z) (r1 r2 : option (gmap L spec_float)) : Prop :=
  match r1, r2 with
  | Some hA1, Some hA2 =>
      forall i j b, 0 <= i < M -> 0 <= j < N -> 0 <= b < batch_count ->
                    hA1 !! index i j b = hA2 !! index i j b
  | None, None => True
  | _, _ => False
  end.

(** ** Draws of the random engine *)

(** the engine after [n] draws, and the value of draw number [n], counted
    from 0, of a generator that starts from engine state [g] *)
Definition engine_after {G F : Type} (dis : G -> F * G) (g : G) (n : nat) : G :=
  Nat.iter n (fun g' => snd (dis g')) g.

Definition nth_draw {G F : Type} (dis : G -> F * G) (g : G) (n : Z) : F :=
  fst (dis (engine_after dis g (Z.to_nat n))).

(** The general generators draw matrix after matrix, row after row: element
    (i, j) of matrix b takes draw number [b * (M * N) + i * N + j]. *)
Definition draw_of_element (M N i j b : Z) : Z := b * (M * N) + i * N + j.

(** The symmetric generators draw, for row i, the diagonal element and then
    the elements to its right: rows 0 .. i-1 take N, N-1, ..., N-i+1 draws. *)
Definition row_start (N i : Z) : Z := i * N - i * (i - 1) / 2.

(** draw number of the pair (i, j), (j, i) of matrix b; a matrix takes
    [row_start N N] draws *)
Definition draw_of_pair (N i j b : Z) : Z :=
  b * row_start N N + row_start N (Z.min i j) + (Z.max i j - Z.min i j).

(** what a symmetric generator stores at (i, j) of matrix b *)
Definition pair_value {G F : Type} (dis : G -> F * G) (scale : F -> F) (g : G)
    (N i j b : Z) : F :=
  if i =? j then scale (nth_draw dis g (draw_of_pair N i j b))
  else nth_draw dis g (draw_of_pair N i j b).

(** The state of a general fill after [c] draws: the engine has advanced
    [c] times, the allocated cells are those of [m0], and the elements drawn
    so far hold their draws. *)
Definition filled {G L F : Type} `{Countable L}
    (dis : G -> F * G) (index : Z -> Z -> Z -> L) (M N bc : Z)
    (g0 : G) (m0 : gmap L F) (c : Z) (s : Gen.gstate G L F) : Prop :=
  Gen.engine s = engine_after dis g0 (Z.to_nat c) /\
  (forall l, is_Some (Gen.mem s !! l) <-> is_Some (m0 !! l)) /\
  (forall i j b, 0 <= i < M -> 0 <= j < N -> 0 <= b < bc ->
     draw_of_element M N i j b < c ->
     Gen.mem s !! index i j b = Some (nth_draw dis g0 (draw_of_element M N i j b))).

(** The same for a symmetric fill. *)
Definition sfilled {G L F : Type} `{Countable L}
    (dis : G -> F * G) (index : Z -> Z -> Z -> L) (scale : F -> F) (N bc : Z)
    (g0 : G) (m0 : gmap L F) (c : Z) (s : Gen.gstate G L F) : Prop :=
  Gen.engine s = engine_after dis g0 (Z.to_nat c) /\
  (forall l, is_Some (Gen.mem s !! l) <-> is_Some (m0 !! l)) /\
  (forall i j b, 0 <= i < N -> 0 <= j < N -> 0 <= b < bc ->
     draw_of_pair N i j b < c ->
     Gen.mem s !! index i j b = Some (pair_value dis scale g0 N i j b)).

(** A generator returned a buffer whose element (i, j) of matrix b, kept in
    cell [cell i j b], is [value i j b]. *)
Definition holds {L F : Type} `{Countable L} (cell : Z -> Z -> Z -> L)
    (value : Z -> Z -> Z -> F) (M N batch_count : Z) (r : option (gmap L F)) : Prop :=
  exists hA, r = Some hA /\
    forall i j b, 0 <= i < M -> 0 <= j < N -> 0 <= b < batch_count ->
      hA !! cell i j b = Some (value i j b).


(** ** Computations that run out of the allocated memory *)

(** [m] leaves the set of allocated cells as it is *)
Definition keeps_cells {G L F : Type} `{Countable L} {A : Type}
    (m : Gen.Gen G L F A) : Prop :=
  forall s a s', m s = Some (a, s') ->
    forall l, is_Some (Gen.mem s' !! l) <-> is_Some (Gen.mem s !! l).

(** [m] has no defined result in any state whose cells are those of [m0] *)
Definition undefined_on {G L F : Type} `{Countable L} {A : Type}
    (m0 : gmap L F) (m : Gen.Gen G L F A) : Prop :=
  forall s, (forall l, is_Some (Gen.mem s !! l) <-> is_Some (m0 !! l)) -> m s = None.

(** A stride that cannot hold one M x N matrix of leading dimension lda;
    all sizes are within the integer types. *)
Definition cramped (elem M N lda strideA batch_count : Z) : Prop :=
  1 <= M <= lda /\ 1 <= N /\ lda * N <= INT_MAX /\
  0 <= strideA < (N - 1) * lda + M /\
  1 <= batch_count <= INT_MAX /\
  elem * strideA * batch_count < 2 ^ 63.


(** ** Statistics *)

(** a NaN, or a number that is not below zero *)
Definition not_negative (x : spec_float) : bool := Float.is_nan x || Float.nonneg x.

(** ** The output of a whole run *)

(** what a run that makes [n] warm-up repetitions prints, line by line *)
Definition expected_output {G : Type} (p : program) (w : world G) (a : cli)
    (n : nat) : list event :=
  let samples := map (timer w) (seq 0 (Z.to_nat (iterations a))) in
  [Printf ("Performing warm-up for %d ms..." ++ nl) [ArgInt (warmup_time a)]]
  ++ concat (map (warmup_reports p w a) (seq 1 n))
  ++ [Printf ("Completed %d warm-up iterations in %.2f ms" ++ nl)
             [ArgInt (Z.of_nat n); ArgFloat (warmup_clock w n)]]
  ++ concat (map (timed_reports p w a) (seq 0 (Z.to_nat (iterations a))))
  ++ report_of p a (Z.of_nat n) (avg_time samples) (std_dev samples).

(* ===================================================================== *)
(** * Properties *)
(* ===================================================================== *)

Import Gen.

(** ** Machine arithmetic without overflow *)

Lemma wrap_int_id z : is_int z -> wrap_int z = z.
Proof.
  unfold is_int, INT_MIN, INT_MAX, wrap_int. intros Hz.
  rewrite Z.mod_small; lia.
Qed.

Lemma wrap_int64_id z : - 2 ^ 63 <= z < 2 ^ 63 -> wrap_int64 z = z.
Proof. unfold wrap_int64. intros Hz. rewrite Z.mod_small; lia. Qed.

Lemma to_size_t_id z : 0 <= z <= SIZE_MAX -> to_size_t z = z.
Proof. unfold to_size_t, SIZE_MAX. intros Hz. apply Z.mod_small. lia. Qed.

Lemma size_mul_exact a b :
  0 <= a -> 0 <= b -> a * b <= SIZE_MAX -> size_mul a b = a * b.
Proof.
  intros Ha Hb Hab. unfold size_mul.
  destruct (Z.eq_dec a 0) as [->|Hna]; [reflexivity|].
  destruct (Z.eq_dec b 0) as [->|Hnb].
  { change (to_size_t 0) with 0. now rewrite !Z.mul_0_r. }
  assert (Hale : a <= a * b) by nia.
  assert (Hble : b <= a * b) by nia.
  rewrite (to_size_t_id a), (to_size_t_id b) by lia.
  apply to_size_t_id. lia.
Qed.

Lemma size_mul_int a b :
  0 <= a <= INT_MAX -> 0 <= b <= INT_MAX -> size_mul a b = a * b.
Proof.
  unfold INT_MAX. intros Ha Hb. apply size_mul_exact; try lia.
  unfold SIZE_MAX.
  assert (a * b <= (2 ^ 31 - 1) * (2 ^ 31 - 1)) by (apply Z.mul_le_mono_nonneg; lia).
  lia.
Qed.

Lemma clamp_lda_max lda M : clamp_lda lda M = Z.max lda M.
Proof. unfold clamp_lda. destruct (Z.ltb_spec lda M); lia. Qed.

Lemma shape_of_dims p a :
  sh_lda (shape_of p a) = clamp_lda (lda a) (sh_M (shape_of p a)) /\
  sh_batch_count (shape_of p a) = batch_count a.
Proof. destruct p; split; reflexivity. Qed.

Lemma shape_of_strideA p a :
  strided p = true ->
  let sh := shape_of p a in
  (sh_strideA sh = strideA_size_t a (sh_lda sh) (sh_N sh) \/
   sh_strideA sh = strideA_int64 a (sh_lda sh) (sh_N sh)) /\
  sh_size_A sh = size_mul (sh_strideA sh) (batch_count a).
Proof. destruct p; intros Hp; try discriminate Hp; cbn; auto. Qed.


(** C1. After argument handling the leading dimension is at least M: it is
    the larger of the given lda and M.  In the strided programs, when
    --stride is absent strideA is exactly lda * N, and size_A is
    strideA * batch_count.  (Dimensions, stride and batch count are taken
    non-negative and lda * N within int.) *)
Theorem C1_shape_invariants (p : program) (a : cli) :
  cli_ints a ->
  well_dimensioned p a ->
  let sh := shape_of p a in
  sh_M sh <= sh_lda sh /\
  (lda a < sh_M sh -> sh_lda sh = sh_M sh) /\
  (sh_M sh <= lda a -> sh_lda sh = lda a) /\
  (strided p = true ->
     (stride a = None ->
        sh_strideA sh = sh_lda sh * sh_N sh /\ sh_strideA sh >= sh_lda sh * sh_N sh) /\
     sh_size_A sh = sh_strideA sh * sh_batch_count sh).
Proof.
  intros Hints (Hb & Hs & Hprod) sh.
  destruct (shape_of_dims p a) as [Hlda Hbc]. fold sh in Hlda, Hbc, Hprod.
  rewrite clamp_lda_max in Hlda.
  split; [lia|]. split; [lia|]. split; [lia|].
  intros Hp.
  destruct (shape_of_strideA p a Hp) as [Hst Hsz]. fold sh in Hst, Hsz.
  unfold strideA_size_t, strideA_int64, int_mul in Hst.
  split.
  - intros Hnone. rewrite Hnone in Hst.
    rewrite wrap_int_id in Hst by (unfold is_int, INT_MIN; lia).
    rewrite to_size_t_id in Hst by (unfold SIZE_MAX, INT_MAX in *; lia).
    destruct Hst as [-> | ->]; lia.
  - rewrite Hsz, Hbc.
    assert (Hbi : 0 <= batch_count a <= INT_MAX).
    { destruct Hints as (_ & _ & _ & _ & _ & Hbi & _). unfold is_int in Hbi. lia. }
    assert (Hrange : 0 <= sh_strideA sh <= INT_MAX).
    { destruct (stride a) as [s|] eqn:Es.
      - assert (0 <= s <= INT_MAX).
        { destruct Hints as (_ & _ & _ & _ & Hsi & _).
          specialize (Hsi s Es). specialize (Hs s eq_refl).
          unfold is_int in Hsi. lia. }
        rewrite to_size_t_id in Hst by (unfold SIZE_MAX, INT_MAX in *; lia).
        destruct Hst as [-> | ->]; lia.
      - rewrite wrap_int_id in Hst by (unfold is_int, INT_MIN; lia).
        rewrite to_size_t_id in Hst by (unfold SIZE_MAX, INT_MAX in *; lia).
        destruct Hst as [-> | ->]; lia. }
    apply size_mul_int; assumption.
Qed.

Lemma C1_shape_invariants_witness :
  let a := bench_openblas_sgesvdj_strided_batched.defaults in
  let sh := shape_of openblas_sgesvdj_strided_batched a in
  sh_M sh <= sh_lda sh /\
  (lda a < sh_M sh -> sh_lda sh = sh_M sh) /\
  (sh_M sh <= lda a -> sh_lda sh = lda a) /\
  (strided openblas_sgesvdj_strided_batched = true ->
     (stride a = None ->
        sh_strideA sh = sh_lda sh * sh_N sh /\ sh_strideA sh >= sh_lda sh * sh_N sh) /\
     sh_size_A sh = sh_strideA sh * sh_batch_count sh).
Proof.
  apply (C1_shape_invariants openblas_sgesvdj_strided_batched
           bench_openblas_sgesvdj_strided_batched.defaults).
  - unfold cli_ints, is_int, INT_MIN, INT_MAX. simpl.
    repeat split; try lia; intros; discriminate.
  - unfold well_dimensioned, INT_MAX. simpl.
    repeat split; try lia; intros; discriminate.
Defined.

(** The pointer-batched program has no stride: every matrix has its own
    allocation of [lda * N] elements. *)
Lemma batched_size_A (a : cli) :
  let sh := shape_of rocsolver_dgeqrf_batched a in
  0 <= sh_lda sh <= INT_MAX -> 0 <= sh_N sh <= INT_MAX ->
  sh_size_A sh = sh_lda sh * sh_N sh.
Proof. intros sh Hl Hn. apply size_mul_int; assumption. Qed.

(** Outside the well-dimensioned command lines the products are those of
    [size_t]: a batch count of -1 is read as 2^64 - 1. *)
Example size_A_negative_batch_count :
  let a := {| size := 10; rows := 10; cols := 8; lda := 10; stride := None;
              batch_count := -1; random_seed := 42; iterations := 10;
              warmup_time := 1000; tolerance := Float.zero; max_sweeps := 0;
              left_svect := "all"; right_svect := "all" |} in
  sh_size_A (shape_of openblas_sgesvdj_strided_batched a) = 2 ^ 64 - 80.
Proof. vm_compute. reflexivity. Qed.

(** ** Singular-vector modes *)


Lemma size_mul_one_l b : 0 <= b <= INT_MAX -> size_mul 1 b = b.
Proof. intros Hb. rewrite size_mul_int; unfold INT_MAX in *; lia. Qed.

(** C2. In both SVD programs, mode "none" gives leading dimension 1 and a
    buffer of batch_count elements, for the left and for the right vectors;
    mode "all" gives leading dimension M on the left and N on the right. *)
Theorem C2_svect_modes (a : cli) :
  0 <= batch_count a <= INT_MAX ->
  forall sv : svd_shape, sv = svd_shape_cpu a \/ sv = svd_shape_gpu a ->
  (left_svect a = "none"%string -> ldu sv = 1 /\ size_U sv = batch_count a) /\
  (right_svect a = "none"%string -> ldv sv = 1 /\ size_V sv = batch_count a) /\
  (left_svect a = "all"%string -> ldu sv = rows a) /\
  (right_svect a = "all"%string -> ldv sv = cols a).
Proof.
  intros Hb sv Hsv.
  unfold svd_shape_cpu, svd_shape_gpu, OpenblasSizes.sgesvd_svd_shape,
    RocsolverSizes.sgesvdj_svd_shape, OpenblasSizes.job_of, RocsolverSizes.svect_of in Hsv.
  destruct Hsv as [-> | ->]; cbn [ldu ldv size_U size_V];
    (split; [|split; [|split]]); intros ->; cbn; auto using size_mul_one_l.
Qed.

Lemma C2_svect_modes_witness :
  let a := {| size := 0; rows := 10; cols := 8; lda := 10; stride := None;
              batch_count := 2; random_seed := 42; iterations := 10;
              warmup_time := 1000; tolerance := Float.zero; max_sweeps := 0;
              left_svect := "none"; right_svect := "all" |} in
  ldu (svd_shape_gpu a) = 1 /\ size_U (svd_shape_gpu a) = 2 /\ ldv (svd_shape_gpu a) = 8.
Proof.
  intros a.
  assert (Hb : 0 <= batch_count a <= INT_MAX) by (unfold INT_MAX; simpl; lia).
  destruct (C2_svect_modes a Hb (svd_shape_gpu a) (or_intror eq_refl))
    as (Hl & _ & _ & Hr).
  destruct (Hl eq_refl) as [H1 H2].
  split; [exact H1|]. split; [exact H2|]. exact (Hr eq_refl).
Defined.

(** ** Statistics *)








Lemma fold_left_add_map (f : spec_float -> spec_float) (ts : list spec_float) acc :
  fold_left (fun s t => Float.add s (f t)) ts acc = fold_left Float.add (map f ts) acc.
Proof. revert acc. induction ts as [|t ts IH]; intros acc; simpl; [reflexivity|apply IH]. Qed.

Lemma avg_time_mean ts : avg_time ts = arithmetic_mean ts.
Proof. reflexivity. Qed.

Lemma std_dev_population ts : std_dev ts = population_std_dev ts.
Proof.
  unfold std_dev, population_std_dev, size_as_float, sample_count, sum_of.
  rewrite <- fold_left_add_map. reflexivity.
Qed.

(** C6. The reported statistics are the arithmetic mean and the population
    standard deviation (division by N) of the samples.  For [5,5,5] the
    mean is 5 and the deviation 0; for [1,2,3] the mean is 2 and the
    deviation is the float nearest to sqrt(2/3), not the 1 that division by
    N - 1 gives. *)
Theorem C6_statistics :
  (forall ts, avg_time ts = arithmetic_mean ts /\ std_dev ts = population_std_dev ts) /\
  (avg_time [Float.of_Z 5; Float.of_Z 5; Float.of_Z 5] = Float.of_Z 5 /\
   std_dev [Float.of_Z 5; Float.of_Z 5; Float.of_Z 5] = Float.zero) /\
  (avg_time [Float.of_Z 1; Float.of_Z 2; Float.of_Z 3] = Float.of_Z 2 /\
   nearest_to_sqrt 2 3 (std_dev [Float.of_Z 1; Float.of_Z 2; Float.of_Z 3]) /\
   sample_std_dev [Float.of_Z 1; Float.of_Z 2; Float.of_Z 3] = Float.of_Z 1 /\
   std_dev [Float.of_Z 1; Float.of_Z 2; Float.of_Z 3] <> Float.of_Z 1).
Proof.
  split; [|split].
  - intros ts. split; [apply avg_time_mean | apply std_dev_population].
  - split; vm_compute; reflexivity.
  - split; [vm_compute; reflexivity|].
    split; [|split].
    + vm_compute. repeat split; reflexivity.
    + vm_compute. reflexivity.
    + vm_compute. discriminate.
Qed.

(** The root taken in [double] and stored in a [float] is the root taken in
    [float], on the samples above. *)
Example sqrt_via_double :
  Float.sqrt (Float.div (Float.of_Z 2) (Float.of_Z 3))
  = SFsqrt Float.prec32 Float.emax32 (Float.div (Float.of_Z 2) (Float.of_Z 3)).
Proof. vm_compute. reflexivity. Qed.

(** ** The course of a run *)

Lemma preceded_by_nil (r : result) : preceded_by [] r = r.
Proof. destruct r; reflexivity. Qed.

Lemma main_of_cases {G : Type} (p : program) (w : world G) (a : cli) (fuel : nat) :
  main_of p w a fuel = Crash \/ main_of p w a fuel = benchmark_of p w a fuel.
Proof.
  unfold benchmark_of.
  destruct p; cbn [main_of setup_of]; rewrite ?preceded_by_nil;
    unfold bench_openblas_ssyev.main, bench_openblas_sgesvdj_strided_batched.main,
      bench_rocsolver_sgesvdj_strided_batched.main, bench_rocsolver_ssyevj_strided_batched.main,
      bench_rocsolver_dgeqrf_strided_batched.main, bench_rocsolver_dgeqrf_batched.main;
    match goal with
    | |- match ?g with _ => _ end = _ \/ _ => destruct g; [right; reflexivity | left; reflexivity]
    end.
Qed.

Lemma run_benchmark_exit wa ta clock tm wt its report fuel pre code out :
  preceded_by pre (run_benchmark wa ta clock tm wt its report fuel) = Exit code out ->
  code = 0 /\
  exists ws,
    warmup_loop fuel wa clock wt warmup_init = (ws, true) /\
    out = pre
          ++ [Printf ("Performing warm-up for %d ms..." ++ nl) [ArgInt wt]]
          ++ warmup_out ws
          ++ [Printf ("Completed %d warm-up iterations in %.2f ms" ++ nl)
                     [ArgInt (warmup_count ws); ArgFloat (warmup_elapsed ws)]]
          ++ timed_out (timed_loop ta tm its)
          ++ report (warmup_count ws) (avg_time (timings (timed_loop ta tm its)))
                    (std_dev (timings (timed_loop ta tm its))).
Proof.
  unfold run_benchmark.
  destruct (warmup_loop fuel wa clock wt warmup_init) as [ws [|]]; [|discriminate].
  intros [= <- <-]. split; [reflexivity|]. exists ws. split; reflexivity.
Qed.

Lemma report_lines (p : program) (a : cli) (c : Z) (avg sd : spec_float) :
  In (Printf ("Average execution time: %.3f ms" ++ nl) [ArgFloat avg]) (report_of p a c avg sd) /\
  In (Printf ("Standard deviation: %.3f ms" ++ nl) [ArgFloat sd]) (report_of p a c avg sd).
Proof. destruct p; cbn; tauto. Qed.

(** C8. With an iteration count of 0 the sample set is empty; the mean and
    the standard deviation are both obtained by dividing by the sample
    count, which is zero, and nothing guards the division: the quotients are
    NaN and the report is printed with them. *)
Theorem C8_zero_iterations {G : Type} (p : program) (w : world G) (a : cli) (fuel : nat) :
  iterations a = 0 ->
  (forall action, timings (timed_loop action (timer w) (iterations a)) = []) /\
  size_as_float [] = Float.zero /\
  avg_time [] = Float.div Float.zero Float.zero /\
  std_dev [] = Float.sqrt (Float.div Float.zero Float.zero) /\
  avg_time [] = S754_nan /\
  std_dev [] = S754_nan /\
  (forall code out, main_of p w a fuel = Exit code out ->
     code = 0 /\
     In (Printf ("Average execution time: %.3f ms" ++ nl) [ArgFloat S754_nan]) out /\
     In (Printf ("Standard deviation: %.3f ms" ++ nl) [ArgFloat S754_nan]) out).
Proof.
  intros Hit. rewrite Hit.
  split; [reflexivity|]. split; [reflexivity|]. split; [reflexivity|].
  split; [reflexivity|]. split; [reflexivity|]. split; [reflexivity|].
  intros code out Hmain.
  destruct (main_of_cases p w a fuel) as [Hc | Hc]; rewrite Hc in Hmain; [discriminate|].
  unfold benchmark_of in Hmain.
  apply run_benchmark_exit in Hmain as (-> & ws & _ & ->).
  rewrite Hit. cbn [timed_loop Z.to_nat seq fold_left timings timed_out].
  destruct (report_lines p a (warmup_count ws) (avg_time []) (std_dev [])) as [Ha Hs].
  split; [reflexivity|].
  split; rewrite !in_app_iff; auto 10.
Qed.

Lemma C8_zero_iterations_witness :
  exists out,
    main_of openblas_ssyev sample_world zero_iterations 5 = Exit 0 out /\
    In (Printf ("Average execution time: %.3f ms" ++ nl) [ArgFloat S754_nan]) out /\
    In (Printf ("Standard deviation: %.3f ms" ++ nl) [ArgFloat S754_nan]) out.
Proof.
  eexists. split; [vm_compute; reflexivity|].
  destruct (C8_zero_iterations openblas_ssyev sample_world zero_iterations 5 eq_refl)
    as (_ & _ & _ & _ & _ & _ & Hmain).
  refine (proj2 (Hmain 0 _ _)). vm_compute. reflexivity.
Defined.

(** ** The warm-up loop *)

Section WarmupLoop.
Variable action : nat -> list event.
Variable clock : nat -> spec_float.
Variable warmup_time : Z.


Lemma int_add_wrap z : int_add (wrap_int z) 1 = wrap_int (z + 1).
Proof.
  unfold int_add, wrap_int. f_equal.
  replace ((z + 2 ^ 31) mod 2 ^ 32 - 2 ^ 31 + 1 + 2 ^ 31)
    with ((z + 2 ^ 31) mod 2 ^ 32 + 1) by lia.
  rewrite Z.add_mod_idemp_l by lia. f_equal. lia.
Qed.

Lemma wrap_int_nonzero k : 1 <= k < 2 ^ 32 -> wrap_int k <> 0.
Proof.
  intros Hk. unfold wrap_int.
  destruct (Z_lt_le_dec k (2 ^ 31)).
  - rewrite Z.mod_small by lia. lia.
  - replace (k + 2 ^ 31) with (k - 2 ^ 31 + 1 * 2 ^ 32) by lia.
    rewrite Z.mod_add by lia. rewrite Z.mod_small by lia. lia.
Qed.

Lemma warmup_after_fields n :
  repetitions (warmup_after action clock n) = n /\
  warmup_count (warmup_after action clock n) = wrap_int (Z.of_nat n) /\
  warmup_out (warmup_after action clock n) = concat (map action (seq 1 n)) /\
  (n <> O -> warmup_elapsed (warmup_after action clock n) = clock n).
Proof.
  induction n as [|n (Hr & Hc & Ho & He)].
  - repeat split; try reflexivity. intros H; contradiction.
  - unfold warmup_after in *. rewrite Nat.iter_succ.
    remember (Nat.iter n (warmup_step action clock) warmup_init) as s eqn:Es.
    unfold warmup_step. cbn [repetitions warmup_count warmup_out warmup_elapsed].
    rewrite Hr, Hc, Ho. repeat split.
    + rewrite int_add_wrap. f_equal. lia.
    + rewrite seq_S, map_app, concat_app. cbn. rewrite app_nil_r. reflexivity.
Qed.

Lemma warmup_cond_after k :
  1 <= Z.of_nat k < 2 ^ 32 ->
  warmup_cond warmup_time (warmup_after action clock k) = Float.ltb (clock k) (Float.of_Z warmup_time).
Proof.
  intros Hk. destruct (warmup_after_fields k) as (_ & Hc & _ & He).
  unfold warmup_cond. rewrite Hc, He by lia.
  destruct (Z.eqb_spec (wrap_int (Z.of_nat k)) 0) as [E|_].
  - now apply wrap_int_nonzero in E.
  - apply orb_false_r.
Qed.

Lemma warmup_cond_init : warmup_cond warmup_time (warmup_after action clock 0) = true.
Proof. unfold warmup_cond. cbn. apply orb_true_r. Qed.

(** The loop run from the state after [n] repetitions stops at the first
    [m >= n] whose condition is false, if the fuel reaches that far. *)
Lemma warmup_loop_from fuel n :
  exists m,
    (n <= m <= n + fuel)%nat /\
    fst (warmup_loop fuel action clock warmup_time (warmup_after action clock n)) = warmup_after action clock m /\
    (forall k, (n <= k < m)%nat -> warmup_cond warmup_time (warmup_after action clock k) = true) /\
    (snd (warmup_loop fuel action clock warmup_time (warmup_after action clock n)) = true ->
       warmup_cond warmup_time (warmup_after action clock m) = false) /\
    (snd (warmup_loop fuel action clock warmup_time (warmup_after action clock n)) = false ->
       m = (n + fuel)%nat /\ warmup_cond warmup_time (warmup_after action clock m) = true).
Proof.
  revert n. induction fuel as [|fuel IH]; intros n; cbn [warmup_loop].
  - destruct (warmup_cond warmup_time (warmup_after action clock n)) eqn:Ec; exists n; cbn;
      (split; [lia|]); (split; [reflexivity|]); (split; [intros k Hk; lia|]); split;
      try discriminate; intros _; auto.
  - destruct (warmup_cond warmup_time (warmup_after action clock n)) eqn:Ec.
    + change (warmup_step action clock (warmup_after action clock n)) with (warmup_after action clock (S n)).
      destruct (IH (S n)) as (m & Hm & Hfst & Hbefore & Hleft & Hcut).
      exists m. split; [lia|]. split; [exact Hfst|]. split.
      * intros k Hk. destruct (Nat.eq_dec k n) as [->|Hne]; [exact Ec|].
        apply Hbefore. lia.
      * split; [exact Hleft|]. intros Hf. destruct (Hcut Hf) as [-> Hc]. split; [lia|exact Hc].
    + exists n. cbn. split; [lia|]. split; [reflexivity|].
      split; [intros k Hk; lia|]. split; [auto|discriminate].
Qed.

(** Whether and when the loop is left depends on the clock alone. *)
Lemma warmup_loop_first fuel m :
  (1 <= m <= fuel)%nat -> Z.of_nat m < 2 ^ 32 ->
  Float.ltb (clock m) (Float.of_Z warmup_time) = false ->
  (forall k, (1 <= k < m)%nat -> Float.ltb (clock k) (Float.of_Z warmup_time) = true) ->
  warmup_loop fuel action clock warmup_time warmup_init = (warmup_after action clock m, true).
Proof.
  intros Hm Hm32 Hstop Hbefore.
  destruct (warmup_loop_from fuel 0) as (m' & Hm' & Hfst & Hcond & Hleft & Hcut).
  change (warmup_after action clock 0) with warmup_init in *.
  destruct (warmup_loop fuel action clock warmup_time warmup_init) as [ws flag].
  cbn [fst snd] in *. subst ws.
  assert (Hnot : ~ (m < m')%nat).
  { intros Hlt. specialize (Hcond m ltac:(lia)).
    rewrite warmup_cond_after in Hcond by lia. congruence. }
  assert (Hstays : forall k, (k < m)%nat -> warmup_cond warmup_time (warmup_after action clock k) = true).
  { intros k Hk. destruct k as [|k]; [apply warmup_cond_init|].
    rewrite warmup_cond_after by lia. apply Hbefore. lia. }
  destruct flag.
  - specialize (Hleft eq_refl).
    destruct (Nat.lt_ge_cases m' m) as [Hlt|Hge].
    + rewrite Hstays in Hleft by exact Hlt. discriminate.
    + replace m' with m by lia. reflexivity.
  - destruct (Hcut eq_refl) as [Hfuel Hc].
    assert (m' = m) by lia. subst m'.
    rewrite warmup_cond_after in Hc by lia. congruence.
Qed.

End WarmupLoop.

(** ** Signs and order of floating-point results *)

Section FloatFacts.
Variable prec emax : Z.

Lemma shr_1_nonneg mrs : 0 <= shr_m mrs -> 0 <= shr_m (shr_1 mrs).
Proof.
  destruct mrs as [m r s]. cbn [shr_m]. intros Hm.
  destruct m as [|[p|p|]|p]; cbn; lia.
Qed.

Lemma iter_pos_shr_1_nonneg p mrs :
  0 <= shr_m mrs -> 0 <= shr_m (SpecFloat.iter_pos shr_1 p mrs).
Proof.
  revert mrs. induction p as [p IH|p IH|]; intros mrs Hm; cbn [SpecFloat.iter_pos].
  - apply IH, IH, shr_1_nonneg, Hm.
  - apply IH, IH, Hm.
  - apply shr_1_nonneg, Hm.
Qed.

Lemma shr_fexp_nonneg m e l : 0 <= m -> 0 <= shr_m (fst (shr_fexp prec emax m e l)).
Proof.
  intros Hm. unfold shr_fexp, shr.
  assert (H0 : 0 <= shr_m (shr_record_of_loc m l)) by (destruct l as [|[]]; exact Hm).
  destruct (fexp prec emax (Zdigits2 m + e) - e); cbn [fst]; auto.
  apply iter_pos_shr_1_nonneg, H0.
Qed.

Lemma round_nearest_even_nonneg m l : 0 <= m -> 0 <= round_nearest_even m l.
Proof.
  intros Hm. unfold round_nearest_even.
  destruct l as [|[]]; try lia. destruct (Z.even m); lia.
Qed.


Lemma binary_round_aux_sign s m e l :
  0 <= m -> has_sign s (binary_round_aux prec emax s m e l).
Proof.
  intros Hm. unfold binary_round_aux.
  pose proof (shr_fexp_nonneg m e l Hm) as H1.
  destruct (shr_fexp prec emax m e l) as [mrs' e']. cbn [fst] in H1.
  pose proof (shr_fexp_nonneg _ e' loc_Exact
                (round_nearest_even_nonneg _ (loc_of_shr_record mrs') H1)) as H2.
  destruct (shr_fexp prec emax (round_nearest_even (shr_m mrs') (loc_of_shr_record mrs'))
              e' loc_Exact) as [mrs'' e'']. cbn [fst] in H2.
  destruct (shr_m mrs'') as [|q|q]; cbn; try reflexivity; [|lia].
  destruct (e'' <=? emax - prec); reflexivity.
Qed.

Lemma binary_normalize_not_nan m e sz :
  Float.is_nan (binary_normalize prec emax m e sz) = false.
Proof.
  unfold binary_normalize, binary_round.
  destruct m as [|p|p]; [reflexivity| |];
    destruct (shl_align _ _ _) as [mz ez];
    match goal with
    | |- Float.is_nan (binary_round_aux _ _ ?s ?m ?e ?l) = false =>
        pose proof (binary_round_aux_sign s m e l ltac:(lia)) as Hs;
        destruct (binary_round_aux prec emax s m e l); [reflexivity..|contradiction|reflexivity]
    end.
Qed.

Lemma SFdiv_core_binary_nonneg m1 e1 m2 e2 :
  0 <= fst (fst (SFdiv_core_binary prec emax (Zpos m1) e1 (Zpos m2) e2)).
Proof.
  unfold SFdiv_core_binary.
  set (s := e1 - e2 - _).
  set (m' := match s with Z0 => Zpos m1 | Zpos _ => Z.shiftl (Zpos m1) s | Zneg _ => 0 end).
  assert (Hm' : 0 <= m').
  { subst m'. destruct s; try lia. apply Z.shiftl_nonneg. lia. }
  pose proof (Z.div_pos m' (Zpos m2) Hm' ltac:(lia)) as Hq.
  unfold Z.div in Hq.
  destruct (Z.div_eucl m' (Zpos m2)) as [q r]. exact Hq.
Qed.

(** dividing a non-negative number by a positive finite one *)
Lemma SFdiv_nonneg x my ey :
  Float.nonneg x = true ->
  Float.nonneg (SFdiv prec emax x (S754_finite false my ey)) = true.
Proof.
  intros Hx. destruct x as [s|s| |s m e].
  - reflexivity.
  - destruct s; [discriminate Hx|reflexivity].
  - discriminate Hx.
  - destruct s; [discriminate Hx|].
    cbn [SFdiv xorb].
    pose proof (SFdiv_core_binary_nonneg m e my ey) as Hq.
    destruct (SFdiv_core_binary prec emax (Zpos m) e (Zpos my) ey) as [[mz ez] lz].
    cbn [fst] in Hq.
    pose proof (binary_round_aux_sign false mz ez lz Hq) as Hs.
    destruct (binary_round_aux prec emax false mz ez lz) as [s'|s'| |s' m' e'];
      cbn in Hs; try contradiction; subst; reflexivity.
Qed.

End FloatFacts.

Lemma SFcompare_antisym x y : SFcompare y x = option_map CompOpp (SFcompare x y).
Proof.
  destruct x as [sx|sx| |sx mx ex], y as [sy|sy| |sy my ey]; cbn;
    try reflexivity; try (destruct sx; reflexivity); try (destruct sy; reflexivity);
    try (destruct sx, sy; reflexivity).
  destruct sx, sy; cbn; try reflexivity;
    rewrite (Z.compare_antisym ex ey); destruct (ex ?= ey); cbn; try reflexivity;
    rewrite (Pos.compare_cont_antisym mx my Eq); reflexivity.
Qed.

(** for numbers, "not below" is "at least" *)
Lemma not_ltb_leb x y :
  Float.is_nan x = false -> Float.is_nan y = false ->
  Float.ltb x y = false -> Float.leb y x = true.
Proof.
  unfold Float.ltb, Float.leb, SFltb, SFleb. intros Hx Hy.
  rewrite (SFcompare_antisym x y).
  destruct x, y; try discriminate; cbn;
    repeat match goal with
           | |- context [match ?c with _ => _ end] => destruct c; cbn; try discriminate; auto
           end; auto.
Qed.

Lemma of_Z_not_nan z : Float.is_nan (Float.of_Z z) = false.
Proof. apply binary_normalize_not_nan. Qed.

(** ** Library calls in a trace *)



Lemma count_calls_app l1 l2 : count_calls (l1 ++ l2) = (count_calls l1 + count_calls l2)%nat.
Proof. unfold count_calls. rewrite List.filter_app, length_app. reflexivity. Qed.

Lemma count_calls_concat (f : nat -> list event) (c : nat) (ks : list nat) :
  (forall k, count_calls (f k) = c) ->
  count_calls (concat (map f ks)) = (length ks * c)%nat.
Proof.
  intros Hf. induction ks as [|k ks IH]; [reflexivity|].
  cbn [map concat length]. rewrite count_calls_app, Hf, IH. lia.
Qed.

Lemma count_calls_lapacke_batch {G : Type} (w : world G) ph routine failed rf bc k :
  count_calls (lapacke_batch w ph routine failed rf bc k) = Z.to_nat bc.
Proof.
  unfold lapacke_batch. rewrite <- (length_seqZ 0 bc).
  induction (seqZ 0 bc) as [|b bs IH]; [reflexivity|].
  cbn [mbind list_bind]. rewrite count_calls_app, IH.
  cbn [length]. f_equal.
  destruct (rf && negb (info w ph k b =? 0)); reflexivity.
Qed.

Lemma count_calls_action {G : Type} (p : program) (w : world G) (a : cli) k :
  count_calls (warmup_action_of p w a k) = calls_per_repetition p a /\
  count_calls (timed_action_of p w a k) = calls_per_repetition p a.
Proof.
  destruct p; cbn; split; try reflexivity; apply count_calls_lapacke_batch.
Qed.

(** ** The measurement loop *)

Lemma timed_loop_from action tm (ks : list nat) (s : timed_state) :
  fold_left (timed_step action tm) ks s
  = TimedState (timings s ++ map tm ks) (timed_out s ++ concat (map action ks)).
Proof.
  revert s. induction ks as [|k ks IH]; intros s; cbn [fold_left map concat].
  - rewrite !app_nil_r. destruct s; reflexivity.
  - rewrite IH. unfold timed_step. cbn [timings timed_out].
    rewrite <- !app_assoc. reflexivity.
Qed.

Lemma timed_loop_spec action tm its :
  timed_loop action tm its
  = TimedState (map tm (seq 0 (Z.to_nat its))) (concat (map action (seq 0 (Z.to_nat its)))).
Proof. unfold timed_loop. rewrite timed_loop_from. reflexivity. Qed.

(** C5. In every program the warm-up loop runs its body, the library call
    over the batch, at least once whatever the warm-up time, 0 included.
    It goes on while the elapsed time read after a repetition is below the
    warm-up time, and it is left at the first repetition after which the
    elapsed time is at least the warm-up time.  A run of main that exits
    carries the events of these repetitions and prints their count. *)
Theorem C5_warmup_at_least_once {G : Type}
    (p : program) (w : world G) (a : cli) (fuel : nat) :
  let run := warmup_loop (S fuel) (warmup_action_of p w a) (warmup_clock w)
                         (warmup_time a) warmup_init in
  let ws := fst run in
  let below k := Float.ltb (warmup_clock w k) (Float.of_Z (warmup_time a)) in
  (1 <= repetitions ws)%nat /\
  warmup_out ws = concat (map (warmup_action_of p w a) (seq 1 (repetitions ws))) /\
  count_calls (warmup_out ws) = (repetitions ws * calls_per_repetition p a)%nat /\
  (forall k, (1 <= k < repetitions ws)%nat -> Z.of_nat k < 2 ^ 32 -> below k = true) /\
  (snd run = true ->
     warmup_elapsed ws = warmup_clock w (repetitions ws) /\
     below (repetitions ws) = false /\
     (Float.is_nan (warmup_elapsed ws) = false ->
        Float.leb (Float.of_Z (warmup_time a)) (warmup_elapsed ws) = true)) /\
  (forall m, (1 <= m <= S fuel)%nat -> Z.of_nat m < 2 ^ 32 -> below m = false ->
     snd run = true /\ (repetitions ws <= m)%nat) /\
  (forall code out, main_of p w a (S fuel) = Exit code out ->
     incl (warmup_out ws) out /\
     In (Printf ("Completed %d warm-up iterations in %.2f ms" ++ nl)
                [ArgInt (warmup_count ws); ArgFloat (warmup_elapsed ws)]) out).
Proof.
  intros run ws below.
  assert (Hmain : forall code out, main_of p w a (S fuel) = Exit code out ->
            incl (warmup_out ws) out /\
            In (Printf ("Completed %d warm-up iterations in %.2f ms" ++ nl)
                       [ArgInt (warmup_count ws); ArgFloat (warmup_elapsed ws)]) out).
  { intros code out Hout.
    destruct (main_of_cases p w a (S fuel)) as [Hc | Hc]; rewrite Hc in Hout; [discriminate|].
    unfold benchmark_of in Hout.
    apply run_benchmark_exit in Hout as (_ & ws' & Hws' & ->).
    assert (ws' = ws) as -> by (unfold ws, run; rewrite Hws'; reflexivity).
    split.
    - intros e He. rewrite !in_app_iff. auto.
    - rewrite !in_app_iff. right. right. right. left. left. reflexivity. }
  destruct (warmup_loop_from (warmup_action_of p w a) (warmup_clock w) (warmup_time a)
              (S fuel) 0) as (m & Hm & Hfst & Hcond & Hleft & Hcut).
  change (warmup_after (warmup_action_of p w a) (warmup_clock w) 0) with warmup_init in *.
  fold run in Hfst, Hleft, Hcut. fold ws in Hfst.
  set (after := warmup_after (warmup_action_of p w a) (warmup_clock w)) in *.
  destruct (warmup_after_fields (warmup_action_of p w a) (warmup_clock w) m)
    as (Hr & Hc & Ho & He).
  fold after in Hr, Hc, Ho, He. rewrite <- Hfst in Hr, Hc, Ho, He.
  assert (Hone : (1 <= m)%nat).
  { destruct m as [|m]; [|lia]. exfalso.
    destruct (snd run) eqn:Eflag.
    - specialize (Hleft eq_refl).
      unfold after in Hleft. rewrite warmup_cond_init in Hleft. discriminate.
    - destruct (Hcut eq_refl) as [Hmf _]. lia. }
  assert (Hbelow : forall k, (1 <= k < m)%nat -> Z.of_nat k < 2 ^ 32 -> below k = true).
  { intros k Hk Hk32. specialize (Hcond k ltac:(lia)).
    unfold after in Hcond. rewrite warmup_cond_after in Hcond by lia. exact Hcond. }
  rewrite Hr. split; [exact Hone|]. split; [exact Ho|]. split.
  - rewrite Ho. rewrite (count_calls_concat _ (calls_per_repetition p a)).
    + rewrite length_seq. reflexivity.
    + intros k. apply count_calls_action.
  - split; [exact Hbelow|]. split; [|split; [|exact Hmain]].
    + intros Hflag. specialize (Hleft Hflag). specialize (He ltac:(lia)).
      split; [exact He|].
      unfold warmup_cond in Hleft. apply orb_false_iff in Hleft as [Hlt _].
      rewrite <- Hfst, He in Hlt. split; [exact Hlt|].
      intros Hnan. apply not_ltb_leb; [exact Hnan|apply of_Z_not_nan|].
      rewrite He. exact Hlt.
    + intros k Hk Hk32 Hstop.
      assert (Hle : (m <= k)%nat).
      { destruct (Nat.le_gt_cases m k) as [Hle|Hgt]; [exact Hle|].
        rewrite (Hbelow k ltac:(lia) Hk32) in Hstop. discriminate. }
      split; [|exact Hle].
      destruct (snd run) eqn:Eflag; [reflexivity|].
      destruct (Hcut eq_refl) as [Hmf Hc'].
      assert (k = m) by lia. subst k.
      unfold after in Hc'. rewrite warmup_cond_after in Hc' by lia.
      unfold below in Hstop. congruence.
Qed.

Lemma C5_warmup_at_least_once_witness :
  let a := {| size := 4; rows := 0; cols := 0; lda := 10; stride := None;
              batch_count := 1; random_seed := 42; iterations := 1; warmup_time := 0;
              tolerance := Float.zero; max_sweeps := 0;
              left_svect := ""; right_svect := "" |} in
  let run := warmup_loop 5 (warmup_action_of openblas_ssyev sample_world a)
                         (warmup_clock sample_world) (warmup_time a) warmup_init in
  snd run = true /\ repetitions (fst run) = 1%nat /\ count_calls (warmup_out (fst run)) = 1%nat.
Proof.
  intros a run.
  destruct (C5_warmup_at_least_once openblas_ssyev sample_world a 4)
    as (Hone & _ & Hcalls & _ & _ & Hfirst & _).
  destruct (Hfirst 1%nat ltac:(lia) ltac:(lia) eq_refl) as [Hleft Hle].
  fold run in Hone, Hcalls, Hleft, Hle.
  split; [exact Hleft|].
  assert (Hr : repetitions (fst run) = 1%nat) by lia.
  split; [exact Hr|]. rewrite Hcalls, Hr. reflexivity.
Defined.

(** ** Status codes inside the loops *)





Lemma printed_lapacke_batch {G : Type} (w : world G) ph routine failed rf bc k :
  printed (lapacke_batch w ph routine failed rf bc k)
  = if rf then failure_reports w ph failed bc k else [].
Proof.
  unfold lapacke_batch, failure_reports, printed.
  induction (seqZ 0 bc) as [|b bs IH].
  - destruct rf; reflexivity.
  - cbn [mbind list_bind]. cbn [app List.filter is_call negb].
    rewrite List.filter_app, IH.
    destruct rf; cbn [andb]; destruct (info w ph k b =? 0); reflexivity.
Qed.

Lemma failure_reported {G : Type} (w : world G) ph failed bc k b :
  0 <= b < bc -> info w ph k b <> 0 ->
  In (Printf failed [ArgInt b; ArgInt (info w ph k b)]) (failure_reports w ph failed bc k).
Proof.
  intros Hb Hinfo. unfold failure_reports.
  apply list_elem_of_In, list_elem_of_bind. exists b. split.
  - destruct (Z.eqb_spec (info w ph k b) 0); [contradiction|]. apply list_elem_of_singleton; reflexivity.
  - apply elem_of_seqZ. lia.
Qed.

(** The loop is left after the same repetition whatever the body prints. *)
Lemma warmup_loop_any_action fuel action1 action2 clock wt s1 s2 :
  warmup_elapsed s1 = warmup_elapsed s2 -> warmup_count s1 = warmup_count s2 ->
  repetitions s1 = repetitions s2 ->
  let r1 := warmup_loop fuel action1 clock wt s1 in
  let r2 := warmup_loop fuel action2 clock wt s2 in
  snd r1 = snd r2 /\ repetitions (fst r1) = repetitions (fst r2) /\
  warmup_count (fst r1) = warmup_count (fst r2) /\
  warmup_elapsed (fst r1) = warmup_elapsed (fst r2).
Proof.
  revert s1 s2. induction fuel as [|fuel IH]; intros s1 s2 He Hc Hr; cbn [warmup_loop];
    unfold warmup_cond; rewrite He, Hc;
    destruct (Float.ltb (warmup_elapsed s2) (Float.of_Z wt) || (warmup_count s2 =? 0));
    cbn [fst snd]; auto.
  apply IH; unfold warmup_step; cbn; congruence.
Qed.

Lemma benchmark_of_exit {G : Type} (p : program) (w : world G) (a : cli) (fuel : nat) :
  is_exit (benchmark_of p w a fuel)
  = snd (warmup_loop fuel (warmup_action_of p w a) (warmup_clock w) (warmup_time a) warmup_init).
Proof.
  unfold benchmark_of, run_benchmark.
  destruct (warmup_loop fuel _ _ _ _) as [ws [|]]; reflexivity.
Qed.

Lemma benchmark_of_not_crash {G : Type} (p : program) (w : world G) (a : cli) (fuel : nat) :
  benchmark_of p w a fuel <> Crash.
Proof.
  unfold benchmark_of, run_benchmark.
  destruct (warmup_loop fuel _ _ _ _) as [ws [|]]; discriminate.
Qed.

Lemma main_of_generated {G : Type} (p : program) (w : world G) (a : cli) :
  (forall fuel, main_of p w a fuel = Crash) \/
  (forall i fuel, main_of p (with_info w i) a fuel = benchmark_of p (with_info w i) a fuel).
Proof.
  unfold benchmark_of.
  destruct p; cbn [main_of setup_of]; try setoid_rewrite preceded_by_nil;
    unfold bench_openblas_ssyev.main, bench_openblas_sgesvdj_strided_batched.main,
      bench_rocsolver_sgesvdj_strided_batched.main, bench_rocsolver_ssyevj_strided_batched.main,
      bench_rocsolver_dgeqrf_strided_batched.main, bench_rocsolver_dgeqrf_batched.main;
    match goal with
    | |- (forall fuel, match ?g with _ => _ end = _) \/ _ =>
        destruct g eqn:Eg; [right|left; reflexivity]
    end;
    intros i fuel;
    match goal with
    | |- match ?g' with _ => _ end = _ =>
        replace g' with (Some g) by (symmetry; exact Eg)
    end; reflexivity.
Qed.

Lemma with_info_same {G : Type} (w : world G) : with_info w (info w) = w.
Proof. destruct w; reflexivity. Qed.



(** C7, as amended.  A non-zero status of a matrix is printed, with the
    batch index and the status, by both loops of the CPU SVD program and by
    the warm-up loop of the CPU eigensolver; the timed loop of the CPU
    eigensolver and both loops of the four GPU programs print nothing about
    statuses.  In every program the statuses decide neither whether the run
    ends nor what is measured: the measurement loop makes exactly
    [iterations] repetitions (for iterations >= 0) and records one sample
    for each, and a run that ends returns 0. *)
Theorem C7_status_reports {G : Type} (p : program) (w : world G) (a : cli) :
  (forall k,
     printed (warmup_action_of p w a k) = warmup_reports p w a k /\
     printed (timed_action_of p w a k) = timed_reports p w a k) /\
  (forall ph failed k b,
     0 <= b < batch_count a -> info w ph k b <> 0 ->
     In (Printf failed [ArgInt b; ArgInt (info w ph k b)])
        (failure_reports w ph failed (batch_count a) k)) /\
  (let t := timed_loop (timed_action_of p w a) (timer w) (iterations a) in
   timings t = map (timer w) (seq 0 (Z.to_nat (iterations a))) /\
   (0 <= iterations a -> Z.of_nat (length (timings t)) = iterations a) /\
   count_calls (timed_out t) = (Z.to_nat (iterations a) * calls_per_repetition p a)%nat) /\
  (forall i fuel,
     is_exit (main_of p (with_info w i) a fuel) = is_exit (main_of p w a fuel) /\
     timings (timed_loop (timed_action_of p (with_info w i) a) (timer w) (iterations a))
     = timings (timed_loop (timed_action_of p w a) (timer w) (iterations a))) /\
  (forall fuel code out, main_of p w a fuel = Exit code out -> code = 0).
Proof.
  split; [|split; [|split; [|split]]].
  - intros k. destruct p; cbn; split; try reflexivity;
      unfold bench_openblas_ssyev.warmup_action, bench_openblas_ssyev.timed_action,
        bench_openblas_sgesvdj_strided_batched.action;
      rewrite printed_lapacke_batch; reflexivity.
  - intros ph failed k b Hb Hinfo. apply failure_reported; assumption.
  - cbn zeta. rewrite timed_loop_spec. cbn [timings timed_out].
    split; [reflexivity|]. split.
    + intros Hit. rewrite length_map, length_seq. lia.
    + rewrite (count_calls_concat _ (calls_per_repetition p a)).
      * rewrite length_seq. reflexivity.
      * intros k. apply count_calls_action.
  - intros i fuel. split; [|rewrite !timed_loop_spec; reflexivity].
    destruct (main_of_generated p w a) as [Hcrash | Hrun].
    + rewrite Hcrash.
      destruct (main_of_generated p (with_info w i) a) as [Hcrash' | Hrun'].
      * rewrite Hcrash'. reflexivity.
      * specialize (Hrun' (info w) fuel). cbn in Hrun'.
        replace (with_info (with_info w i) (info w)) with w in Hrun'
          by (destruct w; reflexivity).
        rewrite Hcrash in Hrun'. symmetry in Hrun'.
        now apply benchmark_of_not_crash in Hrun'.
    + rewrite (Hrun i fuel). pose proof (Hrun (info w) fuel) as Hw.
      rewrite with_info_same in Hw. rewrite Hw, !benchmark_of_exit.
      apply (warmup_loop_any_action fuel _ _ (warmup_clock w) (warmup_time a)
               warmup_init warmup_init); reflexivity.
  - intros fuel code out Hmain.
    destruct (main_of_cases p w a fuel) as [Hc | Hc]; rewrite Hc in Hmain; [discriminate|].
    unfold benchmark_of in Hmain. apply run_benchmark_exit in Hmain. tauto.
Qed.


(** C7, as stated, fails on the GPU programs: every matrix of every call
    has status 7 in [failing_world], the run of the GPU SVD program ends,
    and nothing it prints mentions a status. *)
Lemma C7_counterexample :
  info failing_world WarmUp 1 0 <> 0 /\
  info failing_world Timed 0 0 <> 0 /\
  exists out,
    main_of rocsolver_sgesvdj_strided_batched failing_world gpu_svd_args 2 = Exit 0 out /\
    count_calls out = 2%nat /\
    List.filter (mentions_int (info failing_world Timed 0 0)) out = [] /\
    printed (warmup_action_of rocsolver_sgesvdj_strided_batched failing_world gpu_svd_args 1) = [] /\
    printed (timed_action_of rocsolver_sgesvdj_strided_batched failing_world gpu_svd_args 0) = [].
Proof.
  split; [discriminate|]. split; [discriminate|].
  eexists. split; [vm_compute; reflexivity|].
  repeat split; vm_compute; reflexivity.
Qed.

(** ** Reasoning about the generators *)

Section Logic.
Context {G L F : Type} `{Countable L}.
Implicit Types (s : gstate G L F) (l : L).

(** ** One run: total correctness *)


Lemma triple_ret {A : Type} (a : A) (P : gstate G L F -> Prop) :
  triple P (ret a) (fun _ s => P s).
Proof. intros s Hs. exists a, s. split; [reflexivity|exact Hs]. Qed.

Lemma triple_bind {A B : Type} P Q R (m : Gen G L F A) (k : A -> Gen G L F B) :
  triple P m Q -> (forall a, triple (Q a) (k a) R) -> triple P (bind m k) R.
Proof.
  intros Hm Hk s Hs. destruct (Hm s Hs) as (a & s' & Em & Hq).
  destruct (Hk a s' Hq) as (b & s'' & Ek & Hr).
  exists b, s''. split; [|exact Hr]. unfold bind. rewrite Em. exact Ek.
Qed.

Lemma triple_weaken {A : Type} (P P' : gstate G L F -> Prop)
    (Q Q' : A -> gstate G L F -> Prop) (m : Gen G L F A) :
  (forall s, P' s -> P s) -> (forall a s, Q a s -> Q' a s) ->
  triple P m Q -> triple P' m Q'.
Proof.
  intros HP HQ Hm s Hs. destruct (Hm s (HP s Hs)) as (a & s' & Em & Hq).
  exists a, s'. split; [exact Em|apply HQ, Hq].
Qed.

(** a draw leaves the memory alone *)
Lemma triple_draw (dis : G -> F * G) (P : gmap L F -> Prop) :
  triple (fun s => P (mem s)) (draw dis) (fun _ s => P (mem s)).
Proof.
  intros s Hs. unfold draw. destruct (dis (engine s)) as [v g].
  exists v, (GState g (mem s)). split; [reflexivity|exact Hs].
Qed.

Lemma triple_store l v (P Q : gmap L F -> Prop) :
  (forall m, P m -> is_Some (m !! l) /\ Q (<[l := v]> m)) ->
  triple (fun s => P (mem s)) (store l v) (fun _ s => Q (mem s)).
Proof.
  intros HPQ s Hs. destruct (HPQ _ Hs) as [[x Hx] Hq].
  exists tt, (GState (engine s) (<[l := v]> (mem s))).
  split; [|exact Hq]. unfold store. rewrite Hx. reflexivity.
Qed.

Lemma triple_for_each (xs : list Z) (body : Z -> Gen G L F unit)
    (Inv : gstate G L F -> Prop) :
  (forall x, x ∈ xs -> triple Inv (body x) (fun _ => Inv)) ->
  triple Inv (for_each xs body) (fun _ => Inv).
Proof.
  induction xs as [|x xs IH]; intros Hbody; cbn [for_each].
  - apply triple_ret.
  - apply triple_bind with (Q := fun _ => Inv).
    + apply Hbody, list_elem_of_here.
    + intros _. apply IH. intros y Hy. apply Hbody, list_elem_of_further, Hy.
Qed.

Lemma triple_for_int (lo hi : Z) (body : Z -> Gen G L F unit)
    (Inv : gstate G L F -> Prop) :
  (forall x, lo <= x < hi -> triple Inv (body x) (fun _ => Inv)) ->
  triple Inv (for_int lo hi body) (fun _ => Inv).
Proof.
  intros Hbody. apply triple_for_each. intros x Hx.
  apply elem_of_seqZ in Hx. apply Hbody. lia.
Qed.

(** ** Two runs *)



Lemma agree_on_weaken (W W' : L -> Prop) s1 s2 :
  (forall l, W' l -> W l) -> agree_on W s1 s2 -> agree_on W' s1 s2.
Proof. intros HW (He & Hd & Hw). repeat split; auto; apply Hd. Qed.

Lemma adds_weaken {A : Type} (m : Gen G L F A) (S S' : L -> Prop) :
  (forall l, S' l -> S l) -> adds m S -> adds m S'.
Proof.
  intros HS Hm W s1 s2 Hag. specialize (Hm W s1 s2 Hag).
  destruct (m s1) as [[a1 s1']|], (m s2) as [[a2 s2']|]; auto.
  destruct Hm as [Ha Hag']. split; [exact Ha|].
  eapply agree_on_weaken; [|exact Hag']. intros l [Hl|Hl]; auto.
Qed.

Lemma adds_ret {A : Type} (a : A) : adds (ret a : Gen G L F A) (fun _ => False).
Proof.
  intros W s1 s2 Hag. cbn. split; [reflexivity|].
  eapply agree_on_weaken; [|exact Hag]. intros l [Hl|[]]; exact Hl.
Qed.

Lemma adds_draw (dis : G -> F * G) : adds (draw dis : Gen G L F F) (fun _ => False).
Proof.
  intros W s1 s2 (He & Hd & Hw). unfold draw. rewrite He.
  destruct (dis (engine s2)) as [v g]. split; [reflexivity|].
  repeat split; cbn; auto; try apply Hd. intros l [Hl|[]]. apply Hw, Hl.
Qed.

Lemma adds_store l (v : F) : adds (store l v : Gen G L F unit) (fun l' => l' = l).
Proof.
  intros W s1 s2 (He & Hd & Hw). unfold store.
  destruct (mem s1 !! l) as [x1|] eqn:E1, (mem s2 !! l) as [x2|] eqn:E2.
  - split; [reflexivity|]. split; [exact He|]. cbn [mem]. split.
    + intros l'. rewrite !lookup_insert_is_Some. rewrite (Hd l'). tauto.
    + intros l' Hl'. destruct (decide (l = l')) as [->|Hne].
      * rewrite !lookup_insert_eq. reflexivity.
      * rewrite !lookup_insert_ne by exact Hne.
        destruct Hl' as [Hl'|Hl']; [apply Hw, Hl'|congruence].
  - assert (Hs : is_Some (mem s2 !! l)) by (apply Hd; rewrite E1; eauto).
    rewrite E2 in Hs. destruct Hs as [? Hs]. discriminate Hs.
  - assert (Hs : is_Some (mem s1 !! l)) by (apply Hd; rewrite E2; eauto).
    rewrite E1 in Hs. destruct Hs as [? Hs]. discriminate Hs.
  - exact I.
Qed.

Lemma adds_bind {A B : Type} (m : Gen G L F A) (k : A -> Gen G L F B)
    (S1 S2 : L -> Prop) :
  adds m S1 -> (forall a, adds (k a) S2) ->
  adds (bind m k) (fun l => S1 l \/ S2 l).
Proof.
  intros Hm Hk W s1 s2 Hag. unfold bind. specialize (Hm W s1 s2 Hag).
  destruct (m s1) as [[a1 s1']|], (m s2) as [[a2 s2']|]; try contradiction; auto.
  destruct Hm as [<- Hag']. specialize (Hk a1 _ s1' s2' Hag').
  destruct (k a1 s1') as [[b1 s1'']|], (k a1 s2') as [[b2 s2'']|]; auto.
  destruct Hk as [Hb Hag'']. split; [exact Hb|].
  eapply agree_on_weaken; [|exact Hag'']. tauto.
Qed.

Lemma adds_for_each (xs : list Z) (body : Z -> Gen G L F unit)
    (S : Z -> L -> Prop) :
  (forall x, x ∈ xs -> adds (body x) (S x)) ->
  adds (for_each xs body) (fun l => exists x, x ∈ xs /\ S x l).
Proof.
  induction xs as [|x xs IH]; intros Hbody; cbn [for_each].
  - eapply adds_weaken; [|apply adds_ret]. intros l (x & Hx & _). inversion Hx.
  - eapply adds_weaken; [|apply adds_bind with (S1 := S x)
                              (S2 := fun l => exists y, y ∈ xs /\ S y l)].
    + intros l (y & Hy & Hl). apply elem_of_cons in Hy as [->|Hy]; [left; exact Hl|].
      right. exists y. split; assumption.
    + apply Hbody, list_elem_of_here.
    + intros _. apply IH. intros y Hy. apply Hbody, list_elem_of_further, Hy.
Qed.

Lemma adds_for_int (lo hi : Z) (body : Z -> Gen G L F unit) (S : Z -> L -> Prop) :
  (forall x, lo <= x < hi -> adds (body x) (S x)) ->
  adds (for_int lo hi body) (fun l => exists x, lo <= x < hi /\ S x l).
Proof.
  intros Hbody. eapply adds_weaken; [|apply adds_for_each with (S := S)].
  - intros l (x & Hx & Hl). exists x. split; [|exact Hl]. apply elem_of_seqZ. lia.
  - intros x Hx. apply elem_of_seqZ in Hx. apply Hbody. lia.
Qed.

End Logic.

Section Fills.
Context {G L F : Type} `{Countable L}.
Variable dis : G -> F * G.
Variable index : Z -> Z -> Z -> L.
Implicit Types (m : gmap L F) (v : F).




Lemma framed_refl M N bc (m0 : gmap L F) : framed index M N bc m0 m0.
Proof. split; intros; reflexivity. Qed.

Lemma framed_store M N bc m0 m i j b v :
  allocated index M N bc m0 ->
  0 <= i < M -> 0 <= j < N -> 0 <= b < bc ->
  framed index M N bc m0 m ->
  is_Some (m !! index i j b) /\ framed index M N bc m0 (<[index i j b := v]> m).
Proof.
  intros Hal Hi Hj Hb [Hdom Hout].
  assert (Hs : is_Some (m !! index i j b)) by (apply Hdom, Hal; assumption).
  split; [exact Hs|]. split.
  - intros l. rewrite lookup_insert_is_Some, <- Hdom.
    destruct (decide (index i j b = l)) as [<-|Hne]; tauto.
  - intros l Hl. rewrite lookup_insert_ne; [apply Hout, Hl|].
    intros <-. apply Hl. exists i, j, b. auto.
Qed.

Lemma triple_draw_then {A : Type} (P : gmap L F -> Prop) (k : F -> Gen G L F A) Q :
  (forall v, triple (fun s => P (mem s)) (k v) Q) ->
  triple (fun s => P (mem s)) (bind (draw dis) k) Q.
Proof.
  intros Hk. apply triple_bind with (Q := fun _ s => P (mem s)).
  - apply triple_draw.
  - exact Hk.
Qed.

(** ** The general fill *)

Lemma fill_general_triple M N bc m0 :
  allocated index M N bc m0 ->
  triple (fun s => framed index M N bc m0 (mem s))
         (fill_general dis index M N bc)
         (fun _ s => framed index M N bc m0 (mem s)).
Proof.
  intros Hal. unfold fill_general.
  apply triple_for_int. intros b Hb.
  apply triple_for_int. intros i Hi.
  apply triple_for_int. intros j Hj.
  apply triple_draw_then. intros v.
  apply triple_store. intros m Hm. apply framed_store; assumption.
Qed.

Lemma fill_general_adds M N bc :
  adds (fill_general dis index M N bc) (element index M N bc).
Proof.
  unfold fill_general.
  eapply adds_weaken; [|apply adds_for_int; intros b Hb;
                         apply adds_for_int; intros i Hi;
                         apply adds_for_int; intros j Hj;
                         apply adds_bind; [apply adds_draw|intros v; apply adds_store]].
  intros l (i & j & b & Hi & Hj & Hb & ->).
  exists b. split; [exact Hb|]. exists i. split; [exact Hi|].
  exists j. split; [exact Hj|]. right. reflexivity.
Qed.

(** ** The symmetric fill *)

Variable scale : F -> F.

Lemma fill_symmetric_triple N bc m0 :
  allocated index N N bc m0 ->
  triple (fun s => framed index N N bc m0 (mem s))
         (fill_symmetric dis index scale N bc)
         (fun _ s => framed index N N bc m0 (mem s)).
Proof.
  intros Hal. unfold fill_symmetric.
  apply triple_for_int. intros b Hb.
  apply triple_for_int. intros i Hi.
  apply triple_draw_then. intros d.
  apply triple_bind with (Q := fun _ s => framed index N N bc m0 (mem s)).
  { apply triple_store. intros m Hm. apply framed_store; assumption. }
  intros _. apply triple_for_int. intros j Hj.
  apply triple_draw_then. intros value.
  apply triple_bind with (Q := fun _ s => framed index N N bc m0 (mem s)).
  { apply triple_store. intros m Hm. apply framed_store; try assumption; lia. }
  intros _. apply triple_store. intros m Hm. apply framed_store; try assumption; lia.
Qed.

Lemma fill_symmetric_adds N bc :
  adds (fill_symmetric dis index scale N bc) (element index N N bc).
Proof.
  unfold fill_symmetric.
  eapply adds_weaken;
    [|apply adds_for_int; intros b Hb;
      apply adds_for_int; intros i Hi;
      apply adds_bind; [apply adds_draw|intros d];
      apply adds_bind; [apply adds_store|intros _];
      apply adds_for_int; intros j Hj;
      apply adds_bind; [apply adds_draw|intros value];
      apply adds_bind; [apply adds_store|intros _; apply adds_store]].
  intros l (i & j & b & Hi & Hj & Hb & ->).
  exists b. split; [exact Hb|].
  destruct (Z.lt_trichotomy i j) as [Hlt|[->|Hgt]].
  - exists i. split; [exact Hi|]. right. right.
    exists j. split; [lia|]. right. left. reflexivity.
  - exists j. split; [exact Hj|]. right. left. reflexivity.
  - exists j. split; [exact Hj|]. right. right.
    exists i. split; [lia|]. right. right. reflexivity.
Qed.



Lemma symmetric_store_pair N bc m i j b v :
  one_cell_each index N bc ->
  0 <= i < N -> 0 <= j < N -> 0 <= b < bc ->
  symmetric index N bc m ->
  symmetric index N bc (<[index j i b := v]> (<[index i j b := v]> m)).
Proof.
  intros Hinj Hi Hj Hb Hsym i' j' b' Hi' Hj' Hb'.
  destruct (Hsym i' j' b' Hi' Hj' Hb') as [Hs He].
  assert (Hcase : forall x y,
             0 <= x < N -> 0 <= y < N ->
             (<[index j i b := v]> (<[index i j b := v]> m)) !! index x y b'
             = if decide ((x = i /\ y = j /\ b' = b) \/ (x = j /\ y = i /\ b' = b))
               then Some v else m !! index x y b').
  { intros x y Hx Hy. destruct (decide _) as [[(-> & -> & ->)|(-> & -> & ->)]|Hno].
    - destruct (decide (index j i b = index i j b)) as [E|E].
      + rewrite E. apply lookup_insert_eq.
      + rewrite lookup_insert_ne by exact E. apply lookup_insert_eq.
    - apply lookup_insert_eq.
    - rewrite !lookup_insert_ne; [reflexivity| |].
      + intros E. apply Hinj in E; try assumption.
        destruct E as (? & ? & ?). subst. apply Hno. tauto.
      + intros E. apply Hinj in E; try assumption.
        destruct E as (? & ? & ?). subst. apply Hno. tauto. }
  rewrite (Hcase i' j' Hi' Hj'), (Hcase j' i' Hj' Hi').
  destruct (decide ((i' = i /\ j' = j /\ b' = b) \/ (i' = j /\ j' = i /\ b' = b)))
    as [Hy|Hn], (decide ((j' = i /\ i' = j /\ b' = b) \/ (j' = j /\ i' = i /\ b' = b)))
    as [Hy'|Hn']; try tauto.
  split; [eauto|reflexivity].
Qed.

Lemma symmetric_store_diag N bc m i b v :
  one_cell_each index N bc ->
  0 <= i < N -> 0 <= b < bc ->
  symmetric index N bc m -> symmetric index N bc (<[index i i b := v]> m).
Proof.
  intros Hinj Hi Hb Hsym.
  replace (<[index i i b := v]> m)
    with (<[index i i b := v]> (<[index i i b := v]> m))
    by apply insert_insert_eq.
  apply symmetric_store_pair; assumption.
Qed.

Lemma fill_symmetric_keeps N bc :
  one_cell_each index N bc ->
  triple (fun s => symmetric index N bc (mem s))
         (fill_symmetric dis index scale N bc)
         (fun _ s => symmetric index N bc (mem s)).
Proof.
  intros Hinj. unfold fill_symmetric.
  apply triple_for_int. intros b Hb.
  apply triple_for_int. intros i Hi.
  apply triple_draw_then. intros d.
  apply triple_bind with (Q := fun _ s => symmetric index N bc (mem s)).
  { apply triple_store. intros m Hm. split; [apply Hm; assumption|].
    apply symmetric_store_diag; assumption. }
  intros _. apply triple_for_int. intros j Hj.
  apply triple_draw_then. intros value.
  (* the two stores of a pair, taken together *)
  intros s Hs. unfold bind, store.
  destruct (Hs i j b Hi ltac:(lia) Hb) as [[x Hx] _]. rewrite Hx. cbn [mem engine].
  assert (Hs2 : is_Some ((<[index i j b := value]> (mem s)) !! index j i b)).
  { apply lookup_insert_is_Some'. right. apply Hs; try assumption; lia. }
  destruct Hs2 as [y Hy]. rewrite Hy.
  eexists tt, _. split; [reflexivity|]. cbn [mem].
  apply symmetric_store_pair; try assumption; lia.
Qed.

End Fills.

Section Runs.
Context {G L F : Type} `{Countable L}.
Variable dis : G -> F * G.
Variable index : Z -> Z -> Z -> L.
Variable scale : F -> F.
Implicit Types (hA m : gmap L F).


Lemma run_triple (m : Gen G L F unit) (P Q : gmap L F -> Prop) g hA :
  triple (fun s => P (mem s)) m (fun _ s => Q (mem s)) ->
  P hA -> exists hA', run m g hA = Some hA' /\ Q hA'.
Proof.
  intros Hm HP. destruct (Hm (GState g hA) HP) as (a & s' & E & HQ).
  exists (mem s'). unfold run. rewrite E. split; [reflexivity|exact HQ].
Qed.

(** Two runs from the same engine state, in memories with the same
    cells: both fail or both succeed, and then agree on [S]. *)
Lemma run_adds (m : Gen G L F unit) (S : L -> Prop) g m1 m2 :
  adds m S -> same_cells m1 m2 ->
  match run m g m1, run m g m2 with
  | Some m1', Some m2' => same_cells m1' m2' /\ forall l, S l -> m1' !! l = m2' !! l
  | None, None => True
  | _, _ => False
  end.
Proof.
  intros Hm Hsame. unfold run.
  specialize (Hm (fun _ => False) (GState g m1) (GState g m2)).
  destruct (m (GState g m1)) as [[[] s1]|], (m (GState g m2)) as [[[] s2]|];
    try (apply Hm; repeat split; auto; try apply Hsame; contradiction).
  destruct Hm as (_ & _ & Hd & Hw).
  - repeat split; auto; try apply Hsame; contradiction.
  - split; [exact Hd|]. intros l Hl. apply Hw. right. exact Hl.
Qed.

Theorem fill_general_runs M N bc g hA :
  allocated index M N bc hA ->
  exists hA', run (fill_general dis index M N bc) g hA = Some hA' /\
              framed index M N bc hA hA'.
Proof.
  intros Hal.
  apply (run_triple _ (framed index M N bc hA) (framed index M N bc hA)).
  - apply fill_general_triple, Hal.
  - apply framed_refl.
Qed.

Theorem fill_symmetric_runs N bc g hA :
  allocated index N N bc hA ->
  exists hA', run (fill_symmetric dis index scale N bc) g hA = Some hA' /\
              framed index N N bc hA hA'.
Proof.
  intros Hal.
  apply (run_triple _ (framed index N N bc hA) (framed index N N bc hA)).
  - apply fill_symmetric_triple, Hal.
  - apply framed_refl.
Qed.

(** The symmetric fill on any memory ends as it does on a memory that
    was symmetric to begin with. *)
Theorem fill_symmetric_symmetric N bc g hA :
  one_cell_each index N bc ->
  allocated index N N bc hA ->
  exists hA', run (fill_symmetric dis index scale N bc) g hA = Some hA' /\
              framed index N N bc hA hA' /\
              symmetric index N bc hA'.
Proof.
  intros Hinj Hal.
  destruct (fill_symmetric_runs N bc g hA Hal) as (hA' & Erun & Hframe).
  exists hA'. split; [exact Erun|]. split; [exact Hframe|].
  set (d := fst (dis g)).
  set (flat := (fun _ : F => d) <$> hA).
  assert (Hflat : symmetric index N bc flat).
  { intros i j b Hi Hj Hb. unfold flat. rewrite !lookup_fmap.
    destruct (Hal i j b Hi Hj Hb) as [x ->], (Hal j i b Hj Hi Hb) as [y ->].
    split; [eexists|]; reflexivity. }
  destruct (run_triple (fill_symmetric dis index scale N bc)
              (symmetric index N bc) (symmetric index N bc) g flat
              (fill_symmetric_keeps dis index scale N bc Hinj) Hflat)
    as (flat' & Eflat & Hsym).
  assert (Hsame : same_cells hA flat).
  { intros l. unfold flat. rewrite lookup_fmap, fmap_is_Some. reflexivity. }
  pose proof (run_adds _ _ g hA flat (fill_symmetric_adds dis index scale N bc) Hsame)
    as Hag.
  rewrite Erun, Eflat in Hag. destruct Hag as [_ Hag].
  intros i j b Hi Hj Hb.
  rewrite (Hag (index i j b)) by (exists i, j, b; auto).
  rewrite (Hag (index j i b)) by (exists j, i, b; auto).
  apply Hsym; assumption.
Qed.

End Runs.

(** ** Layouts and machine indices *)



Section Layout.
Variables elem M N lda strideA batch_count : Z.
Hypothesis Helem : 1 <= elem.
Hypothesis Hlay : layout elem M N lda strideA batch_count.

Lemma layout_offset i j :
  0 <= i < M -> 0 <= j < N -> 0 <= i + j * lda < strideA /\ i + j * lda <= INT_MAX /\
                              0 <= j * lda <= INT_MAX.
Proof.
  destruct Hlay as (HM & HN & Hint & Hs & Hfit & Hb & Hal). intros Hi Hj.
  assert (0 <= j * lda) by nia.
  assert (j * lda <= (N - 1) * lda) by nia.
  assert ((N - 1) * lda + lda = lda * N) by lia.
  lia.
Qed.

Lemma layout_slot b : 0 <= b < batch_count ->
  0 <= b * strideA /\ b * strideA + strideA <= strideA * batch_count /\
  strideA * batch_count < 2 ^ 63.
Proof.
  destruct Hlay as (HM & HN & Hint & Hs & Hfit & Hb & Hal). intros Hbb.
  assert (0 <= b * strideA) by nia.
  assert (b * strideA + strideA <= strideA * batch_count) by nia.
  assert (0 <= strideA * batch_count) by nia.
  assert (strideA * batch_count <= elem * strideA * batch_count) by nia.
  lia.
Qed.

Lemma index_size_t_flat i j b :
  0 <= i < M -> 0 <= j < N -> 0 <= b < batch_count ->
  Gen.index_size_t lda strideA i j b = flat lda strideA i j b.
Proof.
  intros Hi Hj Hb.
  destruct (layout_offset i j Hi Hj) as (Ho & Hoi & Hjl).
  destruct (layout_slot b Hb) as (Hb0 & Hb1 & Hb2).
  unfold Gen.index_size_t, flat, int_add, int_mul.
  rewrite (wrap_int_id (j * lda)) by (unfold is_int, INT_MIN; lia).
  rewrite (wrap_int_id (i + j * lda)) by (unfold is_int, INT_MIN; lia).
  assert (Hbs : size_mul b strideA = b * strideA).
  { destruct Hlay as (_ & _ & _ & Hs & _).
    apply size_mul_exact; unfold SIZE_MAX; lia. }
  rewrite Hbs. unfold size_add.
  rewrite (to_size_t_id (i + j * lda)) by (unfold SIZE_MAX, INT_MAX in *; lia).
  rewrite (to_size_t_id (b * strideA)) by (unfold SIZE_MAX, INT_MAX in *; lia).
  apply to_size_t_id. unfold SIZE_MAX, INT_MAX in *. lia.
Qed.

Lemma index_int64_flat i j b :
  0 <= i < M -> 0 <= j < N -> 0 <= b < batch_count ->
  Gen.index_int64 lda strideA i j b = flat lda strideA i j b.
Proof.
  intros Hi Hj Hb.
  destruct (layout_offset i j Hi Hj) as (Ho & Hoi & Hjl).
  destruct (layout_slot b Hb) as (Hb0 & Hb1 & Hb2).
  unfold Gen.index_int64, flat, int_add, int_mul, int64_add, int64_mul.
  rewrite (wrap_int_id (j * lda)) by (unfold is_int, INT_MIN; lia).
  rewrite (wrap_int_id (i + j * lda)) by (unfold is_int, INT_MIN; lia).
  rewrite (wrap_int64_id (b * strideA)) by lia.
  apply wrap_int64_id. unfold INT_MAX in *. lia.
Qed.

Lemma index_batched_flat i j b :
  0 <= i < M -> 0 <= j < N ->
  Gen.index_batched lda i j b = (b, i + j * lda).
Proof.
  intros Hi Hj. destruct (layout_offset i j Hi Hj) as (Ho & Hoi & Hjl).
  unfold Gen.index_batched, int_add, int_mul.
  rewrite (wrap_int_id (j * lda)) by (unfold is_int, INT_MIN; lia).
  rewrite (wrap_int_id (i + j * lda)) by (unfold is_int, INT_MIN; lia).
  reflexivity.
Qed.

End Layout.

(** the number of elements a byte count of [elem * a * b] stands for *)
Lemma malloc_count elem a b :
  1 <= elem -> 0 <= a -> 0 <= b -> elem * a * b < 2 ^ 63 ->
  size_mul (size_mul elem a) b / elem = a * b.
Proof.
  intros He Ha Hb Hal.
  destruct (Z.eq_dec b 0) as [->|Hb0].
  { unfold size_mul at 1. change (to_size_t 0) with 0.
    rewrite !Z.mul_0_r. reflexivity. }
  assert (H0 : 0 <= elem * a) by nia.
  assert (H1 : elem * a <= elem * a * b) by nia.
  rewrite (size_mul_exact elem a) by (unfold SIZE_MAX; lia).
  rewrite size_mul_exact by (unfold SIZE_MAX; lia).
  rewrite <- Z.mul_assoc, Z.mul_comm. apply Z.div_mul. lia.
Qed.

(** ** Freshly allocated memory *)

Lemma lookup_malloc {F : Type} (stale : Z -> F) (n p : Z) :
  Gen.malloc stale n !! p = if decide (0 <= p < n) then Some (stale p) else None.
Proof.
  unfold Gen.malloc. destruct (decide (0 <= p < n)) as [Hp|Hp].
  - apply elem_of_list_to_map_1'.
    + intros y Hy. apply list_elem_of_fmap in Hy as (q & [= -> ->] & _). reflexivity.
    + apply list_elem_of_fmap. exists p. split; [reflexivity|]. apply elem_of_seqZ. lia.
  - apply not_elem_of_list_to_map_1. intros Hin.
    apply list_elem_of_fmap in Hin as ([q y] & -> & Hq).
    apply list_elem_of_fmap in Hq as (q' & [= -> ->] & Hq').
    apply elem_of_seqZ in Hq'. cbn in Hp. lia.
Qed.

Lemma lookup_malloc_each {F : Type} (stale : Z -> Z -> F) (batch n b p : Z) :
  Gen.malloc_each stale batch n !! (b, p)
  = if decide (0 <= b < batch /\ 0 <= p < n) then Some (stale b p) else None.
Proof.
  unfold Gen.malloc_each. destruct (decide (0 <= b < batch /\ 0 <= p < n)) as [Hp|Hp].
  - apply elem_of_list_to_map_1'.
    + intros y Hy. apply list_elem_of_bind in Hy as (b' & Hy & _).
      apply list_elem_of_fmap in Hy as (q & [= -> -> ->] & _). reflexivity.
    + apply list_elem_of_bind. exists b. split; [|apply elem_of_seqZ; lia].
      apply list_elem_of_fmap. exists p. split; [reflexivity|]. apply elem_of_seqZ. lia.
  - apply not_elem_of_list_to_map_1. intros Hin.
    apply list_elem_of_fmap in Hin as ([[b' q] y] & [= -> ->] & Hq).
    apply list_elem_of_bind in Hq as (b'' & Hq & Hb'').
    apply list_elem_of_fmap in Hq as (q' & [= -> -> ->] & Hq').
    apply elem_of_seqZ in Hq', Hb''. lia.
Qed.

Lemma malloc_same_cells {F : Type} (stale1 stale2 : Z -> F) (n : Z) :
  same_cells (Gen.malloc stale1 n) (Gen.malloc stale2 n).
Proof.
  intros p. rewrite !lookup_malloc. destruct (decide (0 <= p < n)); split; eauto.
Qed.

Lemma malloc_each_same_cells {F : Type} (stale1 stale2 : Z -> Z -> F) (batch n : Z) :
  same_cells (Gen.malloc_each stale1 batch n) (Gen.malloc_each stale2 batch n).
Proof.
  intros [b p]. rewrite !lookup_malloc_each.
  destruct (decide (0 <= b < batch /\ 0 <= p < n)); split; eauto.
Qed.

(** ** Positions in a layout *)

Lemma quotient_unique d r q r' q' :
  0 <= r < d -> 0 <= r' < d -> r + q * d = r' + q' * d -> r = r' /\ q = q'.
Proof.
  intros Hr Hr' E.
  assert (q = q') by (destruct (Z.lt_trichotomy q q') as [Hlt|[Heq|Hgt]]; [nia|exact Heq|nia]).
  subst q'. lia.
Qed.

(** positions of a slot of [rows] rows: distinct for distinct (i, j, b) *)
Lemma flat_unique rows N lda strideA i j b i' j' b' :
  rows <= lda -> (N - 1) * lda + rows <= strideA ->
  0 <= i < rows -> 0 <= j < N -> 0 <= i' < rows -> 0 <= j' < N ->
  flat lda strideA i j b = flat lda strideA i' j' b' ->
  i = i' /\ j = j' /\ b = b'.
Proof.
  unfold flat. intros Hr Hfit Hi Hj Hi' Hj' E.
  assert (Ho : 0 <= i + j * lda < strideA) by nia.
  assert (Ho' : 0 <= i' + j' * lda < strideA) by nia.
  destruct (quotient_unique strideA _ b _ b' Ho Ho' E) as [Eo ->].
  destruct (quotient_unique lda i j i' j' ltac:(lia) ltac:(lia) Eo) as [-> ->].
  auto.
Qed.

(** ** Generators on a strided buffer *)




Section StridedBuffer.
Context {G : Type}.
Variables elem M N lda strideA batch_count : Z.
Hypothesis Helem : 1 <= elem.
Hypothesis Hlay : layout elem M N lda strideA batch_count.
Variable index : Z -> Z -> Z -> Z.
Hypothesis Hindex : forall i j b,
  0 <= i < M -> 0 <= j < N -> 0 <= b < batch_count ->
  index i j b = flat lda strideA i j b.
Variable dis : G -> spec_float * G.
Variable stale : Z -> spec_float.

Let hA0 := malloc stale (strideA * batch_count).

Lemma flat_in_buffer i j b :
  0 <= i < lda -> 0 <= j < N -> 0 <= b < batch_count -> lda * N <= strideA \/ i < M ->
  0 <= flat lda strideA i j b < strideA * batch_count.
Proof.
  intros Hi Hj Hb Hcase. unfold flat.
  destruct Hlay as (HM & HN & Hint & Hs & Hfit & Hbc & Hal).
  assert (0 <= j * lda <= (N - 1) * lda) by nia.
  assert (0 <= b * strideA) by nia.
  assert (b * strideA + strideA <= strideA * batch_count) by nia.
  assert ((N - 1) * lda + lda = lda * N) by lia.
  lia.
Qed.

Lemma malloc_allocated : allocated index M N batch_count hA0.
Proof.
  intros i j b Hi Hj Hb. rewrite Hindex by assumption.
  unfold hA0. rewrite lookup_malloc.
  destruct Hlay as (HM & _).
  destruct (decide _) as [_|Hn]; [eauto|].
  exfalso. apply Hn. apply flat_in_buffer; auto; lia.
Qed.

Lemma element_flat p :
  element index M N batch_count p ->
  exists i j b, 0 <= i < M /\ 0 <= j < N /\ 0 <= b < batch_count /\ p = flat lda strideA i j b.
Proof.
  intros (i & j & b & Hi & Hj & Hb & ->). exists i, j, b.
  rewrite Hindex by assumption. auto.
Qed.

Lemma framed_frame_strided r hA :
  lda * N <= strideA ->
  r = Some hA -> framed index M N batch_count hA0 hA ->
  frame_strided stale M N lda strideA batch_count r.
Proof.
  intros Hfull -> [Hdom Hout]. exists hA. split; [reflexivity|].
  assert (Hkeep : forall p,
            (forall i j b, 0 <= i < M -> 0 <= j < N -> 0 <= b < batch_count ->
                           p <> flat lda strideA i j b) ->
            hA !! p = hA0 !! p).
  { intros p Hp. apply Hout. intros He.
    apply element_flat in He as (i & j & b & Hi & Hj & Hb & ->).
    exact (Hp i j b Hi Hj Hb eq_refl). }
  destruct Hlay as (HM & HN & Hint & Hs & Hfit & Hbc & Hal).
  split; [exact Hkeep|]. split; [|split].
  - intros i j b Hi Hj Hb. rewrite Hkeep.
    + unfold hA0. rewrite lookup_malloc.
      destruct (decide _) as [_|Hn]; [reflexivity|].
      exfalso. apply Hn. apply flat_in_buffer; auto; lia.
    + intros i' j' b' Hi' Hj' Hb' E.
      assert ((N - 1) * lda + lda = lda * N) by lia.
      apply (flat_unique lda N) in E; lia.
  - intros t b Ht Hb. rewrite Hkeep.
    + unfold hA0. rewrite lookup_malloc.
      destruct (decide _) as [_|Hn]; [reflexivity|].
      exfalso. apply Hn.
      assert (0 <= b * strideA) by nia.
      assert (b * strideA + strideA <= strideA * batch_count) by nia.
      assert (0 <= lda * N) by nia. lia.
    + intros i' j' b' Hi' Hj' Hb' E. unfold flat in E.
      assert (0 <= j' * lda <= (N - 1) * lda) by nia.
      assert ((N - 1) * lda + lda = lda * N) by lia.
      assert (0 <= lda * N) by nia.
      destruct (quotient_unique strideA t b (i' + j' * lda) b') as [Et _]; lia.
  - intros p. rewrite Hdom. unfold hA0. rewrite lookup_malloc.
    destruct (decide (0 <= p < strideA * batch_count)) as [Hin|Hout'].
    + split; eauto.
    + split; [intros [? Hp]; discriminate Hp|intros Hp; contradiction].
Qed.

Lemma general_frame_strided g :
  lda * N <= strideA ->
  frame_strided stale M N lda strideA batch_count
    (run (fill_general dis index M N batch_count) g hA0).
Proof.
  intros Hfull.
  destruct (fill_general_runs dis index M N batch_count g hA0 malloc_allocated)
    as (hA & Erun & Hframe).
  eapply framed_frame_strided; eassumption.
Qed.

End StridedBuffer.

Section SymmetricBuffer.
Context {G : Type}.
Variables elem N lda strideA batch_count : Z.
Hypothesis Helem : 1 <= elem.
Hypothesis Hlay : layout elem N N lda strideA batch_count.
Variable index : Z -> Z -> Z -> Z.
Hypothesis Hindex : forall i j b,
  0 <= i < N -> 0 <= j < N -> 0 <= b < batch_count ->
  index i j b = flat lda strideA i j b.
Variable dis : G -> spec_float * G.
Variable scale : spec_float -> spec_float.
Variable stale : Z -> spec_float.

Let hA0 := malloc stale (strideA * batch_count).

Lemma index_one_cell_each : one_cell_each index N batch_count.
Proof.
  intros i j b i' j' b' Hi Hj Hb Hi' Hj' Hb' E.
  rewrite !Hindex in E by assumption.
  destruct Hlay as (HM & HN & Hint & Hs & Hfit & Hbc & Hal).
  apply (flat_unique N N lda strideA); auto; lia.
Qed.

Lemma symmetric_frame_strided g :
  lda * N <= strideA ->
  frame_strided stale N N lda strideA batch_count
    (run (fill_symmetric dis index scale N batch_count) g hA0).
Proof.
  intros Hfull.
  destruct (fill_symmetric_runs dis index scale N batch_count g hA0) as (hA & Erun & Hframe).
  { eapply malloc_allocated; eassumption. }
  eapply framed_frame_strided; eassumption.
Qed.

Lemma symmetric_mirrored g :
  mirrored N lda strideA batch_count
    (run (fill_symmetric dis index scale N batch_count) g hA0).
Proof.
  destruct (fill_symmetric_symmetric dis index scale N batch_count g hA0)
    as (hA & Erun & _ & Hsym).
  { exact index_one_cell_each. }
  { eapply malloc_allocated; eassumption. }
  exists hA. split; [exact Erun|].
  intros b i j Hb Hi Hj _.
  destruct (Hsym i j b Hi Hj Hb) as [[value Hv] He].
  exists value. rewrite Hv in He.
  rewrite !Hindex in * by assumption. unfold flat in *. split; [exact Hv|].
  symmetry. exact He.
Qed.

End SymmetricBuffer.

Lemma create_matrices_mirrored {G : Type} (w : world G)
    (N lda strideA batch_count random_seed : Z) :
  layout sizeof_float N N lda strideA batch_count ->
  mirrored N lda strideA batch_count
    (bench_openblas_ssyev.create_matrices w N lda strideA batch_count random_seed).
Proof.
  intros Hlay. unfold bench_openblas_ssyev.create_matrices.
  rewrite malloc_count by (unfold layout, sizeof_float in *; lia).
  eapply symmetric_mirrored; [exact Hlay|].
  intros i j b Hi Hj Hb.
  apply (index_size_t_flat sizeof_float N N lda strideA batch_count);
    [unfold sizeof_float; lia|assumption..].
Qed.

Lemma create_symmetric_matrices_mirrored {G : Type} (w : world G)
    (N lda strideA batch_count random_seed : Z) :
  layout sizeof_float N N lda strideA batch_count ->
  mirrored N lda strideA batch_count
    (bench_rocsolver_ssyevj_strided_batched.create_symmetric_matrices
       w N lda strideA batch_count random_seed).
Proof.
  intros Hlay. unfold bench_rocsolver_ssyevj_strided_batched.create_symmetric_matrices.
  rewrite malloc_count by (unfold layout, sizeof_float in *; lia).
  eapply symmetric_mirrored; [exact Hlay|].
  intros i j b Hi Hj Hb.
  apply (index_int64_flat sizeof_float N N lda strideA batch_count);
    [unfold sizeof_float; lia|assumption..].
Qed.

(** C3. In every batch member the symmetric generators leave the same
    value at positions i + j*lda + b*strideA and j + i*lda + b*strideA, for
    all i <> j below N.  (The buffer is laid out so that a matrix ends
    before the next one starts, with lda >= N.) *)
Theorem C3_symmetric_generators {G : Type} (w : world G)
    (N lda strideA batch_count random_seed : Z) :
  layout sizeof_float N N lda strideA batch_count ->
  mirrored N lda strideA batch_count
    (bench_openblas_ssyev.create_matrices w N lda strideA batch_count random_seed) /\
  mirrored N lda strideA batch_count
    (bench_rocsolver_ssyevj_strided_batched.create_symmetric_matrices
       w N lda strideA batch_count random_seed).
Proof.
  intros Hlay. split.
  - apply create_matrices_mirrored, Hlay.
  - apply create_symmetric_matrices_mirrored, Hlay.
Qed.

Lemma C3_symmetric_generators_witness :
  mirrored 3 4 12 2 (bench_openblas_ssyev.create_matrices sample_world 3 4 12 2 42) /\
  mirrored 3 4 12 2
    (bench_rocsolver_ssyevj_strided_batched.create_symmetric_matrices sample_world 3 4 12 2 42).
Proof.
  apply (C3_symmetric_generators sample_world 3 4 12 2 42).
  unfold layout, sizeof_float, INT_MAX. lia.
Defined.

Section BatchedBuffer.
Context {G : Type}.
Variables M N lda batch_count : Z.
Hypothesis Hlay : layout sizeof_double M N lda (lda * N) batch_count.
Variable dis : G -> spec_float * G.
Variable stale : Z -> Z -> spec_float.

Let hA0 := malloc_each stale batch_count (lda * N).

Lemma batched_offset i j : 0 <= i < lda -> 0 <= j < N -> 0 <= i + j * lda < lda * N.
Proof.
  intros Hi Hj.
  assert (0 <= j * lda <= (N - 1) * lda) by nia.
  assert ((N - 1) * lda + lda = lda * N) by lia. lia.
Qed.

Lemma batched_index i j b :
  0 <= i < M -> 0 <= j < N -> index_batched lda i j b = (b, i + j * lda).
Proof.
  intros Hi Hj.
  apply (index_batched_flat sizeof_double M N lda (lda * N) batch_count Hlay); assumption.
Qed.

Lemma malloc_each_allocated : allocated (index_batched lda) M N batch_count hA0.
Proof.
  intros i j b Hi Hj Hb. rewrite batched_index by assumption.
  unfold hA0. rewrite lookup_malloc_each.
  destruct Hlay as (HM & _).
  destruct (decide _) as [_|Hn]; [eauto|].
  exfalso. apply Hn. split; [exact Hb|]. apply batched_offset; lia.
Qed.

Lemma general_frame_batched g :
  frame_batched stale M N lda batch_count
    (run (fill_general dis (index_batched lda) M N batch_count) g hA0).
Proof.
  destruct (fill_general_runs dis (index_batched lda) M N batch_count g hA0
              malloc_each_allocated) as (hA & Erun & Hdom & Hout).
  exists hA. split; [exact Erun|].
  assert (Hkeep : forall b p,
            (forall i j, 0 <= i < M -> 0 <= j < N -> p <> i + j * lda) ->
            hA !! (b, p) = hA0 !! (b, p)).
  { intros b p Hp. apply Hout. intros (i & j & b' & Hi & Hj & Hb' & E).
    rewrite batched_index in E by assumption. injection E as -> ->.
    exact (Hp i j Hi Hj eq_refl). }
  destruct Hlay as (HM & HN & _).
  split; [exact Hkeep|]. split.
  - intros i j b Hi Hj Hb. rewrite Hkeep.
    + unfold hA0. rewrite lookup_malloc_each.
      destruct (decide _) as [_|Hn]; [reflexivity|].
      exfalso. apply Hn. split; [exact Hb|]. apply batched_offset; lia.
    + intros i' j' Hi' Hj' E.
      destruct (quotient_unique lda i j i' j') as [Ei _]; lia.
  - intros b p. rewrite Hdom. unfold hA0. rewrite lookup_malloc_each.
    destruct (decide (0 <= b < batch_count /\ 0 <= p < lda * N)) as [Hin|Hno].
    + split; eauto.
    + split; [intros [? Hp]; discriminate Hp|intros Hp; contradiction].
Qed.

End BatchedBuffer.

(** ** Determinism *)


Section Determinism.
Context {G L : Type} `{Countable L}.
Variable dis : G -> spec_float * G.
Variable index : Z -> Z -> Z -> L.

Lemma run_same_elements (m : Gen G L spec_float unit) M N bc g hA1 hA2 :
  adds m (element index M N bc) -> same_cells hA1 hA2 ->
  same_elements index M N bc (run m g hA1) (run m g hA2).
Proof.
  intros Hm Hsame. pose proof (run_adds m _ g hA1 hA2 Hm Hsame) as Hag.
  unfold same_elements.
  destruct (run m g hA1), (run m g hA2); try exact Hag.
  intros i j b Hi Hj Hb. apply Hag. exists i, j, b. auto.
Qed.

Lemma general_same_elements M N bc g hA1 hA2 :
  same_cells hA1 hA2 ->
  same_elements index M N bc (run (fill_general dis index M N bc) g hA1)
                             (run (fill_general dis index M N bc) g hA2).
Proof. apply run_same_elements, fill_general_adds. Qed.

Lemma symmetric_same_elements scale N bc g hA1 hA2 :
  same_cells hA1 hA2 ->
  same_elements index N N bc (run (fill_symmetric dis index scale N bc) g hA1)
                             (run (fill_symmetric dis index scale N bc) g hA2).
Proof. apply run_same_elements, fill_symmetric_adds. Qed.

End Determinism.

(** C4. The generators are deterministic: in two worlds with the same
    engine and distributions, whatever else differs (what [malloc] hands
    out included), a generator called with the same dimensions, lda, stride,
    batch count and seed fails in both or returns in both, with identical
    contents at every element of every matrix. *)
Theorem C4_generators_deterministic {G : Type} (w1 w2 : world G)
    (M N lda strideA batch_count random_seed : Z) :
  mt19937 w1 = mt19937 w2 ->
  dis_float w1 = dis_float w2 ->
  dis_double w1 = dis_double w2 ->
  same_elements (Gen.index_size_t lda strideA) M N batch_count
    (bench_openblas_sgesvdj_strided_batched.create_matrices_for_sgesvdj_strided_batched
       w1 M N lda strideA batch_count random_seed)
    (bench_openblas_sgesvdj_strided_batched.create_matrices_for_sgesvdj_strided_batched
       w2 M N lda strideA batch_count random_seed) /\
  same_elements (Gen.index_int64 lda strideA) M N batch_count
    (bench_rocsolver_sgesvdj_strided_batched.create_matrices_for_sgesvdj_strided_batched
       w1 M N lda strideA batch_count random_seed)
    (bench_rocsolver_sgesvdj_strided_batched.create_matrices_for_sgesvdj_strided_batched
       w2 M N lda strideA batch_count random_seed) /\
  same_elements (Gen.index_int64 lda strideA) M N batch_count
    (bench_rocsolver_dgeqrf_strided_batched.create_example_matrices
       w1 M N lda strideA batch_count random_seed)
    (bench_rocsolver_dgeqrf_strided_batched.create_example_matrices
       w2 M N lda strideA batch_count random_seed) /\
  same_elements (Gen.index_batched lda) M N batch_count
    (bench_rocsolver_dgeqrf_batched.create_example_matrices w1 M N lda batch_count random_seed)
    (bench_rocsolver_dgeqrf_batched.create_example_matrices w2 M N lda batch_count random_seed) /\
  same_elements (Gen.index_size_t lda strideA) N N batch_count
    (bench_openblas_ssyev.create_matrices w1 N lda strideA batch_count random_seed)
    (bench_openblas_ssyev.create_matrices w2 N lda strideA batch_count random_seed) /\
  same_elements (Gen.index_int64 lda strideA) N N batch_count
    (bench_rocsolver_ssyevj_strided_batched.create_symmetric_matrices
       w1 N lda strideA batch_count random_seed)
    (bench_rocsolver_ssyevj_strided_batched.create_symmetric_matrices
       w2 N lda strideA batch_count random_seed).
Proof.
  intros Hmt Hf Hd.
  unfold bench_openblas_sgesvdj_strided_batched.create_matrices_for_sgesvdj_strided_batched,
    bench_rocsolver_sgesvdj_strided_batched.create_matrices_for_sgesvdj_strided_batched,
    bench_rocsolver_dgeqrf_strided_batched.create_example_matrices,
    bench_rocsolver_dgeqrf_batched.create_example_matrices,
    bench_openblas_ssyev.create_matrices,
    bench_rocsolver_ssyevj_strided_batched.create_symmetric_matrices.
  rewrite Hmt, Hf, Hd.
  repeat split;
    first [ apply general_same_elements | apply symmetric_same_elements ];
    first [ apply malloc_same_cells | apply malloc_each_same_cells ].
Qed.


Lemma C4_generators_deterministic_witness :
  let w2 := with_stale sample_world (fun _ _ => Float.zero) in
  same_elements (Gen.index_size_t 4 12) 3 3 2
    (bench_openblas_ssyev.create_matrices sample_world 3 4 12 2 42)
    (bench_openblas_ssyev.create_matrices w2 3 4 12 2 42).
Proof.
  intros w2.
  exact (proj1 (proj2 (proj2 (proj2 (proj2
           (C4_generators_deterministic sample_world w2 3 3 4 12 2 42
              eq_refl eq_refl eq_refl)))))).
Defined.

(** What differs between such runs is what was never written: with lda = 4
    and N = 3, row 3 of column 0 is padding and keeps what [malloc] left. *)
Example padding_not_deterministic :
  let w2 := with_stale sample_world (fun _ _ => Float.zero) in
  (bench_openblas_ssyev.create_matrices sample_world 3 4 12 2 42 ≫= (.!! 3)) = Some S754_nan /\
  (bench_openblas_ssyev.create_matrices w2 3 4 12 2 42 ≫= (.!! 3)) = Some Float.zero.
Proof. split; vm_compute; reflexivity. Qed.

(** ** What the generators leave untouched *)

(** C10. Every generator writes only the elements with row index below M
    and column index below N of each batch member.  The padding (rows
    M .. lda-1 of each column, and the cells from lda*N to strideA of each
    batch slot) is never written and still holds what the allocator left
    there, so the buffer of strideA * batch_count elements is defined only
    in part.  (The layout has lda >= M and strideA >= lda * N.) *)
Theorem C10_generators_frame {G : Type} (w : world G)
    (M N lda strideA batch_count random_seed : Z) :
  lda * N <= strideA ->
  (layout sizeof_float M N lda strideA batch_count ->
     frame_strided (stale w 0) M N lda strideA batch_count
       (bench_openblas_sgesvdj_strided_batched.create_matrices_for_sgesvdj_strided_batched
          w M N lda strideA batch_count random_seed) /\
     frame_strided (stale w 0) M N lda strideA batch_count
       (bench_rocsolver_sgesvdj_strided_batched.create_matrices_for_sgesvdj_strided_batched
          w M N lda strideA batch_count random_seed)) /\
  (layout sizeof_double M N lda strideA batch_count ->
     frame_strided (stale w 0) M N lda strideA batch_count
       (bench_rocsolver_dgeqrf_strided_batched.create_example_matrices
          w M N lda strideA batch_count random_seed)) /\
  (layout sizeof_double M N lda (lda * N) batch_count ->
     frame_batched (stale w) M N lda batch_count
       (bench_rocsolver_dgeqrf_batched.create_example_matrices
          w M N lda batch_count random_seed)) /\
  (layout sizeof_float N N lda strideA batch_count ->
     frame_strided (stale w 0) N N lda strideA batch_count
       (bench_openblas_ssyev.create_matrices w N lda strideA batch_count random_seed) /\
     frame_strided (stale w 0) N N lda strideA batch_count
       (bench_rocsolver_ssyevj_strided_batched.create_symmetric_matrices
          w N lda strideA batch_count random_seed)).
Proof.
  intros Hfull.
  unfold bench_openblas_sgesvdj_strided_batched.create_matrices_for_sgesvdj_strided_batched,
    bench_rocsolver_sgesvdj_strided_batched.create_matrices_for_sgesvdj_strided_batched,
    bench_rocsolver_dgeqrf_strided_batched.create_example_matrices,
    bench_rocsolver_dgeqrf_batched.create_example_matrices,
    bench_openblas_ssyev.create_matrices,
    bench_rocsolver_ssyevj_strided_batched.create_symmetric_matrices.
  split; [|split; [|split]].
  - intros Hlay.
    rewrite malloc_count by (unfold layout, sizeof_float in *; lia).
    split; eapply general_frame_strided; try exact Hlay; try exact Hfull;
      try (unfold sizeof_float; lia); intros i j b Hi Hj Hb.
    + apply (index_size_t_flat sizeof_float M N lda strideA batch_count);
        [unfold sizeof_float; lia|assumption..].
    + apply (index_int64_flat sizeof_float M N lda strideA batch_count);
        [unfold sizeof_float; lia|assumption..].
  - intros Hlay.
    rewrite malloc_count by (unfold layout, sizeof_double in *; lia).
    eapply general_frame_strided; try exact Hlay; try exact Hfull;
      try (unfold sizeof_double; lia); intros i j b Hi Hj Hb.
    apply (index_int64_flat sizeof_double M N lda strideA batch_count);
      [unfold sizeof_double; lia|assumption..].
  - intros Hlay.
    rewrite malloc_count by (unfold layout, sizeof_double, INT_MAX in *; lia).
    apply general_frame_batched. exact Hlay.
  - intros Hlay.
    rewrite malloc_count by (unfold layout, sizeof_float in *; lia).
    split; eapply symmetric_frame_strided; try exact Hlay; try exact Hfull;
      try (unfold sizeof_float; lia); intros i j b Hi Hj Hb.
    + apply (index_size_t_flat sizeof_float N N lda strideA batch_count);
        [unfold sizeof_float; lia|assumption..].
    + apply (index_int64_flat sizeof_float N N lda strideA batch_count);
        [unfold sizeof_float; lia|assumption..].
Qed.

Lemma C10_generators_frame_witness :
  frame_strided (stale sample_world 0) 3 2 4 10 2
    (bench_rocsolver_dgeqrf_strided_batched.create_example_matrices sample_world 3 2 4 10 2 42) /\
  frame_batched (stale sample_world) 3 2 4 2
    (bench_rocsolver_dgeqrf_batched.create_example_matrices sample_world 3 2 4 2 42).
Proof.
  assert (Hfull : 4 * 2 <= 10) by lia.
  destruct (C10_generators_frame sample_world 3 2 4 10 2 42 Hfull) as (_ & Hs & _).
  assert (Hfull' : 4 * 2 <= 4 * 2) by lia.
  destruct (C10_generators_frame sample_world 3 2 4 (4 * 2) 2 42 Hfull') as (_ & _ & Hb & _).
  split.
  - apply Hs. unfold layout, sizeof_double, INT_MAX. lia.
  - apply Hb. unfold layout, sizeof_double, INT_MAX. lia.
Defined.

(** Outside such layouts: with a stride of 1 the second matrix of two 2 x 2
    matrices would be stored past the end of the two-element buffer, which
    is not defined; with lda = 4, N = 2 and a stride of 6 the matrices fit,
    but row 2 of column 1 of the first one is element (0, 0) of the second
    and is written. *)
Example stride_too_small :
  bench_openblas_ssyev.create_matrices sample_world 2 2 1 2 42 = None.
Proof. vm_compute. reflexivity. Qed.

Example tight_stride :
  flat 4 6 2 1 0 = flat 4 6 0 0 1 /\
  (bench_openblas_sgesvdj_strided_batched.create_matrices_for_sgesvdj_strided_batched
     sample_world 2 2 4 6 2 42 ≫= (.!! flat 4 6 2 1 0))
  <> Some (stale sample_world 0 (flat 4 6 2 1 0)).
Proof. split; vm_compute; [reflexivity|discriminate]. Qed.

(** ** A whole run of the symmetric eigensolver benchmark *)



Lemma stdout_In fmt_float (e : event) (out : list event) :
  is_call e = false -> In e out -> In (render fmt_float e) (stdout fmt_float out).
Proof.
  intros He Hin. unfold stdout. apply list_elem_of_In, list_elem_of_omap.
  exists e. split; [apply list_elem_of_In, Hin|].
  destruct e; [reflexivity|discriminate He].
Qed.

Lemma nonneg_not_below_zero x : Float.nonneg x = true -> Float.ltb x (Float.of_Z 0) = false.
Proof.
  unfold Float.nonneg, Float.ltb, SFleb, SFltb. change (Float.of_Z 0) with Float.zero.
  rewrite (SFcompare_antisym Float.zero x).
  destruct (SFcompare Float.zero x) as [[]|]; cbn; congruence.
Qed.

Lemma add_zero_nonneg x :
  Float.nonneg x = true -> Float.nonneg (Float.add Float.zero x) = true.
Proof. destruct x as [[]|[]| |[] m e]; cbn; congruence. Qed.

Lemma avg_time_single_nonneg t :
  Float.nonneg t = true -> Float.nonneg (avg_time [t]) = true.
Proof.
  intros Ht. unfold avg_time. cbn [fold_left].
  change (size_as_float [t]) with (S754_finite false 8388608 (-23)).
  apply SFdiv_nonneg, add_zero_nonneg, Ht.
Qed.

Lemma filter_average_action {G : Type} (w : world G) ph rf bc k :
  List.filter is_average
    (lapacke_batch w ph "LAPACKE_ssyev_work" bench_openblas_ssyev.failed rf bc k) = [].
Proof.
  unfold lapacke_batch. induction (seqZ 0 bc) as [|b bs IH]; [reflexivity|].
  cbn [mbind list_bind]. rewrite List.filter_app, IH, app_nil_r.
  destruct (rf && negb (info w ph k b =? 0)); reflexivity.
Qed.

Lemma filter_average_rocsolver routine k :
  List.filter is_average (rocsolver_batch routine k) = [].
Proof. reflexivity. Qed.

Lemma In_report_stdout fmt_float (e : event) (pre warm mid timed report : list event) :
  is_call e = false -> In e report ->
  In (render fmt_float e) (stdout fmt_float (pre ++ warm ++ mid ++ timed ++ report)).
Proof.
  intros He Hin. apply stdout_In; [exact He|]. rewrite !in_app_iff. auto.
Qed.

(** C9. A symmetric eigensolver benchmark run with size 4 (rows = cols =
    4), batch count 1, 1 iteration, warm-up time 0 and seed 42 ends with a
    report that prints the matrix size as "4 x 4", the batch count as "1",
    and exactly one mean execution time, which is not negative.  (The
    clocks do not run backwards: the elapsed times they give are not
    negative.) *)
Theorem C9_end_to_end {G : Type} (p : program) (w : world G) (fuel : nat) :
  p = openblas_ssyev \/ p = rocsolver_ssyevj_strided_batched ->
  Float.nonneg (warmup_clock w 1) = true ->
  Float.nonneg (timer w 0) = true ->
  exists out avg,
    main_of p w scenario (S fuel) = Exit 0 out /\
    In ("Matrix size: 4 x 4" ++ nl)%string (stdout (fmt_float w) out) /\
    In ("Batch count: 1" ++ nl)%string (stdout (fmt_float w) out) /\
    List.filter is_average out
      = [Printf ("Average execution time: %.3f ms" ++ nl) [ArgFloat avg]] /\
    avg = avg_time [timer w 0] /\
    Float.nonneg avg = true.
Proof.
  intros Hp Hclock Htimer.
  assert (Hlay : layout sizeof_float 4 4 10 40 1)
    by (unfold layout, sizeof_float, INT_MAX; lia).
  destruct (create_matrices_mirrored w 4 10 40 1 42 Hlay) as (hA & EhA & _).
  destruct (create_symmetric_matrices_mirrored w 4 10 40 1 42 Hlay) as (hA' & EhA' & _).
  pose proof (warmup_loop_first (warmup_action_of p w scenario)
                (warmup_clock w) 0 (S fuel) 1 ltac:(lia) ltac:(lia)
                (nonneg_not_below_zero _ Hclock) ltac:(intros k Hk; lia)) as Hwarm.
  destruct (warmup_after_fields (warmup_action_of p w scenario) (warmup_clock w) 1)
    as (_ & _ & Ho & _).
  assert (Hmain : main_of p w scenario (S fuel) = benchmark_of p w scenario (S fuel)).
  { destruct Hp as [-> | ->]; cbn [main_of];
      unfold bench_openblas_ssyev.main, bench_rocsolver_ssyevj_strided_batched.main.
    - change (OpenblasSizes.ssyev_shape scenario) with (Shape 4 4 10 40 1 40).
      cbn [sh_N sh_lda sh_strideA sh_batch_count random_seed scenario].
      rewrite EhA. reflexivity.
    - change (RocsolverSizes.ssyevj_shape scenario) with (Shape 4 4 10 40 1 40).
      cbn [sh_N sh_lda sh_strideA sh_batch_count random_seed scenario].
      rewrite EhA'. unfold benchmark_of. cbn [setup_of].
      rewrite preceded_by_nil. reflexivity. }
  rewrite Hmain. unfold benchmark_of, run_benchmark.
  change (warmup_time scenario) with 0. rewrite Hwarm. cbn [preceded_by].
  eexists _, (avg_time [timer w 0]). split; [reflexivity|].
  rewrite Ho, timed_loop_spec.
  change (Z.to_nat (iterations scenario)) with 1%nat.
  cbn [seq map concat timings timed_out].
  split; [|split; [|split; [|split; [reflexivity|]]]].
  - change ("Matrix size: 4 x 4" ++ nl)%string
      with (render (fmt_float w) (Printf ("Matrix size: %d x %d" ++ nl) [ArgInt 4; ArgInt 4])).
    rewrite (app_assoc (setup_of p)).
    apply In_report_stdout; [reflexivity|].
    destruct Hp as [-> | ->]; cbn; tauto.
  - change ("Batch count: 1" ++ nl)%string
      with (render (fmt_float w) (Printf ("Batch count: %d" ++ nl) [ArgInt 1])).
    rewrite (app_assoc (setup_of p)).
    apply In_report_stdout; [reflexivity|].
    destruct Hp as [-> | ->]; cbn; tauto.
  - rewrite !List.filter_app.
    destruct Hp as [-> | ->]; cbn [warmup_action_of timed_action_of setup_of report_of];
      unfold bench_openblas_ssyev.warmup_action, bench_openblas_ssyev.timed_action,
        bench_rocsolver_ssyevj_strided_batched.action;
      rewrite ?filter_average_action, ?filter_average_rocsolver; reflexivity.
  - apply avg_time_single_nonneg, Htimer.
Qed.

Lemma C9_end_to_end_witness :
  exists out avg,
    main_of openblas_ssyev sample_world scenario 1 = Exit 0 out /\
    In ("Matrix size: 4 x 4" ++ nl)%string (stdout (fmt_float sample_world) out) /\
    In ("Batch count: 1" ++ nl)%string (stdout (fmt_float sample_world) out) /\
    List.filter is_average out
      = [Printf ("Average execution time: %.3f ms" ++ nl) [ArgFloat avg]] /\
    avg = avg_time [timer sample_world 0] /\
    Float.nonneg avg = true.
Proof.
  exact (C9_end_to_end openblas_ssyev sample_world 0 (or_introl eq_refl) eq_refl eq_refl).
Defined.

(** the mean of that run is the one sample, a quarter of a millisecond *)
Example scenario_mean : avg_time [timer sample_world 0] = quarter.
Proof. vm_compute. reflexivity. Qed.

(* ===================================================================== *)
(** * Further properties of the generators *)
(* ===================================================================== *)

(** ** Loops that count their draws *)

Section Counted.
Context {G L F : Type} `{Countable L}.

Lemma triple_for_int_counted (lo hi : Z) (body : Z -> Gen G L F unit)
    (Inv : Z -> gstate G L F -> Prop) :
  lo <= hi ->
  (forall x, lo <= x < hi -> triple (Inv x) (body x) (fun _ => Inv (x + 1))) ->
  triple (Inv lo) (for_int lo hi body) (fun _ => Inv hi).
Proof.
  intros Hle Hbody. unfold for_int.
  remember (Z.to_nat (hi - lo)) as k eqn:Ek. revert lo Hle Hbody Ek.
  induction k as [|k IH]; intros lo Hle Hbody Ek.
  - assert (hi = lo) as -> by lia. rewrite seqZ_nil by lia. apply triple_ret.
  - rewrite seqZ_cons by lia. cbn [for_each].
    apply triple_bind with (Q := fun _ => Inv (lo + 1)).
    + apply Hbody. lia.
    + intros _. replace (Z.succ lo) with (lo + 1) by lia.
      replace (Z.pred (hi - lo)) with (hi - (lo + 1)) by lia.
      apply IH; [lia| |lia]. intros x Hx. apply Hbody. lia.
Qed.

Lemma triple_ext {A : Type} (P : gstate G L F -> Prop) (m m' : Gen G L F A) Q :
  (forall s, m s = m' s) -> triple P m Q -> triple P m' Q.
Proof.
  intros E Hm s Hs. destruct (Hm s Hs) as (a & s' & Em & Hq).
  exists a, s'. rewrite <- E. auto.
Qed.

Lemma bind_assoc {A B C : Type} (m : Gen G L F A) (f : A -> Gen G L F B)
    (g : B -> Gen G L F C) s :
  bind (bind m f) g s = bind m (fun x => bind (f x) g) s.
Proof. unfold bind. destruct (m s) as [[a s']|]; reflexivity. Qed.

Lemma engine_after_succ (dis : G -> F * G) g c :
  0 <= c ->
  snd (dis (engine_after dis g (Z.to_nat c))) = engine_after dis g (Z.to_nat (c + 1)).
Proof.
  intros Hc. replace (Z.to_nat (c + 1)) with (S (Z.to_nat c)) by lia. reflexivity.
Qed.

End Counted.

(** ** Contents after a general fill *)

Section GeneralContents.
Context {G L F : Type} `{Countable L}.
Variable dis : G -> F * G.
Variable index : Z -> Z -> Z -> L.
Variables M N bc : Z.
Hypothesis Hinj : forall i j b i' j' b',
  0 <= i < M -> 0 <= j < N -> 0 <= b < bc ->
  0 <= i' < M -> 0 <= j' < N -> 0 <= b' < bc ->
  index i j b = index i' j' b' -> i = i' /\ j = j' /\ b = b'.
Hypothesis HM : 0 <= M.
Hypothesis HN : 0 <= N.
Hypothesis Hbc : 0 <= bc.
Variable g0 : G.
Variable m0 : gmap L F.
Hypothesis Hal : allocated index M N bc m0.

Lemma draw_of_element_bounds i j b :
  0 <= i < M -> 0 <= j < N -> 0 <= b < bc ->
  0 <= i * N + j < M * N /\ 0 <= draw_of_element M N i j b < bc * (M * N).
Proof.
  intros Hi Hj Hb. unfold draw_of_element.
  assert (0 <= i * N) by nia.
  assert (i * N + N <= M * N) by nia.
  assert (0 <= b * (M * N)) by nia.
  assert (b * (M * N) + M * N <= bc * (M * N)) by nia.
  lia.
Qed.

Lemma draw_of_element_unique i j b i' j' b' :
  0 <= i < M -> 0 <= j < N -> 0 <= b < bc ->
  0 <= i' < M -> 0 <= j' < N -> 0 <= b' < bc ->
  draw_of_element M N i j b = draw_of_element M N i' j' b' -> i = i' /\ j = j' /\ b = b'.
Proof.
  intros Hi Hj Hb Hi' Hj' Hb' E. unfold draw_of_element in E.
  destruct (draw_of_element_bounds i j b Hi Hj Hb) as [Ho _].
  destruct (draw_of_element_bounds i' j' b' Hi' Hj' Hb') as [Ho' _].
  destruct (quotient_unique (M * N) (i * N + j) b (i' * N + j') b' Ho Ho' ltac:(lia))
    as [Eo ->].
  destruct (quotient_unique N j i j' i' ltac:(lia) ltac:(lia) ltac:(lia)) as [-> ->].
  auto.
Qed.

Lemma filled_at c c' s :
  c = c' -> filled dis index M N bc g0 m0 c s -> filled dis index M N bc g0 m0 c' s.
Proof. intros ->. auto. Qed.

Lemma filled_step i j b :
  0 <= i < M -> 0 <= j < N -> 0 <= b < bc ->
  triple (filled dis index M N bc g0 m0 (draw_of_element M N i j b))
         (v <~ draw dis ;; store (index i j b) v)
         (fun _ => filled dis index M N bc g0 m0 (draw_of_element M N i j b + 1)).
Proof.
  intros Hi Hj Hb s (He & Hd & Hv).
  destruct (draw_of_element_bounds i j b Hi Hj Hb) as [_ Hp].
  unfold bind, draw, store. destruct (dis (engine s)) as [v g] eqn:Ed. cbn [mem engine].
  destruct (proj2 (Hd (index i j b)) (Hal i j b Hi Hj Hb)) as [x Hx]. rewrite Hx.
  eexists tt, _. split; [reflexivity|].
  split; [|split]; cbn [mem engine].
  - rewrite <- engine_after_succ by lia. rewrite <- He, Ed. reflexivity.
  - intros l. rewrite lookup_insert_is_Some, <- Hd.
    destruct (decide (index i j b = l)) as [<-|Hne]; [|tauto].
    split; [intros _; eauto|auto].
  - intros i' j' b' Hi' Hj' Hb' Hlt.
    destruct (decide (index i j b = index i' j' b')) as [E|Hne].
    + apply Hinj in E as (<- & <- & <-); try assumption.
      rewrite lookup_insert_eq. unfold nth_draw. rewrite <- He, Ed. reflexivity.
    + rewrite lookup_insert_ne by exact Hne. apply Hv; try assumption.
      destruct (Z.eq_dec (draw_of_element M N i' j' b') (draw_of_element M N i j b))
        as [E|Hn]; [|lia].
      apply draw_of_element_unique in E as (-> & -> & ->); try assumption. contradiction.
Qed.

Lemma fill_general_filled :
  triple (filled dis index M N bc g0 m0 0) (fill_general dis index M N bc)
         (fun _ => filled dis index M N bc g0 m0 (bc * (M * N))).
Proof.
  unfold fill_general.
  apply (triple_for_int_counted 0 bc _
           (fun b => filled dis index M N bc g0 m0 (b * (M * N))) Hbc).
  intros b Hb.
  apply triple_weaken with (P := filled dis index M N bc g0 m0 (b * (M * N) + 0 * N))
                           (Q := fun _ => filled dis index M N bc g0 m0 (b * (M * N) + M * N)).
  { intros s. apply filled_at. lia. }
  { intros _ s. apply filled_at. lia. }
  apply (triple_for_int_counted 0 M _
           (fun i => filled dis index M N bc g0 m0 (b * (M * N) + i * N)) HM).
  intros i Hi.
  apply triple_weaken with (P := filled dis index M N bc g0 m0 (b * (M * N) + i * N + 0))
                           (Q := fun _ => filled dis index M N bc g0 m0 (b * (M * N) + i * N + N)).
  { intros s. apply filled_at. lia. }
  { intros _ s. apply filled_at. lia. }
  apply (triple_for_int_counted 0 N _
           (fun j => filled dis index M N bc g0 m0 (b * (M * N) + i * N + j)) HN).
  intros j Hj.
  apply triple_weaken with
    (P := filled dis index M N bc g0 m0 (draw_of_element M N i j b))
    (Q := fun _ => filled dis index M N bc g0 m0 (draw_of_element M N i j b + 1)).
  { intros s. apply filled_at. reflexivity. }
  { intros _ s. apply filled_at. unfold draw_of_element. lia. }
  apply (filled_step i j b); assumption.
Qed.

Lemma fill_general_contents :
  holds index (fun i j b => nth_draw dis g0 (draw_of_element M N i j b)) M N bc
        (run (fill_general dis index M N bc) g0 m0).
Proof.
  destruct (fill_general_filled (GState g0 m0)) as ([] & s' & E & _ & _ & Hv).
  { split; [reflexivity|]. split; [reflexivity|]. intros i j b Hi Hj Hb Hlt.
    destruct (draw_of_element_bounds i j b Hi Hj Hb). lia. }
  exists (mem s'). unfold run. rewrite E. split; [reflexivity|].
  intros i j b Hi Hj Hb. apply Hv; try assumption.
  apply draw_of_element_bounds; assumption.
Qed.

End GeneralContents.

(** ** Contents after a symmetric fill *)

Lemma triangle_double i : 2 * (i * (i - 1) / 2) = i * (i - 1).
Proof.
  destruct (Z.Even_or_Odd i) as [[k ->]|[k ->]].
  - replace (2 * k * (2 * k - 1)) with (k * (2 * k - 1) * 2) by lia.
    rewrite Z.div_mul by lia. lia.
  - replace ((2 * k + 1) * (2 * k + 1 - 1)) with (k * (2 * k + 1) * 2) by lia.
    rewrite Z.div_mul by lia. lia.
Qed.

Lemma row_start_double N i : 2 * row_start N i = i * (2 * N - i + 1).
Proof. unfold row_start. pose proof (triangle_double i). lia. Qed.

Lemma row_start_0 N : row_start N 0 = 0.
Proof. reflexivity. Qed.

Lemma row_start_succ N i : row_start N (i + 1) = row_start N i + (N - i).
Proof.
  pose proof (row_start_double N i). pose proof (row_start_double N (i + 1)). lia.
Qed.

Lemma row_start_mono N x y : 0 <= x <= y -> y <= N -> row_start N x <= row_start N y.
Proof.
  intros Hx Hy.
  pose proof (row_start_double N x). pose proof (row_start_double N y). nia.
Qed.

(** a matrix takes N (N + 1) / 2 draws *)
Lemma row_start_total N : row_start N N = N * (N + 1) / 2.
Proof.
  pose proof (row_start_double N N) as H.
  apply Z.div_unique_exact; lia.
Qed.

Section SymmetricContents.
Context {G L F : Type} `{Countable L}.
Variable dis : G -> F * G.
Variable index : Z -> Z -> Z -> L.
Variable scale : F -> F.
Variables N bc : Z.
Hypothesis Hinj : one_cell_each index N bc.
Hypothesis HN : 0 <= N.
Hypothesis Hbc : 0 <= bc.
Variable g0 : G.
Variable m0 : gmap L F.
Hypothesis Hal : allocated index N N bc m0.

Lemma offset_bounds lo hi :
  0 <= lo <= hi -> hi < N ->
  row_start N lo <= row_start N lo + (hi - lo) < row_start N (lo + 1) /\
  0 <= row_start N lo /\ row_start N (lo + 1) <= row_start N N.
Proof.
  intros Hlo Hhi. rewrite row_start_succ.
  pose proof (row_start_mono N 0 lo ltac:(lia) ltac:(lia)) as H0. rewrite row_start_0 in H0.
  pose proof (row_start_mono N (lo + 1) N ltac:(lia) ltac:(lia)) as H1.
  rewrite row_start_succ in H1. lia.
Qed.

Lemma draw_of_pair_bounds i j b :
  0 <= i < N -> 0 <= j < N -> 0 <= b < bc ->
  0 <= draw_of_pair N i j b < bc * row_start N N.
Proof.
  intros Hi Hj Hb. unfold draw_of_pair.
  destruct (offset_bounds (Z.min i j) (Z.max i j) ltac:(lia) ltac:(lia)) as (Ho & H0 & H1).
  assert (0 <= b * row_start N N) by nia.
  assert (b * row_start N N + row_start N N <= bc * row_start N N) by nia.
  lia.
Qed.

Lemma draw_of_pair_unique i j b i' j' b' :
  0 <= i < N -> 0 <= j < N -> 0 <= b < bc ->
  0 <= i' < N -> 0 <= j' < N -> 0 <= b' < bc ->
  draw_of_pair N i j b = draw_of_pair N i' j' b' ->
  b = b' /\ ((i = i' /\ j = j') \/ (i = j' /\ j = i')).
Proof.
  intros Hi Hj Hb Hi' Hj' Hb' E. unfold draw_of_pair in E.
  destruct (offset_bounds (Z.min i j) (Z.max i j) ltac:(lia) ltac:(lia)) as (Ho & H0 & H1).
  destruct (offset_bounds (Z.min i' j') (Z.max i' j') ltac:(lia) ltac:(lia))
    as (Ho' & H0' & H1').
  destruct (quotient_unique (row_start N N)
              (row_start N (Z.min i j) + (Z.max i j - Z.min i j)) b
              (row_start N (Z.min i' j') + (Z.max i' j' - Z.min i' j')) b'
              ltac:(lia) ltac:(lia) ltac:(lia)) as [Eo ->].
  split; [reflexivity|].
  assert (Hmin : Z.min i j = Z.min i' j').
  { destruct (Z.lt_trichotomy (Z.min i j) (Z.min i' j')) as [Hlt|[Heq|Hgt]]; [|exact Heq|].
    - pose proof (row_start_mono N (Z.min i j + 1) (Z.min i' j') ltac:(lia) ltac:(lia)). lia.
    - pose proof (row_start_mono N (Z.min i' j' + 1) (Z.min i j) ltac:(lia) ltac:(lia)). lia. }
  rewrite Hmin in Eo. lia.
Qed.

Lemma draw_of_pair_sym i j b : draw_of_pair N i j b = draw_of_pair N j i b.
Proof. unfold draw_of_pair. rewrite (Z.min_comm j i), (Z.max_comm j i). reflexivity. Qed.

Lemma sfilled_at c c' s :
  c = c' -> sfilled dis index scale N bc g0 m0 c s -> sfilled dis index scale N bc g0 m0 c' s.
Proof. intros ->. auto. Qed.

Lemma sfilled_diag i b :
  0 <= i < N -> 0 <= b < bc ->
  triple (sfilled dis index scale N bc g0 m0 (draw_of_pair N i i b))
         (d <~ draw dis ;; store (index i i b) (scale d))
         (fun _ => sfilled dis index scale N bc g0 m0 (draw_of_pair N i i b + 1)).
Proof.
  intros Hi Hb s (He & Hd & Hv).
  pose proof (draw_of_pair_bounds i i b Hi Hi Hb) as Hp.
  unfold bind, draw, store. destruct (dis (engine s)) as [v g] eqn:Ed. cbn [mem engine].
  destruct (proj2 (Hd (index i i b)) (Hal i i b Hi Hi Hb)) as [x Hx]. rewrite Hx.
  eexists tt, _. split; [reflexivity|].
  split; [|split]; cbn [mem engine].
  - rewrite <- engine_after_succ by lia. rewrite <- He, Ed. reflexivity.
  - intros l. rewrite lookup_insert_is_Some, <- Hd.
    destruct (decide (index i i b = l)) as [<-|Hne]; [|tauto].
    split; [intros _; eauto|auto].
  - intros i' j' b' Hi' Hj' Hb' Hlt.
    destruct (decide (index i i b = index i' j' b')) as [E|Hne].
    + apply Hinj in E as (<- & <- & <-); try assumption.
      rewrite lookup_insert_eq. unfold pair_value, nth_draw. rewrite Z.eqb_refl.
      rewrite <- He, Ed. reflexivity.
    + rewrite lookup_insert_ne by exact Hne. apply Hv; try assumption.
      destruct (Z.eq_dec (draw_of_pair N i' j' b') (draw_of_pair N i i b)) as [E|Hn]; [|lia].
      apply draw_of_pair_unique in E as (-> & [[-> ->]|[-> ->]]); try assumption;
        contradiction.
Qed.

Lemma sfilled_pair i j b :
  0 <= i < N -> i < j < N -> 0 <= b < bc ->
  triple (sfilled dis index scale N bc g0 m0 (draw_of_pair N i j b))
         (value <~ draw dis ;; store (index i j b) value ;;; store (index j i b) value)
         (fun _ => sfilled dis index scale N bc g0 m0 (draw_of_pair N i j b + 1)).
Proof.
  intros Hi Hj Hb s (He & Hd & Hv).
  assert (Hj' : 0 <= j < N) by lia.
  pose proof (draw_of_pair_bounds i j b Hi Hj' Hb) as Hp.
  unfold bind, draw, store. destruct (dis (engine s)) as [v g] eqn:Ed. cbn [mem engine].
  destruct (proj2 (Hd (index i j b)) (Hal i j b Hi Hj' Hb)) as [x Hx]. rewrite Hx.
  cbn [mem engine].
  assert (Hs2 : is_Some ((<[index i j b := v]> (mem s)) !! index j i b)).
  { apply lookup_insert_is_Some'. right. apply Hd, Hal; assumption. }
  destruct Hs2 as [y Hy]. rewrite Hy.
  eexists tt, _. split; [reflexivity|].
  split; [|split]; cbn [mem engine].
  - rewrite <- engine_after_succ by lia. rewrite <- He, Ed. reflexivity.
  - intros l. rewrite !lookup_insert_is_Some, <- Hd.
    split.
    + intros [<-|[_ [<-|[_ Hl]]]]; [| |exact Hl]; apply Hd, Hal; assumption.
    + intros Hl. destruct (decide (index j i b = l)) as [?|?]; [tauto|].
      destruct (decide (index i j b = l)) as [?|?]; tauto.
  - intros i' j0 b' Hi' Hj0 Hb' Hlt.
    assert (Hv0 : v = nth_draw dis g0 (draw_of_pair N i j b)).
    { unfold nth_draw. rewrite <- He, Ed. reflexivity. }
    destruct (decide (index j i b = index i' j0 b')) as [E|Hn1].
    { apply Hinj in E as (<- & <- & <-); try assumption.
      rewrite lookup_insert_eq. unfold pair_value.
      destruct (Z.eqb_spec j i); [lia|]. rewrite (draw_of_pair_sym j i b). congruence. }
    rewrite lookup_insert_ne by exact Hn1.
    destruct (decide (index i j b = index i' j0 b')) as [E|Hn2].
    { apply Hinj in E as (<- & <- & <-); try assumption.
      rewrite lookup_insert_eq. unfold pair_value.
      destruct (Z.eqb_spec i j); [lia|]. congruence. }
    rewrite lookup_insert_ne by exact Hn2. apply Hv; try assumption.
    destruct (Z.eq_dec (draw_of_pair N i' j0 b') (draw_of_pair N i j b)) as [E|Hn]; [|lia].
    apply draw_of_pair_unique in E as (-> & [[-> ->]|[-> ->]]); try assumption;
      contradiction.
Qed.

Lemma fill_symmetric_sfilled :
  triple (sfilled dis index scale N bc g0 m0 0) (fill_symmetric dis index scale N bc)
         (fun _ => sfilled dis index scale N bc g0 m0 (bc * row_start N N)).
Proof.
  unfold fill_symmetric.
  apply (triple_for_int_counted 0 bc _
           (fun b => sfilled dis index scale N bc g0 m0 (b * row_start N N)) Hbc).
  intros b Hb.
  apply triple_weaken with
    (P := sfilled dis index scale N bc g0 m0 (b * row_start N N + row_start N 0))
    (Q := fun _ => sfilled dis index scale N bc g0 m0 (b * row_start N N + row_start N N)).
  { intros s. apply sfilled_at. rewrite row_start_0. lia. }
  { intros _ s. apply sfilled_at. lia. }
  apply (triple_for_int_counted 0 N _
           (fun i => sfilled dis index scale N bc g0 m0 (b * row_start N N + row_start N i)) HN).
  intros i Hi.
  assert (Hii : draw_of_pair N i i b = b * row_start N N + row_start N i).
  { unfold draw_of_pair. rewrite Z.min_id, Z.max_id. lia. }
  eapply triple_ext; [intros s; apply bind_assoc|].
  apply triple_bind with
    (Q := fun _ => sfilled dis index scale N bc g0 m0 (draw_of_pair N i i b + 1)).
  { apply triple_weaken with
      (P := sfilled dis index scale N bc g0 m0 (draw_of_pair N i i b))
      (Q := fun _ => sfilled dis index scale N bc g0 m0 (draw_of_pair N i i b + 1)).
    - intros s. apply sfilled_at. symmetry. exact Hii.
    - auto.
    - apply sfilled_diag; assumption. }
  intros _.
  apply triple_weaken with
    (P := sfilled dis index scale N bc g0 m0 (b * row_start N N + row_start N i + (i + 1 - i)))
    (Q := fun _ => sfilled dis index scale N bc g0 m0
                     (b * row_start N N + row_start N i + (N - i))).
  { intros s. apply sfilled_at. rewrite Hii. lia. }
  { intros _ s. apply sfilled_at. rewrite row_start_succ. lia. }
  apply (triple_for_int_counted (i + 1) N _
           (fun j => sfilled dis index scale N bc g0 m0
                       (b * row_start N N + row_start N i + (j - i))) ltac:(lia)).
  intros j Hj.
  assert (Hij : draw_of_pair N i j b = b * row_start N N + row_start N i + (j - i)).
  { unfold draw_of_pair. rewrite Z.min_l, Z.max_r by lia. lia. }
  apply triple_weaken with
    (P := sfilled dis index scale N bc g0 m0 (draw_of_pair N i j b))
    (Q := fun _ => sfilled dis index scale N bc g0 m0 (draw_of_pair N i j b + 1)).
  { intros s. apply sfilled_at. symmetry. exact Hij. }
  { intros _ s. apply sfilled_at. rewrite Hij. lia. }
  apply sfilled_pair; try assumption; lia.
Qed.

Lemma fill_symmetric_contents :
  holds index (pair_value dis scale g0 N) N N bc
        (run (fill_symmetric dis index scale N bc) g0 m0).
Proof.
  destruct (fill_symmetric_sfilled (GState g0 m0)) as ([] & s' & E & _ & _ & Hv).
  { split; [reflexivity|]. split; [reflexivity|]. intros i j b Hi Hj Hb Hlt.
    pose proof (draw_of_pair_bounds i j b Hi Hj Hb). lia. }
  exists (mem s'). unfold run. rewrite E. split; [reflexivity|].
  intros i j b Hi Hj Hb. apply Hv; try assumption.
  apply draw_of_pair_bounds; assumption.
Qed.

End SymmetricContents.

(** ** The six generators, element by element *)

Lemma holds_cells {L F : Type} `{Countable L} (cell cell' : Z -> Z -> Z -> L)
    (value : Z -> Z -> Z -> F) M N bc r :
  (forall i j b, 0 <= i < M -> 0 <= j < N -> 0 <= b < bc -> cell i j b = cell' i j b) ->
  holds cell value M N bc r -> holds cell' value M N bc r.
Proof.
  intros Hc (hA & -> & Hv). exists hA. split; [reflexivity|].
  intros i j b Hi Hj Hb. rewrite <- Hc by assumption. apply Hv; assumption.
Qed.

Lemma strided_index_unique elem M N lda strideA bc (index : Z -> Z -> Z -> Z) :
  layout elem M N lda strideA bc ->
  (forall i j b, 0 <= i < M -> 0 <= j < N -> 0 <= b < bc ->
     index i j b = flat lda strideA i j b) ->
  forall i j b i' j' b',
    0 <= i < M -> 0 <= j < N -> 0 <= b < bc ->
    0 <= i' < M -> 0 <= j' < N -> 0 <= b' < bc ->
    index i j b = index i' j' b' -> i = i' /\ j = j' /\ b = b'.
Proof.
  intros Hlay Hindex i j b i' j' b' Hi Hj Hb Hi' Hj' Hb' E.
  rewrite !Hindex in E by assumption.
  destruct Hlay as (HM & HN & _ & _ & Hfit & _).
  apply (flat_unique M N lda strideA i j b i' j' b'); try assumption; lia.
Qed.

Lemma batched_index_unique M N lda bc :
  layout sizeof_double M N lda (lda * N) bc ->
  forall i j b i' j' b',
    0 <= i < M -> 0 <= j < N -> 0 <= b < bc ->
    0 <= i' < M -> 0 <= j' < N -> 0 <= b' < bc ->
    index_batched lda i j b = index_batched lda i' j' b' -> i = i' /\ j = j' /\ b = b'.
Proof.
  intros Hlay i j b i' j' b' Hi Hj Hb Hi' Hj' Hb' E.
  rewrite !(batched_index M N lda bc Hlay) in E by assumption.
  injection E as -> E.
  destruct Hlay as (HM & _).
  destruct (quotient_unique lda i j i' j' ltac:(lia) ltac:(lia) E) as [-> ->]. auto.
Qed.

Section StridedContents.
Context {G : Type}.
Variables elem M N lda strideA batch_count : Z.
Hypothesis Helem : 1 <= elem.
Hypothesis Hlay : layout elem M N lda strideA batch_count.
Variable index : Z -> Z -> Z -> Z.
Hypothesis Hindex : forall i j b,
  0 <= i < M -> 0 <= j < N -> 0 <= b < batch_count ->
  index i j b = flat lda strideA i j b.
Variable dis : G -> spec_float * G.
Variable stale : Z -> spec_float.

Lemma general_contents_strided g :
  holds (flat lda strideA) (fun i j b => nth_draw dis g (draw_of_element M N i j b))
        M N batch_count
        (run (fill_general dis index M N batch_count) g
             (malloc stale (size_mul (size_mul elem strideA) batch_count / elem))).
Proof.
  rewrite malloc_count by (unfold layout in Hlay; lia).
  apply (holds_cells index); [exact Hindex|].
  apply fill_general_contents; try (unfold layout in Hlay; lia).
  - apply (strided_index_unique elem M N lda strideA batch_count); assumption.
  - apply (malloc_allocated elem M N lda strideA batch_count); assumption.
Qed.

End StridedContents.

Section SquareContents.
Context {G : Type}.
Variables elem N lda strideA batch_count : Z.
Hypothesis Helem : 1 <= elem.
Hypothesis Hlay : layout elem N N lda strideA batch_count.
Variable index : Z -> Z -> Z -> Z.
Hypothesis Hindex : forall i j b,
  0 <= i < N -> 0 <= j < N -> 0 <= b < batch_count ->
  index i j b = flat lda strideA i j b.
Variable dis : G -> spec_float * G.
Variable scale : spec_float -> spec_float.
Variable stale : Z -> spec_float.

Lemma symmetric_contents_strided g :
  holds (flat lda strideA) (pair_value dis scale g N) N N batch_count
        (run (fill_symmetric dis index scale N batch_count) g
             (malloc stale (size_mul (size_mul elem strideA) batch_count / elem))).
Proof.
  rewrite malloc_count by (unfold layout in Hlay; lia).
  apply (holds_cells index); [exact Hindex|].
  apply fill_symmetric_contents; try (unfold layout in Hlay; lia).
  - apply (index_one_cell_each elem N lda strideA batch_count); assumption.
  - apply (malloc_allocated elem N N lda strideA batch_count); assumption.
Qed.

End SquareContents.

Lemma general_contents_batched {G : Type} (dis : G -> spec_float * G)
    (stale : Z -> Z -> spec_float) M N lda batch_count g :
  layout sizeof_double M N lda (lda * N) batch_count ->
  holds (fun i j b => (b, i + j * lda))
        (fun i j b => nth_draw dis g (draw_of_element M N i j b)) M N batch_count
        (run (fill_general dis (index_batched lda) M N batch_count) g
             (malloc_each stale batch_count
                (size_mul (size_mul sizeof_double lda) N / sizeof_double))).
Proof.
  intros Hlay.
  rewrite malloc_count by (unfold layout, sizeof_double, INT_MAX in *; lia).
  apply (holds_cells (index_batched lda)).
  { intros i j b Hi Hj _. apply (batched_index M N lda batch_count Hlay); assumption. }
  apply fill_general_contents; try (unfold layout in Hlay; lia).
  - apply batched_index_unique, Hlay.
  - apply malloc_each_allocated, Hlay.
Qed.

(** X1. The general generators fill matrix after matrix and, inside a
    matrix, row after row: element (i, j) of matrix b holds draw number
    b * (M * N) + i * N + j of the distribution, whatever the leading
    dimension and the stride.  This holds for the two SVD generators, for
    the strided QR generator and for the pointer-batched QR generator. *)
Theorem X1_general_generators_contents {G : Type} (w : world G)
    (M N lda strideA batch_count random_seed : Z) :
  (layout sizeof_float M N lda strideA batch_count ->
     let value i j b :=
       nth_draw (dis_float w) (mt19937 w random_seed) (draw_of_element M N i j b) in
     holds (flat lda strideA) value M N batch_count
       (bench_openblas_sgesvdj_strided_batched.create_matrices_for_sgesvdj_strided_batched
          w M N lda strideA batch_count random_seed) /\
     holds (flat lda strideA) value M N batch_count
       (bench_rocsolver_sgesvdj_strided_batched.create_matrices_for_sgesvdj_strided_batched
          w M N lda strideA batch_count random_seed)) /\
  (layout sizeof_double M N lda strideA batch_count ->
     holds (flat lda strideA)
       (fun i j b =>
          nth_draw (dis_double w) (mt19937 w random_seed) (draw_of_element M N i j b))
       M N batch_count
       (bench_rocsolver_dgeqrf_strided_batched.create_example_matrices
          w M N lda strideA batch_count random_seed)) /\
  (layout sizeof_double M N lda (lda * N) batch_count ->
     holds (fun i j b => (b, i + j * lda))
       (fun i j b =>
          nth_draw (dis_double w) (mt19937 w random_seed) (draw_of_element M N i j b))
       M N batch_count
       (bench_rocsolver_dgeqrf_batched.create_example_matrices
          w M N lda batch_count random_seed)).
Proof.
  split; [|split].
  - intros Hlay value. split.
    + apply (general_contents_strided sizeof_float M N lda strideA batch_count);
        [unfold sizeof_float; lia|exact Hlay|].
      intros i j b Hi Hj Hb.
      apply (index_size_t_flat sizeof_float M N lda strideA batch_count);
        [unfold sizeof_float; lia|assumption..].
    + apply (general_contents_strided sizeof_float M N lda strideA batch_count);
        [unfold sizeof_float; lia|exact Hlay|].
      intros i j b Hi Hj Hb.
      apply (index_int64_flat sizeof_float M N lda strideA batch_count);
        [unfold sizeof_float; lia|assumption..].
  - intros Hlay.
    apply (general_contents_strided sizeof_double M N lda strideA batch_count);
      [unfold sizeof_double; lia|exact Hlay|].
    intros i j b Hi Hj Hb.
    apply (index_int64_flat sizeof_double M N lda strideA batch_count);
      [unfold sizeof_double; lia|assumption..].
  - intros Hlay. apply general_contents_batched, Hlay.
Qed.

Lemma X1_general_generators_contents_witness :
  exists hA,
    bench_rocsolver_dgeqrf_strided_batched.create_example_matrices sample_world 3 2 4 10 2 42
    = Some hA /\
    hA !! flat 4 10 2 1 1 = Some (nth_draw (dis_double sample_world) 42 11).
Proof.
  assert (Hlay : layout sizeof_double 3 2 4 10 2)
    by (unfold layout, sizeof_double, INT_MAX; lia).
  destruct (X1_general_generators_contents sample_world 3 2 4 10 2 42)
    as (_ & Hd & _).
  destruct (Hd Hlay) as (hA & E & Hv).
  exists hA. split; [exact E|].
  exact (Hv 2 1 1 ltac:(lia) ltac:(lia) ltac:(lia)).
Defined.

(** X2. The symmetric generators draw, for every matrix and every row i,
    the diagonal element and then the elements (i, i+1), ..., (i, N-1):
    the pair (i, j), (j, i) of matrix b holds draw number
    b * T + row_start i + (j - i), T = N (N + 1) / 2 draws per matrix, and
    a diagonal element holds ten times its draw, the product taken in
    double precision. *)
Theorem X2_symmetric_generators_contents {G : Type} (w : world G)
    (N lda strideA batch_count random_seed : Z) :
  layout sizeof_float N N lda strideA batch_count ->
  let value := pair_value (dis_float w) Float.times_ten (mt19937 w random_seed) N in
  holds (flat lda strideA) value N N batch_count
    (bench_openblas_ssyev.create_matrices w N lda strideA batch_count random_seed) /\
  holds (flat lda strideA) value N N batch_count
    (bench_rocsolver_ssyevj_strided_batched.create_symmetric_matrices
       w N lda strideA batch_count random_seed) /\
  row_start N N = N * (N + 1) / 2 /\
  (forall i j b, 0 <= i -> i < j ->
     draw_of_pair N i i b = b * row_start N N + row_start N i /\
     draw_of_pair N i j b = draw_of_pair N i i b + (j - i) /\
     draw_of_pair N j i b = draw_of_pair N i j b /\
     value i i b = Float.times_ten
                     (nth_draw (dis_float w) (mt19937 w random_seed) (draw_of_pair N i i b)) /\
     value i j b = nth_draw (dis_float w) (mt19937 w random_seed) (draw_of_pair N i j b) /\
     value j i b = value i j b).
Proof.
  intros Hlay value. split; [|split; [|split]].
  - apply (symmetric_contents_strided sizeof_float N lda strideA batch_count);
      [unfold sizeof_float; lia|exact Hlay|].
    intros i j b Hi Hj Hb.
    apply (index_size_t_flat sizeof_float N N lda strideA batch_count);
      [unfold sizeof_float; lia|assumption..].
  - apply (symmetric_contents_strided sizeof_float N lda strideA batch_count);
      [unfold sizeof_float; lia|exact Hlay|].
    intros i j b Hi Hj Hb.
    apply (index_int64_flat sizeof_float N N lda strideA batch_count);
      [unfold sizeof_float; lia|assumption..].
  - apply row_start_total.
  - intros i j b Hi Hij. unfold value, pair_value, draw_of_pair.
    rewrite Z.eqb_refl. rewrite (Z.min_id i), (Z.max_id i).
    rewrite (Z.min_l i j), (Z.max_r i j), (Z.min_r j i), (Z.max_l j i) by lia.
    destruct (Z.eqb_spec i j); [lia|]. destruct (Z.eqb_spec j i); [lia|].
    repeat split; lia.
Qed.

Lemma X2_symmetric_generators_contents_witness :
  exists hA,
    bench_openblas_ssyev.create_matrices sample_world 3 4 12 2 42 = Some hA /\
    hA !! flat 4 12 2 1 1
    = Some (nth_draw (dis_float sample_world) 42 (draw_of_pair 3 2 1 1)) /\
    draw_of_pair 3 2 1 1 = 10.
Proof.
  assert (Hlay : layout sizeof_float 3 3 4 12 2)
    by (unfold layout, sizeof_float, INT_MAX; lia).
  destruct (X2_symmetric_generators_contents sample_world 3 4 12 2 42 Hlay)
    as ((hA & E & Hv) & _).
  exists hA. split; [exact E|]. split; [|reflexivity].
  exact (Hv 2 1 1 ltac:(lia) ltac:(lia) ltac:(lia)).
Defined.

(** ** The same loops with another index expression *)

Section SameLoops.
Context {G L F : Type} `{Countable L}.

Lemma bind_ext {A B : Type} (m m' : Gen G L F A) (k k' : A -> Gen G L F B) s :
  (forall s0, m s0 = m' s0) -> (forall a s0, k a s0 = k' a s0) ->
  bind m k s = bind m' k' s.
Proof.
  intros Em Ek. unfold bind. rewrite Em. destruct (m' s) as [[a s']|]; auto.
Qed.

Lemma for_each_ext (xs : list Z) (body body' : Z -> Gen G L F unit) s :
  (forall x s0, x ∈ xs -> body x s0 = body' x s0) ->
  for_each xs body s = for_each xs body' s.
Proof.
  revert s. induction xs as [|x xs IH]; intros s Hb; cbn [for_each]; [reflexivity|].
  apply bind_ext.
  - intros s0. apply Hb, list_elem_of_here.
  - intros _ s0. apply IH. intros y s1 Hy. apply Hb, list_elem_of_further, Hy.
Qed.

Lemma for_int_ext (lo hi : Z) (body body' : Z -> Gen G L F unit) s :
  (forall x s0, lo <= x < hi -> body x s0 = body' x s0) ->
  for_int lo hi body s = for_int lo hi body' s.
Proof.
  intros Hb. apply for_each_ext. intros x s0 Hx.
  apply elem_of_seqZ in Hx. apply Hb. lia.
Qed.

Variable dis : G -> F * G.
Variables index index' : Z -> Z -> Z -> L.

Lemma fill_general_ext M N bc s :
  (forall i j b, 0 <= i < M -> 0 <= j < N -> 0 <= b < bc -> index i j b = index' i j b) ->
  fill_general dis index M N bc s = fill_general dis index' M N bc s.
Proof.
  intros Hi. unfold fill_general.
  apply for_int_ext. intros b s0 Hb.
  apply for_int_ext. intros i s1 Hi1.
  apply for_int_ext. intros j s2 Hj.
  rewrite Hi by assumption. reflexivity.
Qed.

Lemma fill_symmetric_ext (scale : F -> F) N bc s :
  (forall i j b, 0 <= i < N -> 0 <= j < N -> 0 <= b < bc -> index i j b = index' i j b) ->
  fill_symmetric dis index scale N bc s = fill_symmetric dis index' scale N bc s.
Proof.
  intros Hi. unfold fill_symmetric.
  apply for_int_ext. intros b s0 Hb.
  apply for_int_ext. intros i s1 Hi1.
  apply bind_ext; [reflexivity|]. intros d s2.
  apply bind_ext; [intros s3; rewrite Hi by assumption; reflexivity|]. intros _ s3.
  apply for_int_ext. intros j s4 Hj.
  apply bind_ext; [reflexivity|]. intros value s5.
  rewrite !(Hi i j b), !(Hi j i b) by (assumption || lia). reflexivity.
Qed.

End SameLoops.

(** X3. The CPU and the GPU program of a routine family are given the same
    input: for the same dimensions, stride, batch count and seed the two
    SVD generators return the same buffer, cell by cell, and so do the two
    symmetric generators; the two QR generators put the same value at
    element (i, j) of matrix b, in one buffer and in separate allocations. *)
Theorem X3_generators_agree {G : Type} (w : world G)
    (M N lda strideA batch_count random_seed : Z) :
  (layout sizeof_float M N lda strideA batch_count ->
     bench_openblas_sgesvdj_strided_batched.create_matrices_for_sgesvdj_strided_batched
       w M N lda strideA batch_count random_seed
     = bench_rocsolver_sgesvdj_strided_batched.create_matrices_for_sgesvdj_strided_batched
         w M N lda strideA batch_count random_seed) /\
  (layout sizeof_float N N lda strideA batch_count ->
     bench_openblas_ssyev.create_matrices w N lda strideA batch_count random_seed
     = bench_rocsolver_ssyevj_strided_batched.create_symmetric_matrices
         w N lda strideA batch_count random_seed) /\
  (layout sizeof_double M N lda strideA batch_count ->
   layout sizeof_double M N lda (lda * N) batch_count ->
     exists hA hB,
       bench_rocsolver_dgeqrf_strided_batched.create_example_matrices
         w M N lda strideA batch_count random_seed = Some hA /\
       bench_rocsolver_dgeqrf_batched.create_example_matrices
         w M N lda batch_count random_seed = Some hB /\
       forall i j b, 0 <= i < M -> 0 <= j < N -> 0 <= b < batch_count ->
         hA !! flat lda strideA i j b = hB !! (b, i + j * lda)).
Proof.
  split; [|split].
  - intros Hlay.
    unfold bench_openblas_sgesvdj_strided_batched.create_matrices_for_sgesvdj_strided_batched,
      bench_rocsolver_sgesvdj_strided_batched.create_matrices_for_sgesvdj_strided_batched, run.
    rewrite (fill_general_ext (dis_float w) (index_size_t lda strideA) (index_int64 lda strideA));
      [reflexivity|].
    intros i j b Hi Hj Hb.
    rewrite (index_size_t_flat sizeof_float M N lda strideA batch_count),
      (index_int64_flat sizeof_float M N lda strideA batch_count);
      try assumption; try reflexivity; unfold sizeof_float; lia.
  - intros Hlay.
    unfold bench_openblas_ssyev.create_matrices,
      bench_rocsolver_ssyevj_strided_batched.create_symmetric_matrices, run.
    rewrite (fill_symmetric_ext (dis_float w) (index_size_t lda strideA)
               (index_int64 lda strideA));
      [reflexivity|].
    intros i j b Hi Hj Hb.
    rewrite (index_size_t_flat sizeof_float N N lda strideA batch_count),
      (index_int64_flat sizeof_float N N lda strideA batch_count);
      try assumption; try reflexivity; unfold sizeof_float; lia.
  - intros Hs Hb.
    destruct (general_contents_strided sizeof_double M N lda strideA batch_count
                ltac:(unfold sizeof_double; lia) Hs (index_int64 lda strideA)
                (fun i j b Hi Hj Hb' =>
                   index_int64_flat sizeof_double M N lda strideA batch_count
                     ltac:(unfold sizeof_double; lia) Hs i j b Hi Hj Hb')
                (dis_double w) (stale w 0) (mt19937 w random_seed))
      as (hA & EA & HA).
    destruct (general_contents_batched (dis_double w) (stale w) M N lda batch_count
                (mt19937 w random_seed) Hb) as (hB & EB & HB).
    exists hA, hB. split; [exact EA|]. split; [exact EB|].
    intros i j b Hi Hj Hb'. rewrite HA, HB by assumption. reflexivity.
Qed.

Lemma X3_generators_agree_witness :
  bench_openblas_ssyev.create_matrices sample_world 3 4 12 2 42
  = bench_rocsolver_ssyevj_strided_batched.create_symmetric_matrices sample_world 3 4 12 2 42.
Proof.
  refine (proj1 (proj2 (X3_generators_agree sample_world 3 3 4 12 2 42)) _).
  unfold layout, sizeof_float, INT_MAX. lia.
Defined.

(** ** Strides that are too small *)

Section Undefined.
Context {G L F : Type} `{Countable L}.

Lemma keeps_cells_ret {A : Type} (a : A) : keeps_cells (ret a : Gen G L F A).
Proof. intros s a' s' [= _ <-]. reflexivity. Qed.

Lemma keeps_cells_draw (dis : G -> F * G) : keeps_cells (draw dis : Gen G L F F).
Proof.
  intros s a s'. unfold draw. destruct (dis (engine s)) as [v g].
  intros [= _ <-]. reflexivity.
Qed.

Lemma keeps_cells_store l (v : F) : keeps_cells (store l v : Gen G L F unit).
Proof.
  intros s a s'. unfold store. destruct (mem s !! l) as [x|] eqn:E; [|discriminate].
  intros [= _ <-] l'. cbn [mem]. rewrite lookup_insert_is_Some.
  destruct (decide (l = l')) as [<-|Hne]; [|tauto].
  rewrite E. split; eauto.
Qed.

Lemma keeps_cells_bind {A B : Type} (m : Gen G L F A) (k : A -> Gen G L F B) :
  keeps_cells m -> (forall a, keeps_cells (k a)) -> keeps_cells (bind m k).
Proof.
  intros Hm Hk s b s''. unfold bind. destruct (m s) as [[a s']|] eqn:Em; [|discriminate].
  intros Ek l. rewrite (Hk a s' b s'' Ek l). apply (Hm s a s' Em).
Qed.

Lemma keeps_cells_for_each (xs : list Z) (body : Z -> Gen G L F unit) :
  (forall x, keeps_cells (body x)) -> keeps_cells (for_each xs body).
Proof.
  intros Hb. induction xs as [|x xs IH]; cbn [for_each].
  - apply keeps_cells_ret.
  - apply keeps_cells_bind; [apply Hb|intros _; exact IH].
Qed.

Lemma keeps_cells_for_int lo hi (body : Z -> Gen G L F unit) :
  (forall x, keeps_cells (body x)) -> keeps_cells (for_int lo hi body).
Proof. apply keeps_cells_for_each. Qed.

Lemma undefined_store (m0 : gmap L F) l (v : F) :
  m0 !! l = None -> undefined_on m0 (store l v : Gen G L F unit).
Proof.
  intros Hl s Hs. unfold store.
  destruct (mem s !! l) as [x|] eqn:E; [|reflexivity].
  assert (Hx : is_Some (m0 !! l)) by (apply Hs; rewrite E; eauto).
  rewrite Hl in Hx. destruct Hx as [? Hx]. discriminate Hx.
Qed.

Lemma undefined_bind_l {A B : Type} (m0 : gmap L F) (m : Gen G L F A) (k : A -> Gen G L F B) :
  undefined_on m0 m -> undefined_on m0 (bind m k).
Proof. intros Hm s Hs. unfold bind. rewrite (Hm s Hs). reflexivity. Qed.

Lemma undefined_bind_r {A B : Type} (m0 : gmap L F) (m : Gen G L F A) (k : A -> Gen G L F B) :
  keeps_cells m -> (forall a, undefined_on m0 (k a)) -> undefined_on m0 (bind m k).
Proof.
  intros Hm Hk s Hs. unfold bind. destruct (m s) as [[a s']|] eqn:Em; [|reflexivity].
  apply Hk. intros l. rewrite (Hm s a s' Em l). apply Hs.
Qed.

Lemma undefined_for_each (m0 : gmap L F) (xs : list Z) (body : Z -> Gen G L F unit) x0 :
  (forall x, keeps_cells (body x)) -> x0 ∈ xs -> undefined_on m0 (body x0) ->
  undefined_on m0 (for_each xs body).
Proof.
  intros Hk Hin Hx0. induction xs as [|x xs IH]; [inversion Hin|].
  cbn [for_each]. apply elem_of_cons in Hin as [<-|Hin].
  - apply undefined_bind_l, Hx0.
  - apply undefined_bind_r; [apply Hk|intros _; apply IH, Hin].
Qed.

Lemma undefined_for_int (m0 : gmap L F) lo hi (body : Z -> Gen G L F unit) x0 :
  (forall x, keeps_cells (body x)) -> lo <= x0 < hi -> undefined_on m0 (body x0) ->
  undefined_on m0 (for_int lo hi body).
Proof.
  intros Hk Hx0. apply undefined_for_each; [exact Hk|]. apply elem_of_seqZ. lia.
Qed.

Variable dis : G -> F * G.
Variable index : Z -> Z -> Z -> L.

Lemma fill_general_undefined (m0 : gmap L F) M N bc i j b :
  0 <= i < M -> 0 <= j < N -> 0 <= b < bc -> m0 !! index i j b = None ->
  undefined_on m0 (fill_general dis index M N bc).
Proof.
  intros Hi Hj Hb Hout. unfold fill_general.
  apply (undefined_for_int m0 0 bc _ b); [|lia|].
  { intros b'. apply keeps_cells_for_int. intros i'. apply keeps_cells_for_int. intros j'.
    apply keeps_cells_bind; [apply keeps_cells_draw|intros v; apply keeps_cells_store]. }
  apply (undefined_for_int m0 0 M _ i); [|lia|].
  { intros i'. apply keeps_cells_for_int. intros j'.
    apply keeps_cells_bind; [apply keeps_cells_draw|intros v; apply keeps_cells_store]. }
  apply (undefined_for_int m0 0 N _ j); [|lia|].
  { intros j'.
    apply keeps_cells_bind; [apply keeps_cells_draw|intros v; apply keeps_cells_store]. }
  apply undefined_bind_r; [apply keeps_cells_draw|].
  intros v. apply undefined_store, Hout.
Qed.

Lemma fill_symmetric_undefined (scale : F -> F) (m0 : gmap L F) N bc i b :
  0 <= i < N -> 0 <= b < bc -> m0 !! index i i b = None ->
  undefined_on m0 (fill_symmetric dis index scale N bc).
Proof.
  intros Hi Hb Hout. unfold fill_symmetric.
  assert (Hrow : forall b' i',
            keeps_cells (d <~ draw dis ;;
                         store (index i' i' b') (scale d) ;;;
                         for_int (i' + 1) N (fun j =>
                           value <~ draw dis ;;
                           store (index i' j b') value ;;;
                           store (index j i' b') value) : Gen G L F unit)).
  { intros b' i'. apply keeps_cells_bind; [apply keeps_cells_draw|intros d].
    apply keeps_cells_bind; [apply keeps_cells_store|intros _].
    apply keeps_cells_for_int. intros j.
    apply keeps_cells_bind; [apply keeps_cells_draw|intros v].
    apply keeps_cells_bind; [apply keeps_cells_store|intros _; apply keeps_cells_store]. }
  apply (undefined_for_int m0 0 bc _ b); [|lia|].
  { intros b'. apply keeps_cells_for_int. intros i'. apply Hrow. }
  apply (undefined_for_int m0 0 N _ i); [apply Hrow|lia|].
  apply undefined_bind_r; [apply keeps_cells_draw|]. intros d.
  apply undefined_bind_l, undefined_store, Hout.
Qed.

Lemma run_undefined (m : Gen G L F unit) g (m0 : gmap L F) : undefined_on m0 m -> run m g m0 = None.
Proof. intros Hm. unfold run. rewrite (Hm (GState g m0)); [reflexivity|]. reflexivity. Qed.

End Undefined.

(** the last element of the last matrix lies past the end of the buffer *)
Lemma cramped_last elem M N lda strideA bc :
  2 <= elem -> cramped elem M N lda strideA bc ->
  index_size_t lda strideA (M - 1) (N - 1) (bc - 1) = flat lda strideA (M - 1) (N - 1) (bc - 1) /\
  index_int64 lda strideA (M - 1) (N - 1) (bc - 1) = flat lda strideA (M - 1) (N - 1) (bc - 1) /\
  strideA * bc <= flat lda strideA (M - 1) (N - 1) (bc - 1) /\
  size_mul (size_mul elem strideA) bc / elem = strideA * bc.
Proof.
  intros Helem (HM & HN & Hint & Hs & Hb & Hal).
  assert (H0 : 0 <= (N - 1) * lda) by nia.
  assert (H1 : (N - 1) * lda + lda = lda * N) by lia.
  assert (H2 : 0 <= (bc - 1) * strideA) by nia.
  assert (H3 : (bc - 1) * strideA + strideA = strideA * bc) by lia.
  assert (H4 : 0 <= strideA * bc) by nia.
  assert (H5 : 2 * (strideA * bc) <= elem * strideA * bc) by nia.
  unfold INT_MAX in *.
  split; [|split; [|split]].
  - unfold index_size_t, flat, int_add, int_mul.
    rewrite (wrap_int_id ((N - 1) * lda)) by (unfold is_int, INT_MIN, INT_MAX; lia).
    rewrite (wrap_int_id (M - 1 + (N - 1) * lda)) by (unfold is_int, INT_MIN, INT_MAX; lia).
    rewrite (size_mul_exact (bc - 1) strideA) by (unfold SIZE_MAX; lia).
    unfold size_add.
    rewrite (to_size_t_id (M - 1 + (N - 1) * lda)) by (unfold SIZE_MAX; lia).
    rewrite (to_size_t_id ((bc - 1) * strideA)) by (unfold SIZE_MAX; lia).
    apply to_size_t_id. unfold SIZE_MAX. lia.
  - unfold index_int64, flat, int_add, int_mul, int64_add, int64_mul.
    rewrite (wrap_int_id ((N - 1) * lda)) by (unfold is_int, INT_MIN, INT_MAX; lia).
    rewrite (wrap_int_id (M - 1 + (N - 1) * lda)) by (unfold is_int, INT_MIN, INT_MAX; lia).
    rewrite (wrap_int64_id ((bc - 1) * strideA)) by lia.
    apply wrap_int64_id. lia.
  - unfold flat. lia.
  - apply malloc_count; lia.
Qed.

Lemma cramped_general {G : Type} (dis : G -> spec_float * G) (stale : Z -> spec_float)
    (index : Z -> Z -> Z -> Z) elem M N lda strideA bc g :
  2 <= elem -> cramped elem M N lda strideA bc ->
  index (M - 1) (N - 1) (bc - 1) = flat lda strideA (M - 1) (N - 1) (bc - 1) ->
  run (fill_general dis index M N bc) g
      (malloc stale (size_mul (size_mul elem strideA) bc / elem)) = None.
Proof.
  intros Helem Hc Hi.
  destruct (cramped_last elem M N lda strideA bc Helem Hc) as (_ & _ & Hout & ->).
  destruct Hc as (HM & HN & _ & _ & Hb & _).
  apply run_undefined.
  apply (fill_general_undefined dis index _ M N bc (M - 1) (N - 1) (bc - 1)); try lia.
  rewrite Hi, lookup_malloc. destruct (decide _) as [Hin|]; [lia|reflexivity].
Qed.

Lemma cramped_symmetric {G : Type} (dis : G -> spec_float * G) (stale : Z -> spec_float)
    (scale : spec_float -> spec_float)
    (index : Z -> Z -> Z -> Z) elem N lda strideA bc g :
  2 <= elem -> cramped elem N N lda strideA bc ->
  index (N - 1) (N - 1) (bc - 1) = flat lda strideA (N - 1) (N - 1) (bc - 1) ->
  run (fill_symmetric dis index scale N bc) g
      (malloc stale (size_mul (size_mul elem strideA) bc / elem)) = None.
Proof.
  intros Helem Hc Hi.
  destruct (cramped_last elem N N lda strideA bc Helem Hc) as (_ & _ & Hout & ->).
  destruct Hc as (HM & HN & _ & _ & Hb & _).
  apply run_undefined.
  apply (fill_symmetric_undefined dis index scale _ N bc (N - 1) (bc - 1)); try lia.
  rewrite Hi, lookup_malloc. destruct (decide _) as [Hin|]; [lia|reflexivity].
Qed.

Section Cramped.
Context {G : Type}.
Variable w : world G.

Lemma cramped_svd M N lda strideA batch_count seed :
  cramped sizeof_float M N lda strideA batch_count ->
  bench_openblas_sgesvdj_strided_batched.create_matrices_for_sgesvdj_strided_batched
    w M N lda strideA batch_count seed = None /\
  bench_rocsolver_sgesvdj_strided_batched.create_matrices_for_sgesvdj_strided_batched
    w M N lda strideA batch_count seed = None.
Proof.
  intros Hc.
  assert (H4 : 2 <= sizeof_float) by (unfold sizeof_float; lia).
  destruct (cramped_last _ _ _ _ _ _ H4 Hc) as (Hi1 & Hi2 & _).
  split; apply (cramped_general _ _ _ sizeof_float _ _ lda); assumption.
Qed.

Lemma cramped_eigen N lda strideA batch_count seed :
  cramped sizeof_float N N lda strideA batch_count ->
  bench_openblas_ssyev.create_matrices w N lda strideA batch_count seed = None /\
  bench_rocsolver_ssyevj_strided_batched.create_symmetric_matrices
    w N lda strideA batch_count seed = None.
Proof.
  intros Hc.
  assert (H4 : 2 <= sizeof_float) by (unfold sizeof_float; lia).
  destruct (cramped_last _ _ _ _ _ _ H4 Hc) as (Hi1 & Hi2 & _).
  split; apply (cramped_symmetric _ _ _ _ sizeof_float _ lda); assumption.
Qed.

Lemma cramped_qr M N lda strideA batch_count seed :
  cramped sizeof_double M N lda strideA batch_count ->
  bench_rocsolver_dgeqrf_strided_batched.create_example_matrices
    w M N lda strideA batch_count seed = None.
Proof.
  intros Hc.
  assert (H8 : 2 <= sizeof_double) by (unfold sizeof_double; lia).
  destruct (cramped_last _ _ _ _ _ _ H8 Hc) as (Hi1 & Hi2 & _).
  apply (cramped_general _ _ _ sizeof_double _ _ lda); assumption.
Qed.



End Cramped.

(** X4. A stride that cannot hold one matrix, strideA < (N - 1) * lda + M,
    makes every strided generator store past the end of the
    strideA * batch_count elements it allocated: the last element of the
    last matrix lies outside the buffer, and the generator has no defined
    result. *)
Theorem X4_stride_too_small {G : Type} (w : world G)
    (M N lda strideA batch_count seed : Z) :
  (cramped sizeof_float M N lda strideA batch_count ->
     strideA * batch_count <= flat lda strideA (M - 1) (N - 1) (batch_count - 1) /\
     bench_openblas_sgesvdj_strided_batched.create_matrices_for_sgesvdj_strided_batched
       w M N lda strideA batch_count seed = None /\
     bench_rocsolver_sgesvdj_strided_batched.create_matrices_for_sgesvdj_strided_batched
       w M N lda strideA batch_count seed = None) /\
  (cramped sizeof_float N N lda strideA batch_count ->
     bench_openblas_ssyev.create_matrices w N lda strideA batch_count seed = None /\
     bench_rocsolver_ssyevj_strided_batched.create_symmetric_matrices
       w N lda strideA batch_count seed = None) /\
  (cramped sizeof_double M N lda strideA batch_count ->
     bench_rocsolver_dgeqrf_strided_batched.create_example_matrices
       w M N lda strideA batch_count seed = None).
Proof.
  split; [|split].
  - intros Hc. split; [|apply cramped_svd, Hc].
    apply (cramped_last sizeof_float M N lda strideA batch_count); [|exact Hc].
    unfold sizeof_float. lia.
  - intros Hc. apply cramped_eigen, Hc.
  - intros Hc. apply cramped_qr, Hc.
Qed.

Lemma X4_stride_too_small_witness :
  bench_openblas_ssyev.create_matrices sample_world 4 10 30 2 42 = None /\
  bench_rocsolver_ssyevj_strided_batched.create_symmetric_matrices sample_world 4 10 30 2 42
  = None.
Proof.
  refine (proj1 (proj2 (X4_stride_too_small sample_world 4 4 10 30 2 42)) _).
  unfold cramped, INT_MAX, sizeof_float. lia.
Defined.



(** ** Empty dimensions *)

Section Empty.
Context {G L F : Type} `{Countable L}.



Variable dis : G -> F * G.
Variable index : Z -> Z -> Z -> L.



End Empty.






(* ===================================================================== *)
(** * Further properties of a run *)
(* ===================================================================== *)

Lemma of_Z_negative z : z < 0 -> has_sign true (Float.of_Z z).
Proof.
  intros Hz. destruct z as [|q|q]; try lia.
  unfold Float.of_Z, binary_normalize, binary_round.
  destruct (shl_align _ _ _) as [mz ez].
  apply binary_round_aux_sign. lia.
Qed.

Lemma of_Z_nonpositive z :
  z <= 0 -> Float.of_Z z = Float.zero \/ has_sign true (Float.of_Z z).
Proof.
  intros Hz. destruct (Z.eq_dec z 0) as [->|Hne]; [left; reflexivity|].
  right. apply of_Z_negative. lia.
Qed.

(** a reading that is not negative is not below a bound that is zero or
    negative *)
Lemma nonneg_not_below x y :
  Float.nonneg x = true -> y = Float.zero \/ has_sign true y -> Float.ltb x y = false.
Proof.
  intros Hx [-> | Hy].
  - change Float.zero with (Float.of_Z 0). apply nonneg_not_below_zero, Hx.
  - destruct x as [[]|[]| |[] mx ex], y as [sy|sy| |sy my ey]; cbn in *;
      try discriminate; try contradiction; subst; reflexivity.
Qed.




Lemma printed_report (p : program) (a : cli) c avg sd :
  printed (report_of p a c avg sd) = report_of p a c avg sd /\
  count_calls (report_of p a c avg sd) = 0%nat.
Proof. destruct p; split; reflexivity. Qed.

Lemma printed_setup (p : program) :
  printed (setup_of p) = [] /\ count_calls (setup_of p) = length (setup_of p).
Proof. destruct p; split; reflexivity. Qed.

(** A run that ends, taken apart: it made [n >= 1] warm-up repetitions. *)
Lemma main_of_exit {G : Type} (p : program) (w : world G) (a : cli) fuel code out :
  main_of p w a fuel = Exit code out ->
  exists n,
    (1 <= n <= fuel)%nat /\
    warmup_loop fuel (warmup_action_of p w a) (warmup_clock w) (warmup_time a) warmup_init
    = (warmup_after (warmup_action_of p w a) (warmup_clock w) n, true) /\
    out = setup_of p
          ++ [Printf ("Performing warm-up for %d ms..." ++ nl) [ArgInt (warmup_time a)]]
          ++ concat (map (warmup_action_of p w a) (seq 1 n))
          ++ [Printf ("Completed %d warm-up iterations in %.2f ms" ++ nl)
                     [ArgInt (wrap_int (Z.of_nat n)); ArgFloat (warmup_clock w n)]]
          ++ concat (map (timed_action_of p w a) (seq 0 (Z.to_nat (iterations a))))
          ++ report_of p a (wrap_int (Z.of_nat n))
               (avg_time (map (timer w) (seq 0 (Z.to_nat (iterations a)))))
               (std_dev (map (timer w) (seq 0 (Z.to_nat (iterations a))))).
Proof.
  intros Hmain.
  destruct (main_of_cases p w a fuel) as [Hc | Hc]; rewrite Hc in Hmain; [discriminate|].
  unfold benchmark_of in Hmain.
  apply run_benchmark_exit in Hmain as (_ & ws & Hws & ->).
  destruct (warmup_loop_from (warmup_action_of p w a) (warmup_clock w) (warmup_time a) fuel 0)
    as (n & Hn & Hfst & _ & Hleft & _).
  change (warmup_after (warmup_action_of p w a) (warmup_clock w) 0) with warmup_init in *.
  rewrite Hws in Hfst, Hleft. cbn [fst snd] in Hfst, Hleft. specialize (Hleft eq_refl).
  assert (Hn1 : (1 <= n)%nat).
  { destruct n; [|lia]. rewrite warmup_cond_init in Hleft. discriminate. }
  destruct (warmup_after_fields (warmup_action_of p w a) (warmup_clock w) n)
    as (_ & Hc' & Ho & He).
  exists n. split; [lia|]. subst ws. split; [exact Hws|].
  rewrite Hc', Ho, He by lia. rewrite timed_loop_spec. reflexivity.
Qed.

Lemma count_calls_run {G : Type} (p : program) (w : world G) (a : cli) n c avg sd elapsed :
  count_calls
    (setup_of p
     ++ [Printf ("Performing warm-up for %d ms..." ++ nl) [ArgInt (warmup_time a)]]
     ++ concat (map (warmup_action_of p w a) (seq 1 n))
     ++ [Printf ("Completed %d warm-up iterations in %.2f ms" ++ nl)
                [ArgInt c; ArgFloat elapsed]]
     ++ concat (map (timed_action_of p w a) (seq 0 (Z.to_nat (iterations a))))
     ++ report_of p a c avg sd)
  = (length (setup_of p) + (n + Z.to_nat (iterations a)) * calls_per_repetition p a)%nat.
Proof.
  rewrite !count_calls_app.
  rewrite (count_calls_concat _ (calls_per_repetition p a)) by (intros k; apply count_calls_action).
  rewrite (count_calls_concat _ (calls_per_repetition p a)) by (intros k; apply count_calls_action).
  rewrite !length_seq.
  destruct (printed_report p a c avg sd) as [_ ->].
  destruct (printed_setup p) as [_ ->].
  cbn [count_calls List.filter is_call length]. lia.
Qed.

(** X6. With a warm-up time of zero or less, and a clock that does not run
    backwards, the warm-up loop of every program makes exactly one
    repetition: one call of the library per matrix on the CPU, one call for
    the batch on the GPU; the run reports 1 warm-up iteration. *)
Theorem X6_warmup_runs_once {G : Type} (p : program) (w : world G) (a : cli) (fuel : nat) :
  warmup_time a <= 0 ->
  Float.nonneg (warmup_clock w 1) = true ->
  let ws := fst (warmup_loop (S fuel) (warmup_action_of p w a) (warmup_clock w)
                             (warmup_time a) warmup_init) in
  repetitions ws = 1%nat /\ warmup_count ws = 1 /\
  warmup_elapsed ws = warmup_clock w 1 /\
  warmup_out ws = warmup_action_of p w a 1 /\
  count_calls (warmup_out ws) = calls_per_repetition p a /\
  (forall code out, main_of p w a (S fuel) = Exit code out ->
     In (Printf ("Completed %d warm-up iterations in %.2f ms" ++ nl)
                [ArgInt 1; ArgFloat (warmup_clock w 1)]) out).
Proof.
  intros Hwt Hclock ws.
  pose proof (warmup_loop_first (warmup_action_of p w a) (warmup_clock w) (warmup_time a)
                (S fuel) 1 ltac:(lia) ltac:(lia)
                (nonneg_not_below _ _ Hclock (of_Z_nonpositive _ Hwt))
                ltac:(intros k Hk; lia)) as Hwarm.
  destruct (warmup_after_fields (warmup_action_of p w a) (warmup_clock w) 1)
    as (Hr & Hc & Ho & He).
  unfold ws. rewrite Hwarm. cbn [fst].
  rewrite Hr, Hc, Ho, He by lia. cbn [seq map concat]. rewrite app_nil_r.
  split; [reflexivity|]. split; [reflexivity|]. split; [reflexivity|].
  split; [reflexivity|]. split; [apply count_calls_action|].
  intros code out Hmain.
  apply main_of_exit in Hmain as (n & Hn & Hloop & ->).
  rewrite Hwarm in Hloop.
  assert (n = 1%nat) as ->.
  { apply (f_equal (fun r => repetitions (fst r))) in Hloop. cbn [fst] in Hloop.
    destruct (warmup_after_fields (warmup_action_of p w a) (warmup_clock w) n) as (Hr' & _).
    rewrite Hr, Hr' in Hloop. congruence. }
  rewrite !in_app_iff. right. right. right. left. left. reflexivity.
Qed.

Lemma X6_warmup_runs_once_witness :
  repetitions
    (fst (warmup_loop 3 (warmup_action_of rocsolver_dgeqrf_batched sample_world zero_iterations)
            (warmup_clock sample_world) (warmup_time zero_iterations) warmup_init)) = 1%nat.
Proof.
  refine (proj1 (X6_warmup_runs_once rocsolver_dgeqrf_batched sample_world
                   zero_iterations 2 _ _)).
  - simpl. lia.
  - reflexivity.
Defined.

(** X7. A run that ends after n warm-up repetitions has called the library
    (n + iterations) * batch_count times in the CPU programs, once more in
    the eigensolver (the workspace query), and n + iterations times in the
    GPU programs. *)
Theorem X7_calls_of_a_run {G : Type} (p : program) (w : world G) (a : cli)
    (fuel : nat) (code : Z) (out : list event) :
  main_of p w a fuel = Exit code out ->
  exists n, (1 <= n <= fuel)%nat /\
    repetitions (fst (warmup_loop fuel (warmup_action_of p w a) (warmup_clock w)
                                  (warmup_time a) warmup_init)) = n /\
    count_calls out
    = (length (setup_of p) + (n + Z.to_nat (iterations a)) * calls_per_repetition p a)%nat.
Proof.
  intros Hmain. apply main_of_exit in Hmain as (n & Hn & Hloop & ->).
  exists n. split; [exact Hn|]. rewrite Hloop. cbn [fst].
  split; [apply warmup_after_fields|]. apply count_calls_run.
Qed.

Lemma X7_calls_of_a_run_witness :
  exists out n,
    main_of openblas_ssyev sample_world scenario 2 = Exit 0 out /\
    (1 <= n <= 2)%nat /\
    count_calls out = (1 + (n + 1) * 1)%nat.
Proof.
  destruct (main_of openblas_ssyev sample_world scenario 2) as [code out| |] eqn:E;
    try (exfalso; vm_compute in E; discriminate E).
  destruct (X7_calls_of_a_run openblas_ssyev sample_world scenario 2 code out E)
    as (n & Hn & _ & Hc).
  assert (code = 0) as -> by (vm_compute in E; congruence).
  exists out, n. split; [reflexivity|]. split; [exact Hn|]. exact Hc.
Defined.



(** in that run the one matrix fails in the one warm-up repetition, and the
    message comes between the two lines about the warm-up *)
Example failing_run_output :
  expected_output openblas_ssyev failing_world scenario 1
  = [Printf ("Performing warm-up for %d ms..." ++ nl) [ArgInt 0];
     Printf bench_openblas_ssyev.failed [ArgInt 0; ArgInt 7];
     Printf ("Completed %d warm-up iterations in %.2f ms" ++ nl)
            [ArgInt 1; ArgFloat (Float.of_Z 1)]]
    ++ report_of openblas_ssyev scenario 1 quarter Float.zero.
Proof. vm_compute. reflexivity. Qed.

(** X9. An iteration count of zero or less is accepted: the timed loop
    makes no repetition, the library is called by the warm-up alone, and
    the report prints the count as given, with NaN for the mean and for
    the standard deviation. *)
Theorem X9_no_iterations {G : Type} (p : program) (w : world G) (a : cli) (fuel : nat) :
  iterations a <= 0 ->
  (forall action, timed_loop action (timer w) (iterations a) = TimedState [] []) /\
  (forall code out, main_of p w a fuel = Exit code out ->
     In (Printf ("Timing iterations: %d" ++ nl) [ArgInt (iterations a)]) out /\
     In (Printf ("Average execution time: %.3f ms" ++ nl) [ArgFloat S754_nan]) out /\
     In (Printf ("Standard deviation: %.3f ms" ++ nl) [ArgFloat S754_nan]) out /\
     exists n, (1 <= n <= fuel)%nat /\
       count_calls out = (length (setup_of p) + n * calls_per_repetition p a)%nat).
Proof.
  intros Hit.
  assert (Hnat : Z.to_nat (iterations a) = 0%nat) by lia.
  split.
  - intros action. rewrite timed_loop_spec, Hnat. reflexivity.
  - intros code out Hmain.
    apply main_of_exit in Hmain as (n & Hn & Hloop & ->).
    rewrite count_calls_run. rewrite Hnat. cbn [seq map concat].
    change (avg_time []) with S754_nan. change (std_dev []) with S754_nan.
    destruct (report_lines p a (wrap_int (Z.of_nat n)) S754_nan S754_nan) as [Ha Hs].
    assert (Hi : In (Printf ("Timing iterations: %d" ++ nl) [ArgInt (iterations a)])
                    (report_of p a (wrap_int (Z.of_nat n)) S754_nan S754_nan))
      by (destruct p; cbn; tauto).
    split; [rewrite !in_app_iff; auto 10|].
    split; [rewrite !in_app_iff; auto 10|].
    split; [rewrite !in_app_iff; auto 10|].
    exists n. split; [exact Hn|]. lia.
Qed.

Lemma X9_no_iterations_witness :
  let a := {| size := 4; rows := 4; cols := 4; lda := 10; stride := None; batch_count := 1;
              random_seed := 42; iterations := -3; warmup_time := 0;
              tolerance := Float.zero; max_sweeps := 0; left_svect := ""; right_svect := "" |} in
  timed_loop (timed_action_of rocsolver_dgeqrf_batched sample_world a) (timer sample_world)
             (iterations a) = TimedState [] [].
Proof.
  intros a.
  refine (proj1 (X9_no_iterations rocsolver_dgeqrf_batched sample_world a 3 _) _).
  simpl. lia.
Defined.

(** ** Signs of the statistics *)

Lemma has_sign_nonneg x : has_sign false x -> Float.nonneg x = true.
Proof. destruct x as [s|s| |s m e]; cbn; intros Hs; try contradiction; subst; reflexivity. Qed.

Section Signs.
Variables prec emax : Z.

Lemma binary_normalize_pos_sign (m : positive) e sz :
  has_sign false (binary_normalize prec emax (Zpos m) e sz).
Proof.
  unfold binary_normalize, binary_round.
  destruct (shl_align _ _ _) as [mz ez]. apply binary_round_aux_sign. lia.
Qed.

Lemma SFadd_nonneg x y :
  Float.nonneg x = true -> Float.nonneg y = true ->
  Float.nonneg (SFadd prec emax x y) = true.
Proof.
  destruct x as [sx|[]| |[] mx ex], y as [sy|[]| |[] my ey]; cbn [Float.nonneg];
    intros Hx Hy; try discriminate; try reflexivity.
  - destruct sx, sy; reflexivity.
  - cbn [SFadd cond_Zopp]. apply has_sign_nonneg.
    match goal with
    | |- has_sign false (binary_normalize _ _ (Z.pos ?a + Z.pos ?b) _ _) =>
        change (Z.pos a + Z.pos b) with (Z.pos (a + b))
    end.
    apply binary_normalize_pos_sign.
Qed.

(** dividing by a count: a zero, a positive number or +infinity *)
Lemma SFdiv_not_negative x y :
  not_negative x = true -> has_sign false y ->
  not_negative (SFdiv prec emax x y) = true.
Proof.
  unfold not_negative. intros Hx Hy.
  apply orb_true_iff in Hx as [Hx|Hx].
  { destruct x; try discriminate. reflexivity. }
  destruct y as [sy|sy| |sy my ey]; cbn in Hy; try contradiction; subst sy.
  - destruct x as [sx|[]| |[] mx ex]; try discriminate; reflexivity.
  - destruct x as [sx|[]| |[] mx ex]; try discriminate; reflexivity.
  - rewrite (SFdiv_nonneg prec emax x my ey Hx). apply orb_true_r.
Qed.

Lemma SFsqrt_core_binary_nonneg m e :
  0 <= fst (fst (SFsqrt_core_binary prec emax m e)).
Proof.
  unfold SFsqrt_core_binary.
  match goal with
  | |- context [Z.sqrtrem ?m'] =>
      pose proof (Z.sqrt_nonneg m') as Hq; rewrite <- Z.sqrtrem_sqrt in Hq;
      destruct (Z.sqrtrem m') as [q r]
  end.
  exact Hq.
Qed.

(** a square root is never negative: the root of a negative number is NaN *)
Lemma SFsqrt_not_negative x : not_negative (SFsqrt prec emax x) = true.
Proof.
  destruct x as [s|[]| |[] m e]; try reflexivity.
  cbn [SFsqrt].
  pose proof (SFsqrt_core_binary_nonneg (Zpos m) e) as Hq.
  destruct (SFsqrt_core_binary prec emax (Zpos m) e) as [[mz ez] lz]. cbn [fst] in Hq.
  unfold not_negative. rewrite has_sign_nonneg; [apply orb_true_r|].
  apply binary_round_aux_sign, Hq.
Qed.

End Signs.

Lemma of_double_not_negative x :
  not_negative x = true -> not_negative (Float.of_double x) = true.
Proof.
  destruct x as [s|s| |[] m e]; try (intros Hx; exact Hx); try discriminate.
  intros _. unfold Float.of_double, not_negative. cbn [cond_Zopp].
  rewrite has_sign_nonneg; [apply orb_true_r|]. apply binary_normalize_pos_sign.
Qed.

Lemma of_Z_count (n : nat) : has_sign false (Float.of_Z (Z.of_nat n)).
Proof.
  unfold Float.of_Z.
  destruct (Z.of_nat n) as [|q|q] eqn:E; try lia; [reflexivity|].
  apply binary_normalize_pos_sign.
Qed.

Lemma sum_nonneg ts acc :
  Float.nonneg acc = true -> (forall t, In t ts -> Float.nonneg t = true) ->
  Float.nonneg (fold_left (fun avg_time t => Float.add avg_time t) ts acc) = true.
Proof.
  revert acc. induction ts as [|t ts IH]; intros acc Hacc Hts; cbn [fold_left]; [exact Hacc|].
  apply IH.
  - apply SFadd_nonneg; [exact Hacc|]. apply Hts. left. reflexivity.
  - intros t' Ht'. apply Hts. right. exact Ht'.
Qed.

(** X10. The reported statistics are never negative numbers.  The standard
    deviation is the square root of a quotient: whatever the samples, it is
    NaN or at least zero.  The mean of samples none of which is negative
    (or NaN) is NaN or at least zero; their sum is at least zero. *)
Theorem X10_statistics_not_negative (ts : list spec_float) :
  not_negative (std_dev ts) = true /\
  ((forall t, In t ts -> Float.nonneg t = true) ->
     Float.nonneg (fold_left (fun avg_time t => Float.add avg_time t) ts Float.zero) = true /\
     not_negative (avg_time ts) = true).
Proof.
  split.
  - unfold std_dev, Float.sqrt. apply of_double_not_negative, SFsqrt_not_negative.
  - intros Hts.
    assert (Hsum : Float.nonneg (fold_left (fun avg_time t => Float.add avg_time t)
                                           ts Float.zero) = true)
      by (apply sum_nonneg; [reflexivity|exact Hts]).
    split; [exact Hsum|].
    unfold avg_time. apply SFdiv_not_negative; [|apply of_Z_count].
    unfold not_negative. rewrite Hsum. apply orb_true_r.
Qed.

Lemma X10_statistics_not_negative_witness :
  not_negative (avg_time [quarter; Float.of_Z 3; Float.zero]) = true.
Proof.
  refine (proj2 (proj2 (X10_statistics_not_negative [quarter; Float.of_Z 3; Float.zero]) _)).
  intros t [<-|[<-|[<-|[]]]]; reflexivity.
Defined.

(** ** The third mode of the singular vectors *)

Lemma min_mn_min M N : min_mn M N = Z.min M N.
Proof. unfold min_mn. destruct (Z.ltb_spec M N); lia. Qed.

(** X11. Mode "singular".  On the left both SVD programs keep the leading
    dimension M and give every matrix M * min(M, N) elements of U.  On the
    right they differ: the CPU program keeps the leading dimension N and
    N * N elements of VT, the GPU program takes the leading dimension
    min(M, N) and min(M, N) * N elements of V.  The singular values take
    min(M, N) elements per matrix in every mode. *)
Theorem X11_svd_singular_mode (a : cli) :
  let M := rows a in
  let N := cols a in
  let k := Z.min M N in
  0 <= M -> 0 <= N -> M * M <= INT_MAX -> N * N <= INT_MAX ->
  0 <= batch_count a <= INT_MAX ->
  (left_svect a = "singular"%string ->
     forall sv : svd_shape, sv = svd_shape_cpu a \/ sv = svd_shape_gpu a ->
       ldu sv = M /\ strideU sv = M * k /\ size_U sv = M * k * batch_count a) /\
  (right_svect a = "singular"%string ->
     (ldv (svd_shape_cpu a) = N /\ strideV (svd_shape_cpu a) = N * N /\
      size_V (svd_shape_cpu a) = N * N * batch_count a) /\
     (ldv (svd_shape_gpu a) = k /\ strideV (svd_shape_gpu a) = k * N /\
      size_V (svd_shape_gpu a) = k * N * batch_count a)) /\
  (forall sv : svd_shape, sv = svd_shape_cpu a \/ sv = svd_shape_gpu a ->
     strideS sv = k /\ size_S sv = k * batch_count a).
Proof.
  intros M N k HM HN HMM HNN Hb.
  assert (Hk : min_mn M N = k) by apply min_mn_min.
  assert (HMk : 0 <= M * k <= INT_MAX) by (unfold k; nia).
  assert (HkN : 0 <= k * N <= INT_MAX) by (unfold k; nia).
  assert (Hk0 : 0 <= k <= INT_MAX) by (unfold k, INT_MAX in *; nia).
  assert (HNN0 : 0 <= N * N) by nia.
  unfold svd_shape_cpu, svd_shape_gpu, OpenblasSizes.sgesvd_svd_shape,
    RocsolverSizes.sgesvdj_svd_shape, OpenblasSizes.job_of, RocsolverSizes.svect_of.
  fold M N. rewrite Hk.
  split; [|split].
  - intros -> sv [-> | ->]; cbn [ldu strideU size_U String.eqb Ascii.eqb Bool.eqb
                                 rocblas_svect_eqb];
      unfold int_mul; rewrite wrap_int_id by (unfold is_int, INT_MIN; lia);
      rewrite ?to_size_t_id by (unfold SIZE_MAX, INT_MAX in *; lia);
      rewrite size_mul_int by lia; auto.
  - intros ->. cbn [ldv strideV size_V String.eqb Ascii.eqb Bool.eqb rocblas_svect_eqb].
    unfold int_mul. rewrite !wrap_int_id by (unfold is_int, INT_MIN; lia).
    rewrite ?to_size_t_id by (unfold SIZE_MAX, INT_MAX in *; lia).
    rewrite !size_mul_int by lia. auto.
  - intros sv [-> | ->]; cbn [strideS size_S];
      rewrite ?to_size_t_id by (unfold SIZE_MAX, INT_MAX in *; lia);
      rewrite size_mul_int by lia; auto.
Qed.

Lemma X11_svd_singular_mode_witness :
  let a := {| size := 0; rows := 10; cols := 8; lda := 10; stride := None;
              batch_count := 2; random_seed := 42; iterations := 10;
              warmup_time := 1000; tolerance := Float.zero; max_sweeps := 0;
              left_svect := "all"; right_svect := "singular" |} in
  strideV (svd_shape_cpu a) = 64 /\ strideV (svd_shape_gpu a) = 64 /\
  size_S (svd_shape_gpu a) = 16.
Proof.
  intros a.
  destruct (X11_svd_singular_mode a) as (_ & Hr & Hs);
    try (unfold INT_MAX; simpl; lia).
  destruct (Hr eq_refl) as ((_ & Hc & _) & (_ & Hg & _)).
  destruct (Hs (svd_shape_gpu a) (or_intror eq_refl)) as [_ HS].
  split; [exact Hc|]. split; [exact Hg|exact HS].
Defined.

(** X12. The mode strings are not validated, and they are compared as they
    are: every string other than "none" and "singular" selects mode "all"
    ('A' on the CPU, rocblas_svect_all on the GPU), so that both SVD
    programs derive from it every leading dimension, stride and size that
    they derive from "all"; the report prints the string as it was given. *)
Theorem X12_unknown_mode_strings (a a' : cli) :
  (forall s : string, s <> "none"%string -> s <> "singular"%string ->
     OpenblasSizes.job_of s = "A"%char /\ RocsolverSizes.svect_of s = rocblas_svect_all) /\
  (rows a' = rows a -> cols a' = cols a -> batch_count a' = batch_count a ->
   left_svect a <> "none"%string -> left_svect a <> "singular"%string ->
   right_svect a <> "none"%string -> right_svect a <> "singular"%string ->
   left_svect a' = "all"%string -> right_svect a' = "all"%string ->
     svd_shape_cpu a = svd_shape_cpu a' /\ svd_shape_gpu a = svd_shape_gpu a') /\
  (forall p c avg sd,
     p = openblas_sgesvdj_strided_batched \/ p = rocsolver_sgesvdj_strided_batched ->
     In (Printf ("Left singular vectors: %s" ++ nl) [ArgStr (left_svect a)])
        (report_of p a c avg sd) /\
     In (Printf ("Right singular vectors: %s" ++ nl) [ArgStr (right_svect a)])
        (report_of p a c avg sd)).
Proof.
  assert (Hs : forall s : string, s <> "none"%string -> s <> "singular"%string ->
            OpenblasSizes.job_of s = "A"%char /\
            RocsolverSizes.svect_of s = rocblas_svect_all).
  { intros s Hn Hsg. unfold OpenblasSizes.job_of, RocsolverSizes.svect_of.
    apply String.eqb_neq in Hn, Hsg. rewrite Hn, Hsg. auto. }
  split; [exact Hs|]. split.
  - intros HM HN Hb Hln Hls Hrn Hrs Hl' Hr'.
    destruct (Hs _ Hln Hls) as [Hj Hv]. destruct (Hs _ Hrn Hrs) as [Hj' Hv'].
    unfold svd_shape_cpu, svd_shape_gpu, OpenblasSizes.sgesvd_svd_shape,
      RocsolverSizes.sgesvdj_svd_shape.
    rewrite Hj, Hv, Hj', Hv', Hl', Hr', HM, HN, Hb. split; reflexivity.
  - intros p c avg sd [-> | ->]; cbn; tauto.
Qed.

Lemma X12_unknown_mode_strings_witness :
  let a := {| size := 0; rows := 10; cols := 8; lda := 10; stride := None;
              batch_count := 2; random_seed := 42; iterations := 10;
              warmup_time := 1000; tolerance := Float.zero; max_sweeps := 0;
              left_svect := "None"; right_svect := "ALL" |} in
  svd_shape_cpu a = svd_shape_cpu bench_openblas_sgesvdj_strided_batched.defaults /\
  svd_shape_gpu a = svd_shape_gpu bench_openblas_sgesvdj_strided_batched.defaults.
Proof.
  intros a.
  refine (proj1 (proj2 (X12_unknown_mode_strings a
                          bench_openblas_sgesvdj_strided_batched.defaults))
            eq_refl eq_refl eq_refl _ _ _ _ eq_refl eq_refl);
    discriminate.
Defined.

(* ===================================================================== *)
(** * Inside the batch loops *)
(* ===================================================================== *)

(** slices of [s] elements, one per matrix, in a buffer of [s * bc] *)
Lemma slices s bc b b' :
  0 <= s <= INT_MAX -> bc <= INT_MAX -> 0 <= b < b' -> b' < bc ->
  0 <= size_mul b s /\
  size_mul b s + s <= size_mul b' s /\
  size_mul b' s + s <= size_mul s bc.
Proof.
  intros Hs Hbc Hb Hb'.
  rewrite (size_mul_int b s), (size_mul_int b' s), (size_mul_int s bc) by lia.
  nia.
Qed.

Lemma strideA_int (p : program) (a : cli) :
  strided p = true -> cli_ints a -> well_dimensioned p a ->
  0 <= sh_strideA (shape_of p a) <= INT_MAX.
Proof.
  intros Hp Hints (Hb & Hs & Hprod).
  destruct (shape_of_strideA p a Hp) as [Hst _].
  unfold strideA_size_t, strideA_int64, int_mul in Hst.
  destruct (stride a) as [s|] eqn:Es.
  - assert (0 <= s <= INT_MAX).
    { destruct Hints as (_ & _ & _ & _ & Hsi & _).
      specialize (Hsi s Es). specialize (Hs s eq_refl).
      unfold is_int in Hsi. lia. }
    rewrite to_size_t_id in Hst by (unfold SIZE_MAX, INT_MAX in *; lia).
    destruct Hst as [-> | ->]; lia.
  - rewrite wrap_int_id in Hst by (unfold is_int, INT_MIN; lia).
    rewrite to_size_t_id in Hst by (unfold SIZE_MAX, INT_MAX in *; lia).
    destruct Hst as [-> | ->]; lia.
Qed.

Lemma svd_strides_int (a : cli) :
  0 <= rows a -> 0 <= cols a ->
  rows a * rows a <= INT_MAX -> cols a * cols a <= INT_MAX ->
  let sv := svd_shape_cpu a in
  0 <= strideS sv <= INT_MAX /\ 0 <= strideU sv <= INT_MAX /\ 0 <= strideV sv <= INT_MAX.
Proof.
  intros HM HN HMM HNN.
  assert (Hk : 0 <= min_mn (rows a) (cols a) <= INT_MAX).
  { rewrite min_mn_min. unfold INT_MAX in *. nia. }
  assert (HMk : 0 <= rows a * min_mn (rows a) (cols a) <= INT_MAX).
  { rewrite min_mn_min. nia. }
  assert (HN0 : 0 <= cols a * cols a) by nia.
  assert (HM0 : 0 <= rows a * rows a) by nia.
  unfold svd_shape_cpu, OpenblasSizes.sgesvd_svd_shape. cbn [strideS strideU strideV].
  split; [|split].
  - rewrite to_size_t_id by (unfold SIZE_MAX, INT_MAX in *; lia). exact Hk.
  - destruct (Ascii.eqb (OpenblasSizes.job_of (left_svect a)) "N");
      [unfold INT_MAX; lia|].
    unfold int_mul.
    destruct (Ascii.eqb (OpenblasSizes.job_of (left_svect a)) "A");
      rewrite wrap_int_id by (unfold is_int, INT_MIN; lia);
      rewrite to_size_t_id by (unfold SIZE_MAX, INT_MAX in *; lia); lia.
  - destruct (Ascii.eqb (OpenblasSizes.job_of (right_svect a)) "N");
      [unfold INT_MAX; lia|].
    unfold int_mul. rewrite wrap_int_id by (unfold is_int, INT_MIN; lia).
    rewrite to_size_t_id by (unfold SIZE_MAX, INT_MAX in *; lia). lia.
Qed.

(** X13. In the batch loops of the two CPU programs the slices handed to
    the library for different matrices do not overlap and lie inside their
    buffers: matrix b has the strideA elements from A_batch, and its
    results have the slices from W_batch (N eigenvalues), S_batch, U_batch
    and VT_batch, each one stride long; the slice of the last matrix ends
    where the buffer ends. *)
Theorem X13_batch_slices (a : cli) (b b' : Z) :
  cli_ints a ->
  0 <= b < b' -> b' < batch_count a ->
  (well_dimensioned openblas_ssyev a -> 0 <= size a ->
     let sh := OpenblasSizes.ssyev_shape a in
     (0 <= BatchLoop.A_batch sh b /\
      BatchLoop.A_batch sh b + sh_strideA sh <= BatchLoop.A_batch sh b' /\
      BatchLoop.A_batch sh b' + sh_strideA sh <= sh_size_A sh) /\
     (0 <= BatchLoop.W_batch a b /\
      BatchLoop.W_batch a b + size a <= BatchLoop.W_batch a b' /\
      BatchLoop.W_batch a b' + size a <= BatchLoop.size_W a)) /\
  (well_dimensioned openblas_sgesvdj_strided_batched a ->
   0 <= rows a -> 0 <= cols a ->
   rows a * rows a <= INT_MAX -> cols a * cols a <= INT_MAX ->
     let sh := OpenblasSizes.sgesvd_shape a in
     let sv := svd_shape_cpu a in
     (0 <= BatchLoop.A_batch sh b /\
      BatchLoop.A_batch sh b + sh_strideA sh <= BatchLoop.A_batch sh b' /\
      BatchLoop.A_batch sh b' + sh_strideA sh <= sh_size_A sh) /\
     (0 <= BatchLoop.S_batch sv b /\
      BatchLoop.S_batch sv b + strideS sv <= BatchLoop.S_batch sv b' /\
      BatchLoop.S_batch sv b' + strideS sv <= size_S sv) /\
     (0 <= BatchLoop.U_batch sv b /\
      BatchLoop.U_batch sv b + strideU sv <= BatchLoop.U_batch sv b' /\
      BatchLoop.U_batch sv b' + strideU sv <= size_U sv) /\
     (0 <= BatchLoop.VT_batch sv b /\
      BatchLoop.VT_batch sv b + strideV sv <= BatchLoop.VT_batch sv b' /\
      BatchLoop.VT_batch sv b' + strideV sv <= size_V sv)).
Proof.
  intros Hints Hb Hb'.
  assert (Hbc : batch_count a <= INT_MAX).
  { destruct Hints as (_ & _ & _ & _ & _ & Hbi & _). unfold is_int in Hbi. lia. }
  split.
  - intros Hwd Hsize sh.
    pose proof (strideA_int openblas_ssyev a eq_refl Hints Hwd) as Hs.
    change (shape_of openblas_ssyev a) with sh in Hs.
    assert (Hn : 0 <= size a <= INT_MAX).
    { destruct Hints as (Hn & _). unfold is_int in Hn. lia. }
    split.
    + apply (slices (sh_strideA sh) (batch_count a) b b'); assumption.
    + unfold BatchLoop.W_batch, BatchLoop.size_W, BatchLoop.strideW.
      rewrite to_size_t_id by (unfold SIZE_MAX, INT_MAX in *; lia).
      apply (slices (size a) (batch_count a) b b'); assumption.
  - intros Hwd HM HN HMM HNN sh sv.
    pose proof (strideA_int openblas_sgesvdj_strided_batched a eq_refl Hints Hwd) as Hs.
    change (shape_of openblas_sgesvdj_strided_batched a) with sh in Hs.
    destruct (svd_strides_int a HM HN HMM HNN) as (HS & HU & HV). fold sv in HS, HU, HV.
    split; [|split; [|split]].
    + apply (slices (sh_strideA sh) (batch_count a) b b'); assumption.
    + apply (slices (strideS sv) (batch_count a) b b'); assumption.
    + apply (slices (strideU sv) (batch_count a) b b'); assumption.
    + apply (slices (strideV sv) (batch_count a) b b'); assumption.
Qed.

Lemma X13_batch_slices_witness :
  let a := bench_openblas_sgesvdj_strided_batched.defaults in
  let sv := svd_shape_cpu a in
  BatchLoop.U_batch sv 0 + strideU sv <= BatchLoop.U_batch sv 1 /\
  BatchLoop.U_batch sv 1 + strideU sv <= size_U sv.
Proof.
  intros a sv.
  assert (Hints : cli_ints a).
  { unfold cli_ints, is_int, INT_MIN, INT_MAX. simpl.
    repeat split; try lia; intros; discriminate. }
  assert (Hwd : well_dimensioned openblas_sgesvdj_strided_batched a).
  { unfold well_dimensioned, INT_MAX. simpl. repeat split; try lia; intros; discriminate. }
  destruct (X13_batch_slices a 0 1 Hints ltac:(lia) ltac:(simpl; lia)) as [_ Hsvd].
  destruct (Hsvd Hwd ltac:(simpl; lia) ltac:(simpl; lia)
              ltac:(unfold INT_MAX; simpl; lia) ltac:(unfold INT_MAX; simpl; lia))
    as (_ & _ & (_ & HU1 & HU2) & _).
  split; [exact HU1|exact HU2].
Defined.

(** ** What the library is given *)

Section Given.
Context {B : Type}.
Variable solve : B -> B.
Variables hA junk : B.

Lemma warmup_fresh p n s :
  Buffers.copies_input p WarmUp = true ->
  Buffers.given (Nat.iter n (Buffers.repetition solve p WarmUp hA) s)
  = Buffers.given s ++ repeat hA n /\
  (n <> O ->
   Buffers.contents (Nat.iter n (Buffers.repetition solve p WarmUp hA) s) = solve hA).
Proof.
  intros Hc. induction n as [|n [IHg IHc]].
  - cbn. rewrite app_nil_r. split; [reflexivity|congruence].
  - rewrite Nat.iter_succ. unfold Buffers.repetition at 1 3. rewrite Hc.
    cbn [Buffers.given Buffers.contents]. rewrite IHg.
    split; [|reflexivity].
    rewrite <- app_assoc. f_equal.
    change (repeat hA n ++ [hA]) with (repeat hA n ++ repeat hA 1).
    rewrite <- repeat_app. f_equal. lia.
Qed.

Lemma warmup_stale p n s :
  Buffers.copies_input p WarmUp = false ->
  Buffers.given (Nat.iter n (Buffers.repetition solve p WarmUp hA) s)
  = Buffers.given s ++ map (fun k => Nat.iter k solve (Buffers.contents s)) (seq 0 n) /\
  Buffers.contents (Nat.iter n (Buffers.repetition solve p WarmUp hA) s)
  = Nat.iter n solve (Buffers.contents s).
Proof.
  intros Hc. induction n as [|n [IHg IHc]].
  - cbn. rewrite app_nil_r. split; reflexivity.
  - rewrite Nat.iter_succ. unfold Buffers.repetition at 1 3. rewrite Hc.
    cbn [Buffers.given Buffers.contents]. rewrite IHg, IHc.
    split; [|reflexivity].
    rewrite seq_S, map_app, <- app_assoc. reflexivity.
Qed.

Lemma timed_fresh p (ks : list nat) s :
  Buffers.copies_input p Timed = true ->
  Buffers.given (fold_left (fun s (_ : nat) => Buffers.repetition solve p Timed hA s) ks s)
  = Buffers.given s ++ repeat hA (length ks).
Proof.
  intros Hc. revert s. induction ks as [|k ks IH]; intros s; cbn [fold_left length repeat].
  - rewrite app_nil_r. reflexivity.
  - rewrite IH. unfold Buffers.repetition. rewrite Hc. cbn [Buffers.given].
    rewrite <- app_assoc. reflexivity.
Qed.

Lemma timed_stale p (ks : list nat) s :
  Buffers.copies_input p Timed = false ->
  Buffers.given (fold_left (fun s (_ : nat) => Buffers.repetition solve p Timed hA s) ks s)
  = Buffers.given s
    ++ map (fun k => Nat.iter k solve (Buffers.contents s)) (seq 0 (length ks)).
Proof.
  intros Hc. revert s. induction ks as [|k ks IH]; intros s; cbn [fold_left length].
  - cbn. rewrite app_nil_r. reflexivity.
  - rewrite IH. unfold Buffers.repetition. rewrite Hc.
    cbn [Buffers.given Buffers.contents]. rewrite <- app_assoc. f_equal.
    cbn [seq map Nat.iter]. f_equal.
    rewrite <- seq_shift, map_map. apply map_ext. intros k'.
    rewrite Nat.iter_succ_r. reflexivity.
Qed.

Lemma outputs_from n its :
  map (fun k => Nat.iter k solve (Nat.iter n solve hA)) (seq 0 its)
  = map (fun k => Nat.iter k solve hA) (seq n its).
Proof.
  replace (seq n its) with (seq (n + 0) its) by (f_equal; lia).
  rewrite <- (fmap_add_seq n 0 its).
  change (Nat.add n <$> seq 0 its) with (map (Nat.add n) (seq 0 its)).
  rewrite map_map. apply map_ext. intros k.
  rewrite <- Nat.iter_add. f_equal. lia.
Qed.

End Given.

(** X14. What the library is given, repetition by repetition.  The two CPU
    programs copy the generated matrices over the working buffer at the
    head of every repetition: the library is always given the generated
    matrices, and never what malloc left in the working buffer.  The GPU
    SVD program copies them at the head of a timed iteration only: its
    warm-up works on what the previous call left.  The GPU eigensolver and
    the two GPU QR programs copy them once, before the loops: from the
    second call on, warm-up and timed iterations alike are given the
    output of the call before. *)
Theorem X14_inputs_of_the_library {B : Type} (solve : B -> B) (hA junk : B)
    (p : program) (n : nat) (iterations : Z) :
  let its := Z.to_nat iterations in
  let outputs k := Nat.iter k solve hA in
  Buffers.given (Buffers.loops solve p hA junk n iterations)
  = match p with
    | openblas_ssyev | openblas_sgesvdj_strided_batched => repeat hA (n + its)
    | rocsolver_sgesvdj_strided_batched => map outputs (seq 0 n) ++ repeat hA its
    | _ => map outputs (seq 0 (n + its))
    end.
Proof.
  intros its outputs. unfold Buffers.loops.
  assert (Hfresh : forall q, Buffers.copies_input q WarmUp = true ->
            Buffers.given
              (fold_left (fun s (_ : nat) => Buffers.repetition solve q Timed hA s)
                 (seq 0 its)
                 (Nat.iter n (Buffers.repetition solve q WarmUp hA)
                    (Buffers.Working junk [])))
            = repeat hA (n + its)).
  { intros q Hq.
    assert (Hq' : Buffers.copies_input q Timed = true) by (destruct q; auto; discriminate Hq).
    rewrite timed_fresh by exact Hq'.
    rewrite (proj1 (warmup_fresh solve hA q n _ Hq)).
    cbn [Buffers.given app]. rewrite length_seq, <- repeat_app. reflexivity. }
  assert (Hstale : forall q, Buffers.copies_input q WarmUp = false ->
            Buffers.copies_input q Timed = false ->
            Buffers.given
              (fold_left (fun s (_ : nat) => Buffers.repetition solve q Timed hA s)
                 (seq 0 its)
                 (Nat.iter n (Buffers.repetition solve q WarmUp hA)
                    (Buffers.Working hA [])))
            = map outputs (seq 0 (n + its))).
  { intros q Hq Hq'.
    rewrite timed_stale by exact Hq'.
    destruct (warmup_stale solve hA q n (Buffers.Working hA []) Hq) as [-> ->].
    cbn [Buffers.given Buffers.contents app].
    rewrite length_seq, seq_app, map_app, Nat.add_0_l, outputs_from. reflexivity. }
  destruct p; cbn [Buffers.before_loops];
    try (apply Hfresh; reflexivity); try (apply Hstale; reflexivity).
  rewrite timed_fresh by reflexivity.
  rewrite (proj1 (warmup_stale solve hA rocsolver_sgesvdj_strided_batched n _ eq_refl)).
  cbn [Buffers.given Buffers.contents app]. rewrite length_seq. reflexivity.
Qed.

(** on the GPU the eigensolver is timed, from the first timed iteration on,
    on matrices it has already worked on *)
Example eigensolver_inputs :
  Buffers.given (Buffers.loops (fun x => S x) rocsolver_ssyevj_strided_batched 0 99 2 3)%nat
  = [0; 1; 2; 3; 4]%nat /\
  Buffers.given (Buffers.loops (fun x => S x) openblas_ssyev 0 99 2 3)%nat
  = [0; 0; 0; 0; 0]%nat.
Proof. split; reflexivity. Qed.

(** ** A clock that never reaches the warm-up time *)

(** X15. The warm-up has no bound of its own on its repetitions: while the
    elapsed time stays below the warm-up time the loop goes on, and the
    program never gets to measure or to report. *)
Theorem X15_warmup_unbounded {G : Type} (p : program) (w : world G) (a : cli) (fuel : nat) :
  (forall k, (1 <= k)%nat ->
     Float.ltb (warmup_clock w k) (Float.of_Z (warmup_time a)) = true) ->
  let run := warmup_loop fuel (warmup_action_of p w a) (warmup_clock w)
                         (warmup_time a) warmup_init in
  snd run = false /\ repetitions (fst run) = fuel /\
  count_calls (warmup_out (fst run)) = (fuel * calls_per_repetition p a)%nat /\
  is_exit (main_of p w a fuel) = false.
Proof.
  intros Hbelow run.
  destruct (warmup_loop_from (warmup_action_of p w a) (warmup_clock w) (warmup_time a) fuel 0)
    as (m & Hm & Hfst & _ & Hleft & Hcut).
  change (warmup_after (warmup_action_of p w a) (warmup_clock w) 0) with warmup_init in *.
  fold run in Hfst, Hleft, Hcut.
  assert (Hcond : forall k, warmup_cond (warmup_time a)
                    (warmup_after (warmup_action_of p w a) (warmup_clock w) k) = true).
  { intros [|k]; [apply warmup_cond_init|].
    destruct (warmup_after_fields (warmup_action_of p w a) (warmup_clock w) (S k))
      as (_ & _ & _ & He).
    unfold warmup_cond. rewrite He by lia. rewrite Hbelow by lia. reflexivity. }
  assert (Hflag : snd run = false).
  { destruct (snd run) eqn:E; [|reflexivity].
    specialize (Hleft eq_refl). rewrite Hcond in Hleft. discriminate Hleft. }
  destruct (Hcut Hflag) as [-> _].
  destruct (warmup_after_fields (warmup_action_of p w a) (warmup_clock w) (0 + fuel))
    as (Hr & _ & Ho & _).
  split; [exact Hflag|]. rewrite Hfst, Hr, Ho. split; [reflexivity|]. split.
  - rewrite (count_calls_concat _ (calls_per_repetition p a))
      by (intros k; apply count_calls_action).
    rewrite length_seq. reflexivity.
  - destruct (main_of_cases p w a fuel) as [-> | ->]; [reflexivity|].
    rewrite benchmark_of_exit. exact Hflag.
Qed.

Lemma X15_warmup_unbounded_witness :
  let w := {| mt19937 := mt19937 sample_world; dis_float := dis_float sample_world;
              dis_double := dis_double sample_world; stale := stale sample_world;
              warmup_clock := fun _ => Float.zero; timer := timer sample_world;
              info := info sample_world; fmt_float := fmt_float sample_world |} in
  is_exit (main_of rocsolver_dgeqrf_batched w bench_rocsolver_dgeqrf_batched.defaults 7)
  = false.
Proof.
  intros w.
  refine (proj2 (proj2 (proj2 (X15_warmup_unbounded rocsolver_dgeqrf_batched w
                                 bench_rocsolver_dgeqrf_batched.defaults 7 _)))).
  intros k Hk. reflexivity.
Defined.

(** ** Teardown *)

Section Held.
Import Resources.









End Held.


(** a release that comes too early, or twice, is an error *)
Example release_twice :
  Resources.after (Resources.acquire (Resources.ones ["hA"])
                   ++ Resources.release (Resources.ones ["hA"; "hA"])) = None /\
  Resources.after (Resources.release (Resources.ones ["hA"])) = None.
Proof. split; vm_compute; reflexivity. Qed.
